(** * CLASSIC crash-log scanner: a shallow embedding of the scan pipeline

    The development follows the Python sources of the scanner:
    - [ClassicLib/ScanLog/Parser.py]          (header and segment extraction)
    - [ClassicLib/ScanLog/SuspectScanner.py]  (suspect rules and their signals)
    - [ClassicLib/ScanLog/FormIDAnalyzer.py]  (FormID extraction and matching)
    - [ClassicLib/ScanLog/SettingsScanner.py] (the disabled-settings sweep)
    - [ClassicLib/ScanLog/FCXModeHandler.py]  (the session validation cache)
    - [CLASSIC_ScanLogs.py]                   (report writing and relocation)

    Python strings are embedded as [string]; a character stands for a code
    point below 256.  Python integers are [Z], list indices and slices keep
    Python's treatment of negative and out-of-range positions, and a call
    that may raise returns an [outcome]. *)

From Stdlib Require Import ZArith String Ascii List Lia Bool.
From Stdlib Require Import DecimalString.
From stdpp Require Import base tactics option list strings sorting gmap.

Local Open Scope Z_scope.

(** ** Python values *)

Module Py.

(** What a call does: it returns, it raises, or the bound that the model puts
    on a [while] loop was too small. *)
Inductive exn := IndexError | ValueError | FileNotFoundError | FileExistsError.

Inductive outcome (A : Type) : Type :=
  | Ok (a : A)
  | Raise (e : exn)
  | OutOfFuel.
Arguments Ok {A} a.
Arguments Raise {A} e.
Arguments OutOfFuel {A}.

Definition bind {A B} (o : outcome A) (k : A -> outcome B) : outcome B :=
  match o with
  | Ok a => k a
  | Raise e => Raise e
  | OutOfFuel => OutOfFuel
  end.

(** [len(l)] *)
Definition len {A} (l : list A) : Z := Z.of_nat (length l).

(** [l[i]]: a negative index counts from the end, anything outside raises. *)
Definition index {A} (l : list A) (i : Z) : outcome A :=
  let j := if i <? 0 then i + len l else i in
  if (0 <=? j) && (j <? len l)
  then match l !! Z.to_nat j with
       | Some x => Ok x
       | None => Raise IndexError
       end
  else Raise IndexError.

(** Slice bounds: negative bounds count from the end, then both are clamped
    to [0, len]. *)
Definition clamp (n i : Z) : nat :=
  Z.to_nat (Z.min n (Z.max 0 (if i <? 0 then i + n else i))).

(** [l[a:b]] *)
Definition slice {A} (l : list A) (a b : Z) : list A :=
  let a' := clamp (len l) a in
  let b' := clamp (len l) b in
  take (b' - a')%nat (drop a' l).

(** [l[a:]] *)
Definition slice_from {A} (l : list A) (a : Z) : list A :=
  drop (clamp (len l) a) l.

(** [s.startswith(p)] *)
Definition startswith (s p : string) : bool := String.prefix p s.

(** [sub in s] *)
Fixpoint contains (sub s : string) : bool :=
  String.prefix sub s ||
  match s with
  | EmptyString => false
  | String _ s' => contains sub s'
  end.

(** [s.count(sub)] for a non-empty [sub]: occurrences are counted from the
    left and do not overlap; [skip] characters of the last occurrence are
    still to be passed. *)
Fixpoint count_from (sub : string) (skip : nat) (s : string) : nat :=
  match s with
  | EmptyString => 0%nat
  | String _ s' =>
      match skip with
      | S k => count_from sub k s'
      | O => if String.prefix sub s
             then S (count_from sub (String.length sub - 1) s')
             else count_from sub 0 s'
      end
  end.

(** [s.count(sub)]; the empty string is counted between all characters. *)
Definition count (s sub : string) : nat :=
  match sub with
  | EmptyString => (String.length s + 1)%nat
  | _ => count_from sub 0 s
  end.

(** [str.isspace] on one character, for code points below 256. *)
Definition isspace (c : ascii) : bool :=
  let n := nat_of_ascii c in
  ((9 <=? n) && (n <=? 13) || (28 <=? n) && (n <=? 32)
   || (n =? 133) || (n =? 160))%nat.

Fixpoint lstrip (s : string) : string :=
  match s with
  | EmptyString => EmptyString
  | String c s' => if isspace c then lstrip s' else s
  end.

Fixpoint rstrip (s : string) : string :=
  match s with
  | EmptyString => EmptyString
  | String c s' =>
      match rstrip s' with
      | EmptyString => if isspace c then EmptyString else String c EmptyString
      | r => String c r
      end
  end.

(** [s.strip()] *)
Definition strip (s : string) : string := rstrip (lstrip s).

(** [s.replace(old, new, 1)] for one-character [old] and [new]. *)
Fixpoint replace_first (old new : ascii) (s : string) : string :=
  match s with
  | EmptyString => EmptyString
  | String c s' =>
      if Ascii.eqb c old then String new s' else String c (replace_first old new s')
  end.

(** [s.split(sep, 1)] for a one-character [sep]: [None] when [sep] does not
    occur (the result list has one element), else the parts around its first
    occurrence. *)
Fixpoint split_once (sep : ascii) (s : string) : option (string * string) :=
  match s with
  | EmptyString => None
  | String c s' =>
      if Ascii.eqb c sep then Some (EmptyString, s')
      else match split_once sep s' with
           | Some (a, b) => Some (String c a, b)
           | None => None
           end
  end.

(** [a or b] on strings: the empty string is falsy. *)
Definition or_else (a b : string) : string :=
  match a with
  | EmptyString => b
  | _ => a
  end.

(** ASCII letters under [str.upper] and [str.lower]. *)
Definition upper_char (c : ascii) : ascii :=
  let n := nat_of_ascii c in
  if ((97 <=? n) && (n <=? 122))%nat then ascii_of_nat (n - 32) else c.

Definition lower_char (c : ascii) : ascii :=
  let n := nat_of_ascii c in
  if ((65 <=? n) && (n <=? 90))%nat then ascii_of_nat (n + 32) else c.

Fixpoint map_string (f : ascii -> ascii) (s : string) : string :=
  match s with
  | EmptyString => EmptyString
  | String c s' => String (f c) (map_string f s')
  end.

(** [str(n)] for a non-negative integer. *)
Definition str_of_nat (n : nat) : string := NilEmpty.string_of_uint (Nat.to_uint n).

(** [str.lower] on one character, for code points below 256: the ASCII
    capitals and the capitals of the Latin-1 block. *)
Definition lower_latin (c : ascii) : ascii :=
  let n := nat_of_ascii c in
  if ((65 <=? n) && (n <=? 90) || (192 <=? n) && (n <=? 214)
      || (216 <=? n) && (n <=? 222))%nat
  then ascii_of_nat (n + 32) else c.

(** [s.lower()] *)
Definition lower (s : string) : string := map_string lower_latin s.


(** [s.replace(old, "")] for a one-character [old]. *)
Fixpoint remove_char (old : ascii) (s : string) : string :=
  match s with
  | EmptyString => EmptyString
  | String c s' =>
      if Ascii.eqb c old then remove_char old s' else String c (remove_char old s')
  end.
End Py.

#[global] Instance outcome_ret : MRet Py.outcome := fun _ a => Py.Ok a.
#[global] Instance outcome_bind : MBind Py.outcome := fun _ _ k o => Py.bind o k.

(** ** Parser.py *)

Module Parser.
Import Py.

(** *** [parse_crash_header] *)

(** The three locals of [parse_crash_header]. *)
Record header := {
  game_version : string;
  crashgen_version : string;
  main_error : string }.

Definition UNKNOWN : string := "UNKNOWN".
Definition NEWLINE : ascii := ascii_of_nat 10.

(** One turn of the [for line in crash_data] loop: three independent [if]s,
    each overwriting its local. *)
Definition header_step (crashgen_name game_root_name : string)
    (h : header) (line : string) : header :=
  let h1 :=
    if negb (String.eqb game_root_name "") && startswith line game_root_name
    then {| game_version := strip line;
            crashgen_version := crashgen_version h;
            main_error := main_error h |}
    else h in
  let h2 :=
    if startswith line crashgen_name
    then {| game_version := game_version h1;
            crashgen_version := strip line;
            main_error := main_error h1 |}
    else h1 in
  if startswith line "Unhandled exception"
  then {| game_version := game_version h2;
          crashgen_version := crashgen_version h2;
          main_error := replace_first "|" NEWLINE line |}
  else h2.

Definition header_loop (crashgen_name game_root_name : string)
    (crash_data : list string) (h : header) : header :=
  fold_left (header_step crashgen_name game_root_name) crash_data h.

Definition parse_crash_header (crash_data : list string)
    (crashgen_name game_root_name : string) : string * string * string :=
  let h := header_loop crashgen_name game_root_name crash_data
             {| game_version := UNKNOWN;
                crashgen_version := UNKNOWN;
                main_error := UNKNOWN |} in
  (or_else (game_version h) UNKNOWN,
   or_else (crashgen_version h) UNKNOWN,
   or_else (main_error h) UNKNOWN).

(** *** [extract_segments] *)

(** The locals of [extract_segments] that change in its [while] loop. *)
Record scan := {
  segments : list (list string);
  current_index : Z;
  segment_index : Z;
  collecting : bool;
  segment_start_index : Z;
  current_boundary : string }.

(** How one turn of the loop ends: at the loop head again, or at [break]. *)
Inductive ctl := Continue (st : scan) | Break (st : scan).

(** [pair[int(collecting)]] *)
Definition pick (pair : string * string) (c : bool) : string :=
  if c then snd pair else fst pair.

(** Lines 94-98: the check for the last line, then [current_index += 1]. *)
Definition finish_turn (crash_data : list string) (st : scan) : ctl :=
  let segs :=
    if collecting st && (current_index st =? len crash_data - 1)
    then segments st ++ [slice_from crash_data (segment_start_index st)]
    else segments st in
  Continue {| segments := segs;
              current_index := current_index st + 1;
              segment_index := segment_index st;
              collecting := collecting st;
              segment_start_index := segment_start_index st;
              current_boundary := current_boundary st |}.

(** Lines 80-92, entered with the state left by the [if collecting] of lines
    67-78: toggle, fetch the next boundary, and handle the two special cases. *)
Definition toggle (crash_data : list string)
    (segment_boundaries : list (string * string)) (eof_marker : string)
    (st : scan) : outcome ctl :=
  let c := negb (collecting st) in
  pair ← index segment_boundaries (segment_index st);
  let b := pick pair c in
  if c && String.eqb b eof_marker
  then Ok (Break {| segments :=
                      segments st ++ [slice_from crash_data (segment_start_index st)];
                    current_index := current_index st;
                    segment_index := segment_index st;
                    collecting := c;
                    segment_start_index := segment_start_index st;
                    current_boundary := b |})
  else Ok (finish_turn crash_data
             {| segments := segments st;
                current_index :=
                  if negb c then current_index st - 1 else current_index st;
                segment_index := segment_index st;
                collecting := c;
                segment_start_index := segment_start_index st;
                current_boundary := b |}).

(** The body of the [while] loop (lines 63-98). *)
Definition loop_body (crash_data : list string)
    (segment_boundaries : list (string * string)) (eof_marker : string)
    (st : scan) : outcome ctl :=
  let total_lines := len crash_data in
  line ← index crash_data (current_index st);
  if startswith line (current_boundary st) then
    if collecting st then
      let segment_end_index :=
        if 0 <? current_index st then current_index st - 1 else current_index st in
      let st1 :=
        {| segments := segments st ++
             [slice crash_data (segment_start_index st) segment_end_index];
           current_index := current_index st;
           segment_index := segment_index st + 1;
           collecting := collecting st;
           segment_start_index := segment_start_index st;
           current_boundary := current_boundary st |} in
      if segment_index st1 =? len segment_boundaries
      then Ok (Break st1)
      else toggle crash_data segment_boundaries eof_marker st1
    else
      toggle crash_data segment_boundaries eof_marker
        {| segments := segments st;
           current_index := current_index st;
           segment_index := segment_index st;
           collecting := collecting st;
           segment_start_index :=
             if current_index st <? total_lines
             then current_index st + 1 else current_index st;
           current_boundary := current_boundary st |}
  else Ok (finish_turn crash_data st).

(** [while current_index < total_lines: ...], at most [fuel] turns. *)
Fixpoint scan_loop (crash_data : list string)
    (segment_boundaries : list (string * string)) (eof_marker : string)
    (fuel : nat) (st : scan) : outcome (list (list string)) :=
  if current_index st <? len crash_data then
    match fuel with
    | O => OutOfFuel
    | S fuel' =>
        r ← loop_body crash_data segment_boundaries eof_marker st;
        match r with
        | Continue st' =>
            scan_loop crash_data segment_boundaries eof_marker fuel' st'
        | Break st' => Ok (segments st')
        end
    end
  else Ok (segments st).

Definition initial_scan (first_boundary : string) : scan :=
  {| segments := [];
     current_index := 0;
     segment_index := 0;
     collecting := false;
     segment_start_index := 0;
     current_boundary := first_boundary |}.

(** A line is looked at once while collecting and once more after it closed
    a segment, hence the bound of two turns per line. *)
Definition extract_segments (crash_data : list string)
    (segment_boundaries : list (string * string)) (eof_marker : string)
    : outcome (list (list string)) :=
  first ← index segment_boundaries 0;
  scan_loop crash_data segment_boundaries eof_marker
    (2 * length crash_data) (initial_scan (fst first)).

(** *** [find_segments] *)

(** [xse_acronym.upper()] is applied by the caller of this table. *)
Definition segment_boundaries (xse_upper : string) : list (string * string) :=
  [ (String (ascii_of_nat 9) "[Compatibility]", "SYSTEM SPECS:");
    ("SYSTEM SPECS:", "PROBABLE CALL STACK:");
    ("PROBABLE CALL STACK:", "MODULES:");
    ("MODULES:", xse_upper +:+ " PLUGINS:");
    (xse_upper +:+ " PLUGINS:", "PLUGINS:");
    ("PLUGINS:", "EOF") ].

(** [str.upper] of the extender acronym; the acronyms of the supported games
    are ASCII. *)
Definition upper (s : string) : string := map_string upper_char s.

Definition find_segments (crash_data : list string)
    (crashgen_name xse_acronym game_root_name : string)
    : outcome (string * string * string * list (list string)) :=
  let bounds := segment_boundaries (upper xse_acronym) in
  let '(game_version, crashgen_version, main_error) :=
    parse_crash_header crash_data crashgen_name game_root_name in
  segments ← extract_segments crash_data bounds "EOF";
  let processed_segments := map (map strip) segments in
  let missing_segments_count := len bounds - len processed_segments in
  let processed_segments :=
    if 0 <? missing_segments_count
    then processed_segments ++ replicate (Z.to_nat missing_segments_count) []
    else processed_segments in
  Ok (game_version, crashgen_version, main_error, processed_segments).

End Parser.

(** ** The shared report buffer *)

Module Report.

(** What is handed to [append_or_extend]: one string, or a tuple of them. *)
Inductive value := Str (s : string) | Tuple (l : list string).

(** Modelled from the spec: [ClassicLib.Util.append_or_extend] is not among
    the sources.  The spec has every analyzer append its lines to one shared
    report buffer; a string is appended, the items of a tuple are appended in
    order.  The buffer is a Python list mutated in place, here threaded
    through the calls. *)
Definition append_or_extend (v : value) (destination : list string) : list string :=
  match v with
  | Str s => destination ++ [s]
  | Tuple l => destination ++ l
  end.

Definition NL : string := String (ascii_of_nat 10) EmptyString.

End Report.

(** ** SuspectScanner.py *)

Module SuspectScanner.
Import Py Report.

(** The [match_status] dictionary of [suspect_scan_stack]. *)
Record match_status := {
  has_required_item : bool;
  error_req_found : bool;
  error_opt_found : bool;
  stack_found : bool }.

Definition initial_status : match_status :=
  {| has_required_item := false;
     error_req_found := false;
     error_opt_found := false;
     stack_found := false |}.

Definition is_digit (c : ascii) : bool :=
  let n := nat_of_ascii c in ((48 <=? n) && (n <=? 57))%nat.

Fixpoint all_digits (s : string) : bool :=
  match s with
  | EmptyString => true
  | String c s' => is_digit c && all_digits s'
  end.

(** [s.isdecimal()], for code points below 256: non-empty, digits only. *)
Definition isdecimal (s : string) : bool :=
  match s with
  | EmptyString => false
  | _ => all_digits s
  end.

(** [int(s)] for an [s] with [isdecimal s]. *)
Fixpoint int_acc (acc : nat) (s : string) : nat :=
  match s with
  | EmptyString => acc
  | String c s' => int_acc (10 * acc + (nat_of_ascii c - 48))%nat s'
  end.

Definition int (s : string) : nat := int_acc 0 s.

(** [s.split(sep, 1)] for a non-empty [sep]: the parts around the first
    occurrence of [sep], [None] when there is none. *)
Fixpoint split1 (sep s : string) : option (string * string) :=
  if String.prefix sep s
  then Some (EmptyString,
             String.substring (String.length sep)
               (String.length s - String.length sep) s)
  else match s with
       | EmptyString => None
       | String c s' =>
           match split1 sep s' with
           | Some (a, b) => Some (String c a, b)
           | None => None
           end
       end.

(** [_process_signal]: the flag says that a NOT condition is met, the
    record is the updated [match_status]. *)
Definition _process_signal (signal crashlog_mainerror segment_callstack_intact : string)
    (ms : match_status) : bool * match_status :=
  match split_once "|" signal with
  | None =>
      (false,
       if contains signal segment_callstack_intact
       then {| has_required_item := has_required_item ms;
               error_req_found := error_req_found ms;
               error_opt_found := error_opt_found ms;
               stack_found := true |}
       else ms)
  | Some (signal_modifier, signal_string) =>
      if String.eqb signal_modifier "ME-REQ" then
        (false,
         {| has_required_item := true;
            error_req_found :=
              if contains signal_string crashlog_mainerror
              then true else error_req_found ms;
            error_opt_found := error_opt_found ms;
            stack_found := stack_found ms |})
      else if String.eqb signal_modifier "ME-OPT" then
        (false,
         if contains signal_string crashlog_mainerror
         then {| has_required_item := has_required_item ms;
                 error_req_found := error_req_found ms;
                 error_opt_found := true;
                 stack_found := stack_found ms |}
         else ms)
      else if String.eqb signal_modifier "NOT" then
        (contains signal_string segment_callstack_intact, ms)
      else if isdecimal signal_modifier then
        let min_occurrences := int signal_modifier in
        (false,
         if (min_occurrences <=? count segment_callstack_intact signal_string)%nat
         then {| has_required_item := has_required_item ms;
                 error_req_found := error_req_found ms;
                 error_opt_found := error_opt_found ms;
                 stack_found := true |}
         else ms)
      else (false, ms)
  end.

Definition _is_suspect_match (ms : match_status) : bool :=
  if has_required_item ms then error_req_found ms
  else error_opt_found ms || stack_found ms.

(** [s.ljust(width, ".")] *)
Definition ljust_dots (s : string) (width : Z) : string :=
  s +:+ String.concat EmptyString
          (replicate (Z.to_nat (width - Z.of_nat (String.length s))) ".").

Definition suspect_message (error_name error_severity : string)
    (max_warn_length : Z) : string :=
  "# Checking for " +:+ ljust_dots error_name max_warn_length +:+
  " SUSPECT FOUND! > Severity : " +:+ error_severity +:+ " # " +:+ NL +:+
  "-----" +:+ NL.

Definition _add_suspect_to_report (error_name error_severity : string)
    (max_warn_length : Z) (autoscan_report : list string) : list string :=
  append_or_extend (Str (suspect_message error_name error_severity max_warn_length))
    autoscan_report.

(** The inner [for signal in signal_list] with its [break]: the flag is
    [should_skip_error]. *)
Fixpoint process_signals (signal_list : list string)
    (crashlog_mainerror segment_callstack_intact : string)
    (ms : match_status) : bool * match_status :=
  match signal_list with
  | [] => (false, ms)
  | signal :: rest =>
      let '(stop, ms') :=
        _process_signal signal crashlog_mainerror segment_callstack_intact ms in
      if stop then (true, ms')
      else process_signals rest crashlog_mainerror segment_callstack_intact ms'
  end.

(** The outer loop of [suspect_scan_stack] over the items of
    [suspects_stack_list], with [any_suspect_found] and the report as its
    state.  Unpacking [error_key.split(" | ", 1)] into two names raises when
    the key has no separator. *)
Fixpoint scan_rules (suspects_stack_list : list (string * list string))
    (crashlog_mainerror segment_callstack_intact : string)
    (max_warn_length : Z) (any_suspect_found : bool)
    (autoscan_report : list string) : outcome (bool * list string) :=
  match suspects_stack_list with
  | [] => Ok (any_suspect_found, autoscan_report)
  | (error_key, signal_list) :: rest =>
      match split1 " | " error_key with
      | None => Raise ValueError
      | Some (error_severity, error_name) =>
          let '(should_skip_error, ms) :=
            process_signals signal_list crashlog_mainerror
              segment_callstack_intact initial_status in
          if should_skip_error then
            scan_rules rest crashlog_mainerror segment_callstack_intact
              max_warn_length any_suspect_found autoscan_report
          else if _is_suspect_match ms then
            scan_rules rest crashlog_mainerror segment_callstack_intact
              max_warn_length true
              (_add_suspect_to_report error_name error_severity
                 max_warn_length autoscan_report)
          else
            scan_rules rest crashlog_mainerror segment_callstack_intact
              max_warn_length any_suspect_found autoscan_report
      end
  end.

Definition suspect_scan_stack (suspects_stack_list : list (string * list string))
    (crashlog_mainerror segment_callstack_intact : string)
    (autoscan_report : list string) (max_warn_length : Z)
    : outcome (bool * list string) :=
  scan_rules suspects_stack_list crashlog_mainerror segment_callstack_intact
    max_warn_length false autoscan_report.


(** The loop of [suspect_scan_mainerror] over the items of
    [suspects_error_list], with [found_suspect] and the report as its state.
    The key is split only after the signal was found in the main error. *)
Fixpoint scan_errors (suspects_error_list : list (string * string))
    (crashlog_mainerror : string) (max_warn_length : Z)
    (found_suspect : bool) (autoscan_report : list string)
    : outcome (bool * list string) :=
  match suspects_error_list with
  | [] => Ok (found_suspect, autoscan_report)
  | (error_key, signal) :: rest =>
      if negb (contains signal crashlog_mainerror) then
        scan_errors rest crashlog_mainerror max_warn_length found_suspect
          autoscan_report
      else
        match split1 " | " error_key with
        | None => Raise ValueError
        | Some (error_severity, error_name) =>
            scan_errors rest crashlog_mainerror max_warn_length true
              (append_or_extend
                 (Str (suspect_message error_name error_severity max_warn_length))
                 autoscan_report)
        end
  end.

Definition suspect_scan_mainerror (suspects_error_list : list (string * string))
    (autoscan_report : list string) (crashlog_mainerror : string)
    (max_warn_length : Z) : outcome (bool * list string) :=
  scan_errors suspects_error_list crashlog_mainerror max_warn_length false
    autoscan_report.

Definition dll_notice : list string :=
  [ "* NOTICE : MAIN ERROR REPORTS THAT A DLL FILE WAS INVOLVED IN THIS CRASH! * " +:+ NL;
    "If that dll file belongs to a mod, that mod is a prime suspect for the crash. "
      +:+ NL +:+ "-----" +:+ NL ].

Definition check_dll_crash (crashlog_mainerror : string)
    (autoscan_report : list string) : list string :=
  let crashlog_mainerror_lower := lower crashlog_mainerror in
  if contains ".dll" crashlog_mainerror_lower
     && negb (contains "tbbmalloc" crashlog_mainerror_lower)
  then append_or_extend (Tuple dll_notice) autoscan_report
  else autoscan_report.
End SuspectScanner.

(** ** FormIDAnalyzer.py *)

Module FormIDAnalyzer.
Import Py Report.

Section Analyzer.

(** The attributes of the analyzer: the two flags, and the display name of
    the crash generator from [yamldata]. *)
Variable show_formid_values : bool.
Variable formid_db_exists : bool.
Variable crashgen_name : string.

(** The whitespace class of the pattern.  The [regex] module that defines it
    is not part of the sources, so the class is a parameter. *)
Variable regex_space : ascii -> bool.

(** [ClassicLib.ScanLog.Util.get_entry] is not among the sources either: the
    lookup of a description by the last six hex digits and the plugin. *)
Variable get_entry : string -> string -> option string.

(** *** The pattern [^\s*Form ID:\s*0x([0-9A-F]{8})] under IGNORECASE *)

Fixpoint skip_spaces (s : string) : string :=
  match s with
  | EmptyString => EmptyString
  | String c s' => if regex_space c then skip_spaces s' else s
  end.

(** A literal, letters compared without case; the rest of the text after it. *)
Fixpoint match_literal (lit s : string) : option string :=
  match lit, s with
  | EmptyString, _ => Some s
  | String a lit', String c s' =>
      if Ascii.eqb (lower_char a) (lower_char c)
      then match_literal lit' s' else None
  | String _ _, EmptyString => None
  end.

(** [[0-9A-F]] under IGNORECASE *)
Definition is_hex (c : ascii) : bool :=
  let n := nat_of_ascii c in
  ((48 <=? n) && (n <=? 57) || (65 <=? n) && (n <=? 70)
   || (97 <=? n) && (n <=? 102))%nat.

(** [n] characters of the class, as the group. *)
Fixpoint match_hex (n : nat) (s : string) : option string :=
  match n with
  | O => Some EmptyString
  | S n' =>
      match s with
      | String c s' =>
          if is_hex c
          then match match_hex n' s' with
               | Some g => Some (String c g)
               | None => None
               end
          else None
      | EmptyString => None
      end
  end.

(** [formid_pattern.search(line)]: the pattern is anchored at the start of
    the line, and neither run of spaces can give back a character that the
    literal after it would accept, so one pass decides the match.  The result
    is [match.group(1)]. *)
Definition formid_pattern_search (line : string) : option string :=
  rest ← match_literal "Form ID:" (skip_spaces line);
  rest' ← match_literal "0x" (skip_spaces rest);
  match_hex 8 rest'.

(** *** [extract_formids] *)

(** [str.upper] of the group, which holds hex digits only. *)
Definition upper (s : string) : string := map_string upper_char s.

Definition extract_step (formids_matches : list string) (line : string)
    : list string :=
  match formid_pattern_search line with
  | Some g =>
      let formid_id := upper g in
      if negb (startswith formid_id "FF")
      then formids_matches ++ ["Form ID: " +:+ formid_id]
      else formids_matches
  | None => formids_matches
  end.

Definition extract_formids (segment_callstack : list string) : list string :=
  match segment_callstack with
  | [] => []
  | _ => fold_left extract_step segment_callstack []
  end.

(** *** [formid_match] *)

(** [Counter(l)] as [dict(...)]: one key for each distinct element, in the
    order of first occurrence, with the number of occurrences. *)
Fixpoint counter_add (x : string) (c : list (string * nat)) : list (string * nat) :=
  match c with
  | [] => [(x, 1%nat)]
  | (y, n) :: c' =>
      if String.eqb x y then (y, S n) :: c' else (y, n) :: counter_add x c'
  end.

Definition Counter (l : list string) : list (string * nat) :=
  fold_left (fun c x => counter_add x c) l [].

(** [sorted(l)] on strings: ascending by code points. *)
Definition sorted (l : list string) : list string := merge_sort String.le l.

(** [s[:n]] and [s[n:]] on a string. *)
Definition str_take (n : nat) (s : string) : string := String.substring 0 n s.
Definition str_drop (n : nat) (s : string) : string :=
  String.substring n (String.length s - n) s.

Definition line_with_entry (formid_full plugin report : string) (count : nat) : string :=
  "- " +:+ formid_full +:+ " | [" +:+ plugin +:+ "] | " +:+ report +:+ " | " +:+
  str_of_nat count +:+ NL.

Definition line_without_entry (formid_full plugin : string) (count : nat) : string :=
  "- " +:+ formid_full +:+ " | [" +:+ plugin +:+ "] | " +:+ str_of_nat count +:+ NL.

(** The loop over [crashlog_plugins.items()] for one FormID (lines 89-100):
    [continue] goes on with the rest of the plugins, [break] returns. *)
Fixpoint match_plugins (formid_full formid_value : string) (count : nat)
    (crashlog_plugins : list (string * string))
    (autoscan_report : list string) : list string :=
  match crashlog_plugins with
  | [] => autoscan_report
  | (plugin, plugin_id) :: rest =>
      if negb (String.eqb plugin_id (str_take 2 formid_value)) then
        match_plugins formid_full formid_value count rest autoscan_report
      else
        let without :=
          append_or_extend (Str (line_without_entry formid_full plugin count))
            autoscan_report in
        if show_formid_values && formid_db_exists then
          match get_entry (str_drop 2 formid_value) plugin with
          | Some report =>
              if negb (String.eqb report "") then
                match_plugins formid_full formid_value count rest
                  (append_or_extend
                     (Str (line_with_entry formid_full plugin report count))
                     autoscan_report)
              else without
          | None => without
          end
        else without
  end.

(** One turn of the loop over [formids_found.items()] (lines 84-100). *)
Definition match_group (crashlog_plugins : list (string * string))
    (autoscan_report : list string) (group : string * nat) : list string :=
  let '(formid_full, count) := group in
  match SuspectScanner.split1 ": " formid_full with
  | None => autoscan_report
  | Some (_, formid_value) =>
      match_plugins formid_full formid_value count crashlog_plugins autoscan_report
  end.

Definition formid_footer : list string :=
  [ NL +:+ "[Last number counts how many times each Form ID shows up in the crash log.]" +:+ NL;
    "These Form IDs were caught by " +:+ crashgen_name +:+
      " and some of them might be related to this crash." +:+ NL;
    "You can try searching any listed Form IDs in xEdit and see if they lead to relevant records."
      +:+ NL +:+ NL ].

Definition formid_match (formids_matches : list string)
    (crashlog_plugins : list (string * string))
    (autoscan_report : list string) : list string :=
  match formids_matches with
  | [] =>
      append_or_extend
        (Str ("* COULDN'T FIND ANY FORM ID SUSPECTS *" +:+ NL +:+ NL))
        autoscan_report
  | _ =>
      let formids_found := Counter (sorted formids_matches) in
      append_or_extend (Tuple formid_footer)
        (fold_left (match_group crashlog_plugins) formids_found autoscan_report)
  end.

End Analyzer.
End FormIDAnalyzer.

(** ** SettingsScanner.py *)

Module SettingsScanner.
Import Py Report.

(** A value of the [crashgen] settings dictionary. *)
Inductive setting := VBool (b : bool) | VInt (z : Z) | VStr (s : string).

(** [setting_value is False]: identity with the singleton [False]. *)
Definition is_False (v : setting) : bool :=
  match v with
  | VBool false => true
  | _ => false
  end.

Definition disabled_notice (crashgen_name setting_name : string) : string :=
  "* NOTICE : " +:+ setting_name +:+ " is disabled in your " +:+ crashgen_name +:+
  " settings, is this intentional? * " +:+ NL +:+ "-----" +:+ NL.

(** One turn of the loop over [crashgen.items()]. *)
Definition disabled_step (crashgen_name : string) (crashgen_ignore : gset string)
    (autoscan_report : list string) (item : string * setting) : list string :=
  let '(setting_name, setting_value) := item in
  if is_False setting_value && bool_decide (setting_name ∉ crashgen_ignore)
  then append_or_extend (Str (disabled_notice crashgen_name setting_name))
         autoscan_report
  else autoscan_report.

(** [crashgen] is the dictionary as its items, in insertion order. *)
Definition check_disabled_settings (crashgen_name : string)
    (crashgen : list (string * setting)) (autoscan_report : list string)
    (crashgen_ignore : gset string) : list string :=
  match crashgen with
  | [] => autoscan_report
  | _ => fold_left (disabled_step crashgen_name crashgen_ignore) crashgen
           autoscan_report
  end.


(** *** The other checks of the settings *)

(** [crashgen.get(key)] on the items of the dictionary. *)
Fixpoint dict_get (key : string) (crashgen : list (string * setting))
    : option setting :=
  match crashgen with
  | [] => None
  | (k, v) :: rest => if String.eqb k key then Some v else dict_get key rest
  end.

(** The truth value of a setting in an [if]. *)
Definition truthy (v : setting) : bool :=
  match v with
  | VBool b => b
  | VInt z => negb (z =? 0)%Z
  | VStr s => negb (String.eqb s EmptyString)
  end.

(** The two marks of the messages lie above code point 255 and are held as
    their UTF-8 bytes. *)
Definition separator : string := NL +:+ "-----" +:+ NL.
Definition success_prefix : string := "✔️ ".
Definition warning_prefix : string := "# ❌ CAUTION : ".
Definition fix_prefix : string := " FIX: ".

Definition scan_buffout_achievements_setting (crashgen_name : string)
    (autoscan_report : list string) (xsemodules : gset string)
    (crashgen : list (string * setting)) : list string :=
  let crashgen_achievements := dict_get "Achievements" crashgen in
  if from_option truthy false crashgen_achievements
     && (bool_decide ("achievements.dll" ∈ xsemodules)
         || bool_decide ("unlimitedsurvivalmode.dll" ∈ xsemodules))
  then
    append_or_extend
      (Tuple
         [ "# ❌ CAUTION : The Achievements Mod and/or Unlimited Survival Mode is installed, but Achievements is set to TRUE # " +:+ NL;
           " FIX: Open " +:+ crashgen_name +:+
           "'s TOML file and change Achievements to FALSE, this prevents conflicts with "
           +:+ crashgen_name +:+ "." +:+ NL +:+ "-----" +:+ NL ])
      autoscan_report
  else
    append_or_extend
      (Str ("✔️ Achievements parameter is correctly configured in your " +:+
            crashgen_name +:+ " settings! " +:+ NL +:+ "-----" +:+ NL))
      autoscan_report.

(** The two local functions of [scan_buffout_memorymanagement_settings]. *)
Definition add_success_message (message : string)
    (autoscan_report : list string) : list string :=
  append_or_extend (Str (success_prefix +:+ message +:+ separator))
    autoscan_report.

Definition add_warning_message (warning fix_ : string)
    (autoscan_report : list string) : list string :=
  append_or_extend
    (Tuple [ warning_prefix +:+ warning +:+ " # " +:+ NL;
             fix_prefix +:+ fix_ +:+ separator ])
    autoscan_report.

Definition memory_settings : list (string * string) :=
  [ ("HavokMemorySystem", "Havok Memory System");
    ("BSTextureStreamerLocalHeap", "BSTextureStreamerLocalHeap");
    ("ScaleformAllocator", "Scaleform Allocator");
    ("SmallBlockAllocator", "Small Block Allocator") ].

(** One turn of the loop over [memory_settings.items()]. *)
Definition memory_step (crashgen_name : string)
    (crashgen : list (string * setting)) (autoscan_report : list string)
    (item : string * string) : list string :=
  let '(setting_key, display_name) := item in
  if from_option truthy false (dict_get setting_key crashgen) then
    add_warning_message
      ("X-Cell is installed, but " +:+ setting_key +:+ " parameter is set to TRUE")
      ("Open " +:+ crashgen_name +:+ "'s TOML file and change " +:+ setting_key
       +:+ " to FALSE, this prevents conflicts with X-Cell.")
      autoscan_report
  else
    add_success_message
      (display_name +:+
       " parameter is correctly configured for use with X-Cell in your " +:+
       crashgen_name +:+ " settings!")
      autoscan_report.

(** The first part of the method: the main MemoryManager setting. *)
Definition memory_manager_check (crashgen_name : string)
    (autoscan_report : list string) (crashgen : list (string * setting))
    (has_xcell has_baka_scrapheap : bool) : list string :=
  let mem_manager_enabled :=
    default (VBool false) (dict_get "MemoryManager" crashgen) in
  if truthy mem_manager_enabled then
    if has_xcell then
      add_warning_message
        "X-Cell is installed, but MemoryManager parameter is set to TRUE"
        ("Open " +:+ crashgen_name +:+
         "'s TOML file and change MemoryManager to FALSE, this prevents conflicts with X-Cell.")
        autoscan_report
    else if has_baka_scrapheap then
      add_warning_message
        ("The Baka ScrapHeap Mod is installed, but is redundant with " +:+
         crashgen_name)
        ("Uninstall the Baka ScrapHeap Mod, this prevents conflicts with " +:+
         crashgen_name +:+ ".")
        autoscan_report
    else
      add_success_message
        ("Memory Manager parameter is correctly configured in your " +:+
         crashgen_name +:+ " settings!")
        autoscan_report
  else if has_xcell then
    if has_baka_scrapheap then
      add_warning_message
        "The Baka ScrapHeap Mod is installed, but is redundant with X-Cell"
        "Uninstall the Baka ScrapHeap Mod, this prevents conflicts with X-Cell."
        autoscan_report
    else
      add_success_message
        ("Memory Manager parameter is correctly configured for use with X-Cell in your "
         +:+ crashgen_name +:+ " settings!")
        autoscan_report
  else if has_baka_scrapheap then
    add_warning_message
      ("The Baka ScrapHeap Mod is installed, but is redundant with " +:+
       crashgen_name)
      ("Uninstall the Baka ScrapHeap Mod and open " +:+ crashgen_name +:+
       "'s TOML file and change MemoryManager to TRUE, this improves performance.")
      autoscan_report
  else autoscan_report.

Definition scan_buffout_memorymanagement_settings (crashgen_name : string)
    (autoscan_report : list string) (crashgen : list (string * setting))
    (has_xcell has_baka_scrapheap : bool) : list string :=
  let autoscan_report :=
    memory_manager_check crashgen_name autoscan_report crashgen has_xcell
      has_baka_scrapheap in
  if has_xcell
  then fold_left (memory_step crashgen_name crashgen) memory_settings
         autoscan_report
  else autoscan_report.

Definition scan_archivelimit_setting (crashgen_name : string)
    (autoscan_report : list string) (crashgen : list (string * setting))
    : list string :=
  let crashgen_archivelimit := dict_get "ArchiveLimit" crashgen in
  if from_option truthy false crashgen_archivelimit then
    append_or_extend
      (Tuple
         [ "# ❌ CAUTION : ArchiveLimit is set to TRUE, this setting is known to cause instability. # " +:+ NL;
           " FIX: Open " +:+ crashgen_name +:+
           "'s TOML file and change ArchiveLimit to FALSE." +:+ NL +:+ "-----" +:+ NL ])
      autoscan_report
  else
    append_or_extend
      (Str ("✔️ ArchiveLimit parameter is correctly configured in your " +:+
            crashgen_name +:+ " settings! " +:+ NL +:+ "-----" +:+ NL))
      autoscan_report.

Definition scan_buffout_looksmenu_setting (crashgen_name : string)
    (crashgen : list (string * setting)) (autoscan_report : list string)
    (xsemodules : gset string) : list string :=
  match dict_get "F4EE" crashgen with
  | Some crashgen_f4ee =>
      if negb (truthy crashgen_f4ee) && bool_decide ("f4ee.dll" ∈ xsemodules)
      then
        append_or_extend
          (Tuple
             [ "# ❌ CAUTION : Looks Menu is installed, but F4EE parameter under [Compatibility] is set to FALSE # " +:+ NL;
               " FIX: Open " +:+ crashgen_name +:+
               "'s TOML file and change F4EE to TRUE, this prevents bugs and crashes from Looks Menu."
               +:+ NL +:+ "-----" +:+ NL ])
          autoscan_report
      else
        append_or_extend
          (Str ("✔️ F4EE (Looks Menu) parameter is correctly configured in your "
                +:+ crashgen_name +:+ " settings! " +:+ NL +:+ "-----" +:+ NL))
          autoscan_report
  | None => autoscan_report
  end.
End SettingsScanner.

(** ** FCXModeHandler.py *)

Module FCXModeHandler.

(** The class-level variables, shared by every instance and every thread. *)
Record cache := {
  _fcx_checks_run : bool;
  _main_files_result : string;
  _game_files_result : string }.

(** The attributes of one instance. *)
Record handler := {
  fcx_mode : bool;
  main_files_check : string;
  game_files_check : string }.

(** The message of the [else] branch.  Its first character lies above code
    point 255 and is held as its UTF-8 bytes; nothing below depends on the
    text. *)
Definition FCX_DISABLED : string :=
  "❌ FCX Mode is disabled, skipping game files check... " +:+ Report.NL +:+
  "-----" +:+ Report.NL.

(** [reset_fcx_checks]: the body runs with the lock held. *)
Definition reset_fcx_checks (c : cache) : cache :=
  {| _fcx_checks_run := false;
     _main_files_result := EmptyString;
     _game_files_result := EmptyString |}.

(** Where a thread stands in [check_fcx_mode]; each point is one statement
    of the method, named by what the thread does next. *)
Inductive pc :=
  | TestMode      (* if self.fcx_mode: *)
  | Acquire       (* with FCXModeHandler._fcx_lock: *)
  | TestRun       (* if not FCXModeHandler._fcx_checks_run: *)
  | RunMain       (* _main_files_result = main_combined_result() *)
  | RunGame       (* _game_files_result = game_combined_result() *)
  | SetRun        (* _fcx_checks_run = True *)
  | Release       (* the end of the with block *)
  | ReadMain      (* self.main_files_check = _main_files_result *)
  | ReadGame      (* self.game_files_check = _game_files_result *)
  | ElseMain      (* self.main_files_check = the disabled message *)
  | ElseGame      (* self.game_files_check = the empty string *)
  | Returned.

(** A caller: the instance it calls [check_fcx_mode] on, and where it is. *)
Record thread := { self : nat; at_pc : pc }.

(** The state of one batch.  [main_runs] and [game_runs] count the calls of
    [main_combined_result] and [game_combined_result]; they are not in the
    program. *)
Record world := {
  lock : option nat;
  cls : cache;
  handlers : list handler;
  threads : list thread;
  main_runs : nat;
  game_runs : nat }.

Definition move (t : nat) (th : thread) (p : pc) (w : world) : list thread :=
  <[t := {| self := self th; at_pc := p |}]> (threads w).

Definition set_main_check (h : nat) (hd : handler) (s : string) (w : world)
    : list handler :=
  <[h := {| fcx_mode := fcx_mode hd;
            main_files_check := s;
            game_files_check := game_files_check hd |}]> (handlers w).

Definition set_game_check (h : nat) (hd : handler) (s : string) (w : world)
    : list handler :=
  <[h := {| fcx_mode := fcx_mode hd;
            main_files_check := main_files_check hd;
            game_files_check := s |}]> (handlers w).

(** One statement of one thread.  The lock is an [RLock]; no thread asks for
    it while holding it, so it is taken only when free.  The two combined
    checks are not among the sources: each call may return any string. *)
Inductive step : world -> world -> Prop :=
  | step_mode_on t th hd w :
      threads w !! t = Some th -> at_pc th = TestMode ->
      handlers w !! self th = Some hd -> fcx_mode hd = true ->
      step w {| lock := lock w; cls := cls w; handlers := handlers w;
                threads := move t th Acquire w;
                main_runs := main_runs w; game_runs := game_runs w |}
  | step_mode_off t th hd w :
      threads w !! t = Some th -> at_pc th = TestMode ->
      handlers w !! self th = Some hd -> fcx_mode hd = false ->
      step w {| lock := lock w; cls := cls w; handlers := handlers w;
                threads := move t th ElseMain w;
                main_runs := main_runs w; game_runs := game_runs w |}
  | step_acquire t th w :
      threads w !! t = Some th -> at_pc th = Acquire ->
      lock w = None ->
      step w {| lock := Some t; cls := cls w; handlers := handlers w;
                threads := move t th TestRun w;
                main_runs := main_runs w; game_runs := game_runs w |}
  | step_test_fresh t th w :
      threads w !! t = Some th -> at_pc th = TestRun ->
      _fcx_checks_run (cls w) = false ->
      step w {| lock := lock w; cls := cls w; handlers := handlers w;
                threads := move t th RunMain w;
                main_runs := main_runs w; game_runs := game_runs w |}
  | step_test_cached t th w :
      threads w !! t = Some th -> at_pc th = TestRun ->
      _fcx_checks_run (cls w) = true ->
      step w {| lock := lock w; cls := cls w; handlers := handlers w;
                threads := move t th Release w;
                main_runs := main_runs w; game_runs := game_runs w |}
  | step_run_main t th result w :
      threads w !! t = Some th -> at_pc th = RunMain ->
      step w {| lock := lock w;
                cls := {| _fcx_checks_run := _fcx_checks_run (cls w);
                          _main_files_result := result;
                          _game_files_result := _game_files_result (cls w) |};
                handlers := handlers w;
                threads := move t th RunGame w;
                main_runs := S (main_runs w); game_runs := game_runs w |}
  | step_run_game t th result w :
      threads w !! t = Some th -> at_pc th = RunGame ->
      step w {| lock := lock w;
                cls := {| _fcx_checks_run := _fcx_checks_run (cls w);
                          _main_files_result := _main_files_result (cls w);
                          _game_files_result := result |};
                handlers := handlers w;
                threads := move t th SetRun w;
                main_runs := main_runs w; game_runs := S (game_runs w) |}
  | step_set_run t th w :
      threads w !! t = Some th -> at_pc th = SetRun ->
      step w {| lock := lock w;
                cls := {| _fcx_checks_run := true;
                          _main_files_result := _main_files_result (cls w);
                          _game_files_result := _game_files_result (cls w) |};
                handlers := handlers w;
                threads := move t th Release w;
                main_runs := main_runs w; game_runs := game_runs w |}
  | step_release t th w :
      threads w !! t = Some th -> at_pc th = Release ->
      step w {| lock := None; cls := cls w; handlers := handlers w;
                threads := move t th ReadMain w;
                main_runs := main_runs w; game_runs := game_runs w |}
  | step_read_main t th hd w :
      threads w !! t = Some th -> handlers w !! self th = Some hd ->
      at_pc th = ReadMain ->
      step w {| lock := lock w; cls := cls w;
                handlers := set_main_check (self th) hd (_main_files_result (cls w)) w;
                threads := move t th ReadGame w;
                main_runs := main_runs w; game_runs := game_runs w |}
  | step_read_game t th hd w :
      threads w !! t = Some th -> handlers w !! self th = Some hd ->
      at_pc th = ReadGame ->
      step w {| lock := lock w; cls := cls w;
                handlers := set_game_check (self th) hd (_game_files_result (cls w)) w;
                threads := move t th Returned w;
                main_runs := main_runs w; game_runs := game_runs w |}
  | step_else_main t th hd w :
      threads w !! t = Some th -> handlers w !! self th = Some hd ->
      at_pc th = ElseMain ->
      step w {| lock := lock w; cls := cls w;
                handlers := set_main_check (self th) hd FCX_DISABLED w;
                threads := move t th ElseGame w;
                main_runs := main_runs w; game_runs := game_runs w |}
  | step_else_game t th hd w :
      threads w !! t = Some th -> handlers w !! self th = Some hd ->
      at_pc th = ElseGame ->
      step w {| lock := lock w; cls := cls w;
                handlers := set_game_check (self th) hd EmptyString w;
                threads := move t th Returned w;
                main_runs := main_runs w; game_runs := game_runs w |}.

(** A batch starts right after [reset_fcx_checks]: the lock is free, every
    caller is about to enter [check_fcx_mode] on an existing instance. *)
Definition batch_start (previous : cache) (hs : list handler)
    (callers : list nat) : world :=
  {| lock := None;
     cls := reset_fcx_checks previous;
     handlers := hs;
     threads := map (fun h => {| self := h; at_pc := TestMode |}) callers;
     main_runs := 0;
     game_runs := 0 |}.

(** The states of a batch: any interleaving of the callers' statements. *)
Definition reachable (previous : cache) (hs : list handler)
    (callers : list nat) (w : world) : Prop :=
  rtc step (batch_start previous hs callers) w.

(** The statements a caller still has to run. *)
Definition remaining (p : pc) : nat :=
  match p with
  | TestMode => 9
  | Acquire => 8
  | TestRun => 7
  | RunMain => 6
  | RunGame => 5
  | SetRun => 4
  | Release => 3
  | ReadMain => 2
  | ReadGame => 1
  | ElseMain => 2
  | ElseGame => 1
  | Returned => 0
  end%nat.

Definition work_left (w : world) : nat :=
  sum_list (map (fun th => remaining (at_pc th)) (threads w)).

End FCXModeHandler.

(** ** CLASSIC_ScanLogs.py: writing and relocating reports *)

Module ScanLogs.
Import Py.

(** A [pathlib.Path]: the directory and the final component. *)
Record path := { parent : string; name : string }.

(** The regular files of the file system with their text, by directory and
    name.  Directories are not tracked: the only directory the code creates
    is made with [mkdir(parents=True, exist_ok=True)] before it is used. *)
Abbreviation files := (gmap (string * string) string).

Definition key (p : path) : string * string := (parent p, name p).

(** [name.rfind(".")], scanning from the left with the position [i]. *)
Fixpoint rfind_dot (s : string) (i : nat) (last : option nat) : option nat :=
  match s with
  | EmptyString => last
  | String c s' => rfind_dot s' (S i) (if Ascii.eqb c "." then Some i else last)
  end.

(** [Path.stem]: the name up to its last dot, when that dot is neither the
    first nor the last character. *)
Definition stem (p : path) : string :=
  match rfind_dot (name p) 0 None with
  | Some i =>
      if ((0 <? i) && (i <? String.length (name p) - 1))%nat
      then String.substring 0 i (name p)
      else name p
  | None => name p
  end.

Definition with_name (p : path) (n : string) : path :=
  {| parent := parent p; name := n |}.

(** [dir / name] *)
Definition join (dir n : string) : path := {| parent := dir; name := n |}.

(** [Path.exists] *)
Definition file_exists (fs : files) (p : path) : bool :=
  bool_decide (is_Some (fs !! key p)).

(** [Path.rename]: the source must exist; an existing target is replaced on
    POSIX systems and refused on Windows, which [replace_existing] tells. *)
Definition rename (replace_existing : bool) (fs : files) (src dst : path)
    : outcome files :=
  match fs !! key src with
  | None => Raise FileNotFoundError
  | Some text =>
      if file_exists fs dst && negb replace_existing
      then Raise FileExistsError
      else Ok (<[key dst := text]> (delete (key src) fs))
  end.

Definition autoscan_name (crashlog_file : path) : string :=
  stem crashlog_file +:+ "-AUTOSCAN.md".

(** [GlobalRegistry.get_local_dir() / "CLASSIC Backup/Unsolved Logs"] *)
Definition backup_dir (local_dir : string) : string :=
  local_dir +:+ "/CLASSIC Backup/Unsolved Logs".

Definition move_unsolved_logs (replace_existing : bool) (local_dir : string)
    (fs : files) (crashlog_file : path) : outcome files :=
  let backup_path := backup_dir local_dir in
  let autoscan_filepath := with_name crashlog_file (autoscan_name crashlog_file) in
  let backup_filepath := join backup_path (name autoscan_filepath) in
  if file_exists fs crashlog_file
  then rename replace_existing fs crashlog_file backup_filepath
  else rename replace_existing fs autoscan_filepath
         (join backup_path (name autoscan_filepath)).

(** [scanner_move_unsolved_logs] is the setting [Move Unsolved Logs] held
    by the scanner. *)
Definition write_report_to_file (replace_existing : bool) (local_dir : string)
    (fs : files) (crashlog_file : path) (autoscan_report : list string)
    (trigger_scan_failed scanner_move_unsolved_logs : bool) : outcome files :=
  let autoscan_path := with_name crashlog_file (autoscan_name crashlog_file) in
  let autoscan_output := String.concat EmptyString autoscan_report in
  let fs' := <[key autoscan_path := autoscan_output]> fs in
  if trigger_scan_failed && scanner_move_unsolved_logs
  then move_unsolved_logs replace_existing local_dir fs' crashlog_file
  else Ok fs'.


(** *** The loop of [crashlogs_scan] over the completed futures *)

(** The disk after [write_report_to_file], and the exception it ended
    with, if any: the report is written before the move is tried, and a
    [rename] that raises has changed nothing. *)
Definition write_report_effect (replace_existing : bool) (local_dir : string)
    (fs : files) (crashlog_file : path) (autoscan_report : list string)
    (trigger_scan_failed scanner_move_unsolved_logs : bool)
    : files * option exn :=
  match write_report_to_file replace_existing local_dir fs crashlog_file
          autoscan_report trigger_scan_failed scanner_move_unsolved_logs with
  | Ok fs' => (fs', None)
  | Raise e =>
      (<[key (with_name crashlog_file (autoscan_name crashlog_file)) :=
           String.concat EmptyString autoscan_report]> fs,
       Some e)
  | OutOfFuel => (fs, None)
  end.

(** What [process_crashlog] returns; the statistics are the items of the
    local counter. *)
Record scan_result := {
  crashlog_file : path;
  autoscan_report : list string;
  trigger_scan_failed : bool;
  local_stats : list (string * Z) }.

(** [future.result()]: the result, or the text of the exception raised in
    the worker.  [ScanOrchestrator] is not among the sources. *)
Definition future := (string + scan_result)%type.

(** The state that the loop changes: the disk, the statistics of the
    scanner and the list of failed scans. *)
Record scan_state := {
  disk : files;
  crashlog_stats : gmap string Z;
  scan_failed_list : list string }.

(** [stats[key] += value] on a [Counter], where a missing key counts 0. *)
Definition counter_incr (stats : gmap string Z) (item : string * Z)
    : gmap string Z :=
  <[item.1 := (default 0 (stats !! item.1) + item.2)%Z]> stats.

(** One turn of the loop over [as_completed(futures)], with its [try] and
    [except]; the progress display and the log are left out. *)
Definition collect_result (replace_existing : bool) (local_dir : string)
    (scanner_move_unsolved_logs : bool) (st : scan_state) (f : future)
    : scan_state :=
  match f with
  | inl _ =>
      {| disk := disk st;
         crashlog_stats := counter_incr (crashlog_stats st) ("failed", 1%Z);
         scan_failed_list := scan_failed_list st |}
  | inr r =>
      let stats := fold_left counter_incr (local_stats r) (crashlog_stats st) in
      match write_report_effect replace_existing local_dir (disk st)
              (crashlog_file r) (autoscan_report r) (trigger_scan_failed r)
              scanner_move_unsolved_logs with
      | (fs, None) =>
          {| disk := fs;
             crashlog_stats := stats;
             scan_failed_list :=
               if trigger_scan_failed r
               then scan_failed_list st ++ [name (crashlog_file r)]
               else scan_failed_list st |}
      | (fs, Some _) =>
          {| disk := fs;
             crashlog_stats := counter_incr stats ("failed", 1%Z);
             scan_failed_list := scan_failed_list st |}
      end
  end.

(** The loop, on the futures in the order of their completion. *)
Definition collect_results (replace_existing : bool) (local_dir : string)
    (scanner_move_unsolved_logs : bool) (st : scan_state)
    (completed : list future) : scan_state :=
  fold_left (collect_result replace_existing local_dir scanner_move_unsolved_logs)
    completed st.
End ScanLogs.

(** ** RecordScanner.py *)

Module RecordScanner.
Import Py Report.

Section Scanner.

(** The display name of the crash generator, and the elements of the two
    sets [lower_records] and [lower_ignore]; [any] and [all] over a set do
    not depend on the order of its elements. *)
Variable crashgen_name : string.
Variables lower_records lower_ignore : list string.

(** The condition of [_find_matching_records] on one line. *)
Definition is_record_line (line : string) : bool :=
  let lower_line := lower line in
  existsb (fun item => contains item lower_line) lower_records
  && forallb (fun record => negb (contains record lower_line)) lower_ignore.

(** One turn of the loop of [_find_matching_records]; the offset is a
    non-negative constant at both calls. *)
Definition find_step (rsp_marker : string) (rsp_offset : nat)
    (records_matches : list string) (line : string) : list string :=
  if is_record_line line then
    if contains rsp_marker line
    then records_matches ++ [strip (FormIDAnalyzer.str_drop rsp_offset line)]
    else records_matches ++ [strip line]
  else records_matches.

(** [records_matches] is the caller's list, appended to in place. *)
Definition _find_matching_records (segment_callstack records_matches : list string)
    (rsp_marker : string) (rsp_offset : nat) : list string :=
  fold_left (find_step rsp_marker rsp_offset) segment_callstack records_matches.

Definition record_line (record : string) (count : nat) : string :=
  "- " +:+ record +:+ " | " +:+ str_of_nat count +:+ NL.

Definition explanatory_notes : list string :=
  [ NL +:+ "[Last number counts how many times each Named Record shows up in the crash log.]" +:+ NL;
    "These records were caught by " +:+ crashgen_name +:+
      " and some of them might be related to this crash." +:+ NL;
    "Named records should give extra info on involved game objects, record types or mod files."
      +:+ NL +:+ NL ].

Definition _report_found_records (records_matches autoscan_report : list string)
    : list string :=
  let records_found :=
    FormIDAnalyzer.Counter (FormIDAnalyzer.sorted records_matches) in
  append_or_extend (Tuple explanatory_notes)
    (fold_left
       (fun report item =>
          append_or_extend (Str (record_line item.1 item.2)) report)
       records_found autoscan_report).

(** The result is [records_matches] and [autoscan_report] after the call. *)
Definition scan_named_records (segment_callstack records_matches
    autoscan_report : list string) : list string * list string :=
  let rsp_marker := "[RSP+" in
  let rsp_offset := 30%nat in
  let records_matches :=
    _find_matching_records segment_callstack records_matches rsp_marker
      rsp_offset in
  match records_matches with
  | [] =>
      (records_matches,
       append_or_extend
         (Str ("* COULDN'T FIND ANY NAMED RECORDS *" +:+ NL +:+ NL))
         autoscan_report)
  | _ => (records_matches, _report_found_records records_matches autoscan_report)
  end.

Definition extract_records (segment_callstack : list string) : list string :=
  let rsp_marker := "[RSP+" in
  let rsp_offset := 30%nat in
  _find_matching_records segment_callstack [] rsp_marker rsp_offset.

End Scanner.
End RecordScanner.

(** ** GPUDetector.py *)

Module GPUDetector.
Import Py.

Definition scan_log_gpu (segment_system : list string) : string * option string :=
  if existsb (fun elem => contains "GPU #1" elem && contains "AMD" elem)
       segment_system
  then ("AMD", Some "nvidia")
  else if existsb (fun elem => contains "GPU #1" elem && contains "Nvidia" elem)
            segment_system
  then ("Nvidia", Some "amd")
  else ("Unknown", None).

(** The dictionary [gpu_info], whose four keys are fixed. *)
Record gpu_info := {
  primary : string;
  secondary : option string;
  manufacturer : string;
  rival : option string }.

(** [line.split(":", 1)[1].strip()]; it is taken only of a line that holds
    a colon, and is the empty string here for a line without one. *)
Definition after_colon (line : string) : string :=
  match split_once ":" line with
  | Some (_, rest) => strip rest
  | None => EmptyString
  end.

(** One turn of the loop of [get_gpu_info]. *)
Definition gpu_step (info : gpu_info) (line : string) : gpu_info :=
  if contains "GPU #1" line then
    let info :=
      if contains "AMD" line then
        {| primary := "AMD"; secondary := secondary info;
           manufacturer := "AMD"; rival := Some "nvidia" |}
      else if contains "Nvidia" line then
        {| primary := "Nvidia"; secondary := secondary info;
           manufacturer := "Nvidia"; rival := Some "amd" |}
      else info in
    if contains ":" line
    then {| primary := after_colon line; secondary := secondary info;
            manufacturer := manufacturer info; rival := rival info |}
    else info
  else if contains "GPU #2" line && contains ":" line
  then {| primary := primary info; secondary := Some (after_colon line);
          manufacturer := manufacturer info; rival := rival info |}
  else info.

Definition get_gpu_info (segment_system : list string) : gpu_info :=
  fold_left gpu_step segment_system
    {| primary := "Unknown"; secondary := None;
       manufacturer := "Unknown"; rival := None |}.

End GPUDetector.

(** ** PluginAnalyzer.py *)

Module PluginAnalyzer.
Import Py Report.

Section Analyzer.

(** The white-space class of the [regex] module, which is not among the
    sources. *)
Variable regex_space : ascii -> bool.

(** [packaging.version.Version] is not among the sources either: a type
    with its three comparisons and the constant [Version("1.37.0")]. *)
Variable Version : Type.
Variables version_eq version_ge version_lt : Version -> Version -> bool.
Variable version_1_37_0 : Version.

(** The attributes of [yamldata] that the analyzer reads, and the elements
    of the set [lower_plugins_ignore]. *)
Variables game_version game_version_vr game_version_new : Version.
Variable crashgen_name : string.
Variable lower_plugins_ignore : list string.

(** *** The pattern [\s*\[(FE:([0-9A-F]{3})|[0-9A-F]{2})\]\s*(.+?(?:\.es[pml])+)]
    under IGNORECASE, matched at the start of the entry *)

(** A greedy [\s*] followed by [k]: the longest run of spaces is tried
    first, and a space is given back when what follows fails. *)
Fixpoint spaces_then {A} (k : string -> option A) (s : string) : option A :=
  match s with
  | EmptyString => k EmptyString
  | String c s' =>
      if regex_space c
      then match spaces_then k s' with
           | Some r => Some r
           | None => k s
           end
      else k s
  end.

(** [.] matches every character but the newline. *)
Definition is_dot (c : ascii) : bool := negb (Ascii.eqb c (ascii_of_nat 10)).

(** [\.es[pml]] on four characters. *)
Definition is_ext (a b c d : ascii) : bool :=
  Ascii.eqb a "." && Ascii.eqb (lower_char b) "e" && Ascii.eqb (lower_char c) "s"
  && (Ascii.eqb (lower_char d) "p" || Ascii.eqb (lower_char d) "m"
      || Ascii.eqb (lower_char d) "l").

(** The longest run of extensions at the start of [s], as the text it
    covers; nothing follows the group in the pattern, so the greedy
    repetition never gives an extension back. *)
Fixpoint ext_run (s : string) : string :=
  match s with
  | String a (String b (String c (String d rest))) =>
      if is_ext a b c d
      then String a (String b (String c (String d (ext_run rest))))
      else EmptyString
  | _ => EmptyString
  end.

(** [.+?(?:\.es[pml])+]: the lazy run takes one character, then one more
    each time no extension follows. *)
Fixpoint lazy_name (s : string) : option string :=
  match s with
  | EmptyString => None
  | String c s' =>
      if is_dot c then
        match ext_run s' with
        | EmptyString => String c <$> lazy_name s'
        | exts => Some (String c exts)
        end
      else None
  end.

(** [n] hex digits: the digits and the rest of the text. *)
Fixpoint take_hex (n : nat) (s : string) : option (string * string) :=
  match n with
  | O => Some (EmptyString, s)
  | S n' =>
      match s with
      | String c s' =>
          if FormIDAnalyzer.is_hex c
          then match take_hex n' s' with
               | Some (g, rest) => Some (String c g, rest)
               | None => None
               end
          else None
      | EmptyString => None
      end
  end.

(** What follows the group of the id: the bracket, spaces, the name. *)
Definition after_id (s : string) : option string :=
  rest ← FormIDAnalyzer.match_literal "]" s;
  spaces_then lazy_name rest.

(** The first alternative of the group, [FE:] and three hex digits, with
    the rest of the pattern; [group(1)] is the text as the entry has it. *)
Definition light_id (s : string) : option (option string * string) :=
  rest ← FormIDAnalyzer.match_literal "FE:" s;
  '(digits, rest') ← take_hex 3 rest;
  name ← after_id rest';
  Some (Some (FormIDAnalyzer.str_take 3 s +:+ digits), name).

(** The second alternative, two hex digits, tried when the first fails. *)
Definition full_id (s : string) : option (option string * string) :=
  '(digits, rest) ← take_hex 2 s;
  name ← after_id rest;
  Some (Some digits, name).

(** [pluginsearch.match(entry)]: [group(1)] and [group(3)]. *)
Definition pluginsearch_match (entry : string) : option (option string * string) :=
  spaces_then
    (fun s =>
       rest ← FormIDAnalyzer.match_literal "[" s;
       match light_id rest with
       | Some r => Some r
       | None => full_id rest
       end)
    entry.

(** *** [loadorder_scan_log] *)

(** The local variables of the loop. *)
Record scan_state := {
  plugin_map : list (string * string);
  plugin_limit_triggered : bool;
  limit_check_disabled : bool }.

Definition in_map (name : string) (m : list (string * string)) : bool :=
  existsb (fun item => String.eqb item.1 name) m.

Definition with_plugin (st : scan_state) (name status : string) : scan_state :=
  {| plugin_map := plugin_map st ++ [(name, status)];
     plugin_limit_triggered := plugin_limit_triggered st;
     limit_check_disabled := limit_check_disabled st |}.

(** One turn of the loop over [segment_plugins]. *)
Definition scan_entry (is_original_game is_new_game_crashgen_pre_137 : bool)
    (st : scan_state) (entry : string) : scan_state :=
  let plugin_status_dll := "DLL" in
  let plugin_status_unknown := "???" in
  let plugin_limit_marker := "[FF]" in
  let st :=
    if contains plugin_limit_marker entry then
      if is_original_game then
        {| plugin_map := plugin_map st;
           plugin_limit_triggered := true;
           limit_check_disabled := limit_check_disabled st |}
      else if is_new_game_crashgen_pre_137 then
        {| plugin_map := plugin_map st;
           plugin_limit_triggered := plugin_limit_triggered st;
           limit_check_disabled := true |}
      else st
    else st in
  match pluginsearch_match entry with
  | None => st
  | Some (plugin_id, plugin_name) =>
      if String.eqb plugin_name EmptyString || in_map plugin_name (plugin_map st)
      then st
      else match plugin_id with
           | Some plugin_id =>
               with_plugin st plugin_name (remove_char ":" plugin_id)
           | None =>
               if contains "dll" (lower plugin_name)
               then with_plugin st plugin_name plugin_status_dll
               else with_plugin st plugin_name plugin_status_unknown
           end
  end.

Definition loadorder_scan_log (segment_plugins : list string)
    (game_version_ version_current : Version)
    : list (string * string) * bool * bool :=
  match segment_plugins with
  | [] => ([], false, false)
  | _ =>
      let is_original_game :=
        version_eq game_version_ game_version
        || version_eq game_version_ game_version_vr in
      let is_new_game_crashgen_pre_137 :=
        version_ge game_version_ game_version_new
        && version_lt version_current version_1_37_0 in
      let st :=
        fold_left (scan_entry is_original_game is_new_game_crashgen_pre_137)
          segment_plugins
          {| plugin_map := []; plugin_limit_triggered := false;
             limit_check_disabled := false |} in
      (plugin_map st, plugin_limit_triggered st, limit_check_disabled st)
  end.

(** *** [loadorder_scan_loadorder_txt] *)

Definition loadorder_messages : list string :=
  [ "* ✔️ LOADORDER.TXT FILE FOUND IN THE MAIN CLASSIC FOLDER! *" +:+ NL;
    "CLASSIC will now ignore plugins in all crash logs and only detect plugins in this file."
      +:+ NL;
    "[ To disable this functionality, simply remove loadorder.txt from your CLASSIC folder. ]"
      +:+ NL +:+ NL ].

(** One turn of the loop over [loadorder_data[1:]]. *)
Definition loadorder_entry (loadorder_plugins : list (string * string))
    (plugin_entry : string) : list (string * string) :=
  let loadorder_origin := "LO" in
  let plugin_entry := strip plugin_entry in
  if negb (String.eqb plugin_entry EmptyString)
     && negb (in_map plugin_entry loadorder_plugins)
  then loadorder_plugins ++ [(plugin_entry, loadorder_origin)]
  else loadorder_plugins.

(** The file is what [readlines] returns, or the text of the [OSError]
    raised on opening or reading it.  The result is the dictionary, the
    flag, and the report after the call. *)
Definition loadorder_scan_loadorder_txt (loadorder_file : string + list string)
    (autoscan_report : list string)
    : list (string * string) * bool * list string :=
  let autoscan_report :=
    append_or_extend (Tuple loadorder_messages) autoscan_report in
  let '(loadorder_plugins, autoscan_report) :=
    match loadorder_file with
    | inr loadorder_data =>
        (if (1 <? length loadorder_data)%nat
         then fold_left loadorder_entry (drop 1 loadorder_data) []
         else [],
         autoscan_report)
    | inl e =>
        ([],
         append_or_extend (Str ("Error reading loadorder.txt: " +:+ e))
           autoscan_report)
    end in
  let plugins_loaded :=
    match loadorder_plugins with
    | [] => false
    | _ => true
    end in
  (loadorder_plugins, plugins_loaded, autoscan_report).

(** *** [plugin_match] *)

(** The inner loop: one plugin of the set on one line. *)
Definition match_step (line : string) (plugins_matches : list (string * nat))
    (plugin : string) : list (string * nat) :=
  if existsb (String.eqb plugin) lower_plugins_ignore then plugins_matches
  else if contains plugin line
  then FormIDAnalyzer.counter_add plugin plugins_matches
  else plugins_matches.

(** The key of the sort, [(-count, name)], as the order it gives. *)
Definition rank_leb (a b : string * nat) : bool :=
  (b.2 <? a.2)%nat || (a.2 =? b.2)%nat && String.leb a.1 b.1.

Definition rank_le (a b : string * nat) : Prop := rank_leb a b = true.

#[global] Instance rank_le_dec : RelDecision rank_le.
Proof. intros a b. unfold rank_le. apply _. Defined.

Definition plugin_line (item : string * nat) : string :=
  "- " +:+ item.1 +:+ " | " +:+ str_of_nat item.2 +:+ NL.

Definition plugin_notes : list string :=
  [ NL +:+ "[Last number counts how many times each Plugin Suspect shows up in the crash log.]" +:+ NL;
    "These Plugins were caught by " +:+ crashgen_name +:+
      " and some of them might be responsible for this crash." +:+ NL;
    "You can try disabling these plugins and check if the game still crashes, though this method can be unreliable."
      +:+ NL +:+ NL ].

(** [crashlog_plugins_lower] is the set as the list of its elements in the
    order of iteration. *)
Definition plugin_match (segment_callstack_lower crashlog_plugins_lower
    autoscan_report : list string) : list string :=
  let relevant_lines :=
    filter (fun line => contains "modified by:" line = false)
      segment_callstack_lower in
  let plugins_matches :=
    fold_left
      (fun plugins_matches line =>
         fold_left (match_step line) crashlog_plugins_lower plugins_matches)
      relevant_lines [] in
  match plugins_matches with
  | [] =>
      append_or_extend
        (Str ("* COULDN'T FIND ANY PLUGIN SUSPECTS *" +:+ NL +:+ NL))
        autoscan_report
  | _ =>
      let autoscan_report :=
        append_or_extend
          (Str ("The following PLUGINS were found in the CRASH STACK:" +:+ NL))
          autoscan_report in
      let autoscan_report :=
        fold_left
          (fun report item => append_or_extend (Str (plugin_line item)) report)
          (merge_sort rank_le plugins_matches) autoscan_report in
      append_or_extend (Tuple plugin_notes) autoscan_report
  end.

(** *** [filter_ignored_plugins] *)

(** The elements of the set [ignore_plugins_list], in the order of
    iteration. *)
Variable ignore_plugins_list : list string.

(** [d[key] = value] on the items of a dictionary: a key that is there
    keeps its place. *)
Fixpoint dict_set (key value : string) (d : list (string * string))
    : list (string * string) :=
  match d with
  | [] => [(key, value)]
  | (k, v) :: d' =>
      if String.eqb k key then (k, value) :: d' else (k, v) :: dict_set key value d'
  end.

(** [d.get(key)] *)
Fixpoint dict_lookup (key : string) (d : list (string * string)) : option string :=
  match d with
  | [] => None
  | (k, v) :: d' => if String.eqb k key then Some v else dict_lookup key d'
  end.

(** [del d[key]]; [None] is the [KeyError] of a key that is not there. *)
Fixpoint dict_del (key : string) (d : list (string * string))
    : option (list (string * string)) :=
  match d with
  | [] => None
  | (k, v) :: d' =>
      if String.eqb k key then Some d' else cons (k, v) <$> dict_del key d'
  end.

(** [{k.lower(): k for k in crashlog_plugins}] *)
Definition lower_keys (crashlog_plugins : list (string * string))
    : list (string * string) :=
  fold_left (fun d item => dict_set (lower item.1) item.1 d) crashlog_plugins [].

(** One turn of the loop over the set; the dictionary is [None] once a
    [del] has failed. *)
Definition ignore_step (crashlog_plugins_lower : list (string * string))
    (crashlog_plugins : option (list (string * string))) (signal : string)
    : option (list (string * string)) :=
  d ← crashlog_plugins;
  match dict_lookup signal crashlog_plugins_lower with
  | Some original_key => dict_del original_key d
  | None => Some d
  end.

Definition filter_ignored_plugins (crashlog_plugins : list (string * string))
    : option (list (string * string)) :=
  match ignore_plugins_list with
  | [] => Some crashlog_plugins
  | _ =>
      let crashlog_plugins_lower := lower_keys crashlog_plugins in
      fold_left (ignore_step crashlog_plugins_lower) ignore_plugins_list
        (Some crashlog_plugins)
  end.

End Analyzer.
End PluginAnalyzer.

(** ** Parser.py: the names of the modules *)

Module ModuleNames.
Import Py.

(** The group of the pattern [(.*?\.dll)\s*v?.*] under IGNORECASE, matched
    at the start of the text: the shortest run of characters other than the
    newline that ends in the extension.  What follows the group in the
    pattern matches the empty text, so it never makes the match fail. *)
Fixpoint dll_prefix (s : string) : option string :=
  match FormIDAnalyzer.match_literal ".dll" s with
  | Some _ => Some (FormIDAnalyzer.str_take 4 s)
  | None =>
      match s with
      | EmptyString => None
      | String c s' =>
          if PluginAnalyzer.is_dot c then String c <$> dll_prefix s' else None
      end
  end.

(** One turn of the loop: what is added to the result for [text]. *)
Definition module_name (text : string) : string :=
  let text := strip text in
  match dll_prefix text with
  | Some group => group
  | None => text
  end.

Definition extract_module_names (module_texts : gset string) : gset string :=
  if decide (module_texts = ∅) then ∅
  else set_map module_name module_texts.

End ModuleNames.

(** ** Notions used to state the properties *)

Module Notions.
Import Py Parser.

(** *** Header extraction *)

(** The last, and the first, line of the log that passes a test. *)
Definition last_match (p : string -> bool) (l : list string) : option string :=
  last (List.filter p l).

Definition first_match (p : string -> bool) (l : list string) : option string :=
  head (List.filter p l).

Definition starts_game (game_root_name line : string) : bool :=
  negb (String.eqb game_root_name "") && startswith line game_root_name.

Definition starts_crashgen (crashgen_name line : string) : bool :=
  startswith line crashgen_name.

Definition starts_error (line : string) : bool :=
  startswith line "Unhandled exception".

(** A log with two lines that start with the main-error marker. *)
Definition two_errors : list string :=
  [ "Fallout 4 v1.10.163";
    "Unhandled exception at 0x1 | first";
    "Unhandled exception at 0x2 | second" ].

(** *** Suspect rules *)

(** A signal other than the numeric one of the rule that matches nothing:
    a plain or NOT string that is not in the call stack, an ME-REQ or ME-OPT
    string that is not in the main error, and no further numeric signal. *)
Definition unmatched (crashlog_mainerror segment_callstack_intact signal : string)
    : bool :=
  match split_once "|" signal with
  | None => negb (contains signal segment_callstack_intact)
  | Some (signal_modifier, signal_string) =>
      if String.eqb signal_modifier "ME-REQ"
      then negb (contains signal_string crashlog_mainerror)
      else if String.eqb signal_modifier "ME-OPT"
      then negb (contains signal_string crashlog_mainerror)
      else if String.eqb signal_modifier "NOT"
      then negb (contains signal_string segment_callstack_intact)
      else negb (SuspectScanner.isdecimal signal_modifier)
  end.

(** The signal is an ME-REQ signal. *)
Definition is_required (signal : string) : bool :=
  match split_once "|" signal with
  | Some (signal_modifier, _) => String.eqb signal_modifier "ME-REQ"
  | None => false
  end.

(** No main-error or call-stack match has been recorded. *)
Definition quiet (ms : SuspectScanner.match_status) : Prop :=
  SuspectScanner.error_req_found ms = false ∧
  SuspectScanner.error_opt_found ms = false ∧
  SuspectScanner.stack_found ms = false.

(** *** FormIDs *)

(** A lookup table with one entry, for the examples. *)
Definition sample_get_entry (formid plugin : string) : option string :=
  if String.eqb formid "01ABCD" && String.eqb plugin "A.esp"
  then Some "Pipe Pistol" else None.

(** Every character of the string passes the test. *)
Fixpoint all_chars (p : ascii -> bool) (s : string) : bool :=
  match s with
  | EmptyString => true
  | String c s' => p c && all_chars p s'
  end.

(** Equal up to the case of ASCII letters. *)
Definition same_nocase (a b : string) : Prop :=
  map_string lower_char a = map_string lower_char b.

(** The line carries the FormID value [h]: after leading white space it
    begins with the form-id label, then, after optional white space, the
    hexadecimal prefix and eight hex digits [h]. *)
Definition formid_line (regex_space : ascii -> bool) (line h : string) : Prop :=
  ∃ ws1 label ws2 ox rest,
    line = ws1 +:+ label +:+ ws2 +:+ ox +:+ h +:+ rest ∧
    all_chars regex_space ws1 = true ∧
    same_nocase label "Form ID:" ∧
    all_chars regex_space ws2 = true ∧
    same_nocase ox "0x" ∧
    String.length h = 8%nat ∧
    all_chars FormIDAnalyzer.is_hex h = true.

(** Lines of a call stack, some of them with a FormID. *)
Definition sample_callstack : list string :=
  [ "  Form ID: 0x0501abcd";
    "form id:0XfF001234 (x)";
    "[RSP+48] 0x0501ABCD (Form ID: 0x0501ABCD)";
    "Form ID: 0x0501ABCD";
    "Form ID: 0x1234567" ].

(** *** Settings *)

#[global] Instance setting_eq_dec : EqDecision SettingsScanner.setting.
Proof. solve_decision. Defined.

(** The item is a key set to the boolean [False] that is not to be ignored. *)
Definition flagged (crashgen_ignore : gset string)
    (item : string * SettingsScanner.setting) : Prop :=
  item.2 = SettingsScanner.VBool false ∧ item.1 ∉ crashgen_ignore.

#[global] Instance flagged_dec crashgen_ignore item :
  Decision (flagged crashgen_ignore item).
Proof. unfold flagged. apply _. Defined.

(** A settings dictionary with the falsy values of every type. *)
Definition sample_crashgen : list (string * SettingsScanner.setting) :=
  [ ("Achievements", SettingsScanner.VBool false);
    ("MaxStdIO", SettingsScanner.VInt 0);
    ("InputSwitch", SettingsScanner.VStr "");
    ("MemoryManager", SettingsScanner.VBool true);
    ("F4EE", SettingsScanner.VBool false);
    ("ArchiveLimit", SettingsScanner.VBool false) ].

(** *** Relocation *)

(** A crash log and a file system that holds it. *)
Definition sample_log : ScanLogs.path :=
  {| ScanLogs.parent := "Crash Logs";
     ScanLogs.name := "crash-2024-01-01-10-00-00.log" |}.

Definition sample_files : gmap (string * string) string :=
  {[ ScanLogs.key sample_log := "LOG TEXT" ]}.

(** *** The session validation cache *)

(** The statements between taking and giving back the lock. *)
Definition in_lock (p : FCXModeHandler.pc) : bool :=
  match p with
  | FCXModeHandler.TestRun | FCXModeHandler.RunMain | FCXModeHandler.RunGame
  | FCXModeHandler.SetRun | FCXModeHandler.Release => true
  | _ => false
  end.

(** What holds of a caller at each point of [check_fcx_mode]: whether it
    holds the lock, the mode of its instance, the state of the cache and of
    the two counters, and what it has stored in its instance so far. *)
Definition pc_ok (w : FCXModeHandler.world) (t : nat)
    (th : FCXModeHandler.thread) : Prop :=
  let c := FCXModeHandler.cls w in
  let run := FCXModeHandler._fcx_checks_run c in
  let runs := (FCXModeHandler.main_runs w, FCXModeHandler.game_runs w) in
  (in_lock (FCXModeHandler.at_pc th) = true ↔ FCXModeHandler.lock w = Some t) ∧
  ∃ hd, FCXModeHandler.handlers w !! FCXModeHandler.self th = Some hd ∧
    match FCXModeHandler.at_pc th with
    | FCXModeHandler.TestMode => True
    | FCXModeHandler.Acquire => FCXModeHandler.fcx_mode hd = true
    | FCXModeHandler.TestRun =>
        FCXModeHandler.fcx_mode hd = true ∧
        (run = false -> runs = (0, 0)%nat)
    | FCXModeHandler.RunMain =>
        FCXModeHandler.fcx_mode hd = true ∧ run = false ∧ runs = (0, 0)%nat
    | FCXModeHandler.RunGame =>
        FCXModeHandler.fcx_mode hd = true ∧ run = false ∧ runs = (1, 0)%nat
    | FCXModeHandler.SetRun =>
        FCXModeHandler.fcx_mode hd = true ∧ run = false ∧ runs = (1, 1)%nat
    | FCXModeHandler.Release | FCXModeHandler.ReadMain =>
        FCXModeHandler.fcx_mode hd = true ∧ run = true
    | FCXModeHandler.ReadGame =>
        FCXModeHandler.fcx_mode hd = true ∧ run = true ∧
        FCXModeHandler.main_files_check hd = FCXModeHandler._main_files_result c
    | FCXModeHandler.ElseMain | FCXModeHandler.ElseGame =>
        FCXModeHandler.fcx_mode hd = false
    | FCXModeHandler.Returned =>
        FCXModeHandler.fcx_mode hd = true ->
        run = true ∧
        FCXModeHandler.main_files_check hd = FCXModeHandler._main_files_result c ∧
        FCXModeHandler.game_files_check hd = FCXModeHandler._game_files_result c
    end.

(** What holds of every state of a batch. *)
Record fcx_inv (w : FCXModeHandler.world) : Prop := {
  fcx_threads : ∀ t th, FCXModeHandler.threads w !! t = Some th -> pc_ok w t th;
  fcx_run :
    FCXModeHandler._fcx_checks_run (FCXModeHandler.cls w) = true ->
    FCXModeHandler.main_runs w = 1%nat ∧ FCXModeHandler.game_runs w = 1%nat;
  fcx_idle :
    FCXModeHandler._fcx_checks_run (FCXModeHandler.cls w) = false ->
    FCXModeHandler.lock w = None ->
    FCXModeHandler.main_runs w = 0%nat ∧ FCXModeHandler.game_runs w = 0%nat;
  fcx_owner :
    ∀ t, FCXModeHandler.lock w = Some t ->
         is_Some (FCXModeHandler.threads w !! t) }.

(** One caller on one enabled instance, and the state after its call when
    the two combined checks return [MAIN OK] and [GAME OK]. *)
Definition sample_handler : FCXModeHandler.handler :=
  {| FCXModeHandler.fcx_mode := true;
     FCXModeHandler.main_files_check := EmptyString;
     FCXModeHandler.game_files_check := EmptyString |}.

Definition sample_previous : FCXModeHandler.cache :=
  {| FCXModeHandler._fcx_checks_run := true;
     FCXModeHandler._main_files_result := "OLD MAIN";
     FCXModeHandler._game_files_result := "OLD GAME" |}.

Definition sample_returned : FCXModeHandler.world :=
  {| FCXModeHandler.lock := None;
     FCXModeHandler.cls :=
       {| FCXModeHandler._fcx_checks_run := true;
          FCXModeHandler._main_files_result := "MAIN OK";
          FCXModeHandler._game_files_result := "GAME OK" |};
     FCXModeHandler.handlers :=
       [ {| FCXModeHandler.fcx_mode := true;
            FCXModeHandler.main_files_check := "MAIN OK";
            FCXModeHandler.game_files_check := "GAME OK" |} ];
     FCXModeHandler.threads :=
       [ {| FCXModeHandler.self := 0%nat;
            FCXModeHandler.at_pc := FCXModeHandler.Returned |} ];
     FCXModeHandler.main_runs := 1;
     FCXModeHandler.game_runs := 1 |}.

(** *** Segment extraction *)

(** The boundary table made of a chain of markers: every marker ends the
    segment that the marker before it starts, and the end-of-file marker
    ends the last one. *)
Definition chain_boundaries (markers : list string) (eof_marker : string)
    : list (string * string) :=
  zip markers (tail markers ++ [eof_marker]).

(** A log seen as the lines before the first marker line, then one block
    for each boundary pair: the marker line and the lines after it up to the
    next marker line. *)
Definition assemble (before : list string)
    (blocks : list (string * list string)) : list string :=
  before ++ concat (map (fun b => fst b :: snd b) blocks).

(** The blocks follow the chain of markers: every marker line starts with
    its marker, and within a block no line starts with the next marker, so
    the next marker line is the first line that ends the block. *)
Fixpoint well_ordered (markers : list string)
    (blocks : list (string * list string)) : Prop :=
  match markers, blocks with
  | [], [] => True
  | m :: markers', b :: blocks' =>
      startswith (fst b) m = true ∧
      match markers' with
      | [] => True
      | m' :: _ => Forall (fun line => startswith line m' = false) (snd b)
      end ∧
      well_ordered markers' blocks'
  | _, _ => False
  end.

(** What the scan collects from well-ordered blocks: a block closed by a
    marker line loses its last line, the last block is kept whole. *)
Fixpoint collected (blocks : list (string * list string)) : list (list string) :=
  match blocks with
  | [] => []
  | b :: blocks' =>
      match blocks' with
      | [] => [snd b]
      | _ => removelast (snd b) :: collected blocks'
      end
  end.

(** The markers of the table of [find_segments], in order. *)
Definition segment_markers (xse_upper : string) : list string :=
  map fst (segment_boundaries xse_upper).

(** A small log in the layout of the crash generator: two header lines, then
    the six sections, each closed by a blank line except the last. *)
Definition sample_before : list string :=
  [ "Fallout 4 v1.10.163"; "Unhandled exception at 0x7FF6 Fallout4.exe" ].

Definition sample_blocks : list (string * list string) :=
  [ (String (ascii_of_nat 9) "[Compatibility]", ["F4EE: true"; "Achievements: false"]);
    ("SYSTEM SPECS:", ["OS: Windows 10"; ""]);
    ("PROBABLE CALL STACK:", ["[0] 0x7FF6 Fallout4.exe+1"; ""]);
    ("MODULES:", ["f4se_1_10_163.dll"; ""]);
    ("F4SE PLUGINS:", ["Buffout4.dll v1.26.2"; ""]);
    ("PLUGINS:", ["[00] Fallout4.esm"; "[01] DLCRobot.esm"]) ].

(** The start marker of pair [k] is found on some line of the log. *)
Definition start_found (crash_data : list string)
    (bounds : list (string * string)) (k : nat) : Prop :=
  ∃ pair line, bounds !! k = Some pair ∧ line ∈ crash_data ∧
               startswith line (fst pair) = true.

(** The number of pairs whose start marker the scan has met. *)
Definition started (st : scan) : Z :=
  segment_index st + (if collecting st then 1 else 0).

(** What holds of the locals at the head of the [while] loop. *)
Record scan_inv (crash_data : list string) (bounds : list (string * string))
    (st : scan) : Prop := {
  inv_index : 0 <= current_index st;
  inv_segment : 0 <= segment_index st < len bounds;
  inv_boundary : ∃ pair, bounds !! Z.to_nat (segment_index st) = Some pair ∧
                         current_boundary st = pick pair (collecting st);
  inv_count : current_index st < len crash_data ->
              len (segments st) = segment_index st;
  inv_count_le : len (segments st) <= started st;
  inv_started : ∀ k : nat, Z.of_nat k < started st ->
                           start_found crash_data bounds k }.

(** The turns the loop can still take: two for every line left, and one to
    close the segment that is open. *)
Definition turns_left (crash_data : list string) (st : scan) : Z :=
  2 * (len crash_data - current_index st) + (if collecting st then 1 else 0).

(** The locals with [current_index] set to [i]. *)
Definition at_index (st : scan) (i : Z) : scan :=
  {| segments := segments st;
     current_index := i;
     segment_index := segment_index st;
     collecting := collecting st;
     segment_start_index := segment_start_index st;
     current_boundary := current_boundary st |}.

(** What one turn of the loop keeps, or what it leaves at [break]. *)
Definition body_post (crash_data : list string) (bounds : list (string * string))
    (st : scan) (r : outcome ctl) : Prop :=
  match r with
  | Ok (Continue st') =>
      scan_inv crash_data bounds st' ∧
      turns_left crash_data st' < turns_left crash_data st
  | Ok (Break st') =>
      len (segments st') <= len bounds ∧
      ∀ k : nat, Z.of_nat k < len (segments st') -> start_found crash_data bounds k
  | _ => False
  end.

(** With enough fuel the loop returns [r]. *)
Definition runs_to (crash_data : list string) (bounds : list (string * string))
    (eof_marker : string) (st : scan) (r : list (list string)) : Prop :=
  ∃ n, ∀ fuel, (n <= fuel)%nat ->
       scan_loop crash_data bounds eof_marker fuel st = Ok r.

End Notions.

(** ** Further notions *)

Module MoreNotions.
Import Py Report.

(** *** Suspect rules *)

(** A signal of a suspect rule read as a tagged value: what the text before
    the first bar selects, and the string it applies to. *)
Inductive signal_kind :=
  | Plain (s : string)
  | MainErrorRequired (s : string)
  | MainErrorOptional (s : string)
  | CallstackExclude (s : string)
  | MinCount (n : nat) (s : string)
  | Unused.

Definition decode_signal (signal : string) : signal_kind :=
  match split_once "|" signal with
  | None => Plain signal
  | Some (modifier, s) =>
      if String.eqb modifier "ME-REQ" then MainErrorRequired s
      else if String.eqb modifier "ME-OPT" then MainErrorOptional s
      else if String.eqb modifier "NOT" then CallstackExclude s
      else if SuspectScanner.isdecimal modifier
      then MinCount (SuspectScanner.int modifier) s
      else Unused
  end.

Definition excluded (callstack : string) (k : signal_kind) : bool :=
  match k with
  | CallstackExclude s => contains s callstack
  | _ => false
  end.

Definition requires (k : signal_kind) : bool :=
  match k with
  | MainErrorRequired _ => true
  | _ => false
  end.

Definition required_found (mainerror : string) (k : signal_kind) : bool :=
  match k with
  | MainErrorRequired s => contains s mainerror
  | _ => false
  end.

Definition optional_found (mainerror : string) (k : signal_kind) : bool :=
  match k with
  | MainErrorOptional s => contains s mainerror
  | _ => false
  end.

Definition stack_match (callstack : string) (k : signal_kind) : bool :=
  match k with
  | Plain s => contains s callstack
  | MinCount n s => (n <=? count callstack s)%nat
  | _ => false
  end.

(** The verdict on a rule, said of its signals as a whole: no exclusion is
    met; and, when the rule has a required main-error signal, one of those is
    met, else an optional main-error signal or a call-stack signal is met. *)
Definition rule_verdict (mainerror callstack : string)
    (signal_list : list string) : bool :=
  let ks := map decode_signal signal_list in
  negb (existsb (excluded callstack) ks) &&
  (if existsb requires ks
   then existsb (required_found mainerror) ks
   else existsb (optional_found mainerror) ks || existsb (stack_match callstack) ks).

(** The report lines of the main-error suspects whose signal is in the main
    error, in the order of the list. *)
Definition error_messages (mainerror : string) (max_warn_length : Z)
    (suspects_error_list : list (string * string)) : list string :=
  flat_map
    (fun rule =>
       if contains rule.2 mainerror
       then match SuspectScanner.split1 " | " rule.1 with
            | Some (severity, name) =>
                [SuspectScanner.suspect_message name severity max_warn_length]
            | None => []
            end
       else [])
    suspects_error_list.

End MoreNotions.

Module MoreFormID.
Import Py.

(** A hex digit as [str.upper] leaves it: a digit or a letter A to F. *)
Definition is_upper_hex (c : ascii) : bool :=
  let n := nat_of_ascii c in
  ((48 <=? n) && (n <=? 57) || (65 <=? n) && (n <=? 70))%nat.

(** A plugin status that the first two digits of a FormID can be equal to. *)
Definition hex_pair (plugin_id : string) : bool :=
  match plugin_id with
  | String a (String b EmptyString) => is_upper_hex a && is_upper_hex b
  | _ => false
  end.

(** A value as [extract_formids] writes it after the label. *)
Definition formid_value (h : string) : Prop :=
  String.length h = 8%nat ∧
  Notions.all_chars is_upper_hex h = true ∧
  startswith h "FF" = false.

End MoreFormID.

Module MoreFCX.
Import FCXModeHandler.

(** What holds of a caller whose instance has FCX mode off: it is at the
    test of the mode or in the [else] branch, and it has stored the fixed
    message and the empty string by the time it is past each assignment. *)
Definition quiet (th : thread) (hd : handler) : Prop :=
  match at_pc th with
  | TestMode | ElseMain => True
  | ElseGame => main_files_check hd = FCX_DISABLED
  | Returned =>
      main_files_check hd = FCX_DISABLED ∧ game_files_check hd = EmptyString
  | _ => False
  end.

Definition disabled_inv (w : world) : Prop :=
  ∀ t th hd,
    threads w !! t = Some th -> handlers w !! self th = Some hd ->
    fcx_mode hd = false -> quiet th hd.

(** A batch in which FCX mode is off for every caller. *)
Definition all_disabled (w : world) : Prop :=
  ∀ t th, threads w !! t = Some th ->
    ∃ hd, handlers w !! self th = Some hd ∧ fcx_mode hd = false.

(** Two callers on one enabled instance: the second holds the lock, the
    first waits for it. *)
Definition sample_locked : world :=
  {| lock := Some 1%nat;
     cls := reset_fcx_checks Notions.sample_previous;
     handlers := [Notions.sample_handler];
     threads := [ {| self := 0%nat; at_pc := Acquire |};
                  {| self := 0%nat; at_pc := TestRun |} ];
     main_runs := 0;
     game_runs := 0 |}.

(** One disabled instance with two callers, and a state of their batch:
    the first caller is at the test of the mode, the second has returned. *)
Definition sample_off : handler :=
  {| fcx_mode := false;
     main_files_check := "STALE";
     game_files_check := "STALE" |}.

Definition sample_off_state : world :=
  {| lock := None;
     cls := reset_fcx_checks Notions.sample_previous;
     handlers :=
       [ {| fcx_mode := false;
            main_files_check := FCX_DISABLED;
            game_files_check := EmptyString |} ];
     threads :=
       [ {| self := 0%nat; at_pc := TestMode |};
         {| self := 0%nat; at_pc := Returned |} ];
     main_runs := 0;
     game_runs := 0 |}.

End MoreFCX.

Module MoreSettings.
Import SettingsScanner.

(** The settings with every value replaced by its truth value. *)
Definition as_bool (crashgen : list (string * setting))
    : list (string * setting) :=
  map (fun item => (item.1, VBool (truthy item.2))) crashgen.

End MoreSettings.

Module MoreCounting.

(** The number of times [x] is in [l]. *)
Fixpoint occurrences (x : string) (l : list string) : nat :=
  match l with
  | [] => 0
  | y :: l' => (if String.eqb y x then 1 else 0) + occurrences x l'
  end.

(** Strictly ascending by code points. *)
Definition ascending (l : list string) : Prop :=
  StronglySorted (fun a b => String.le a b ∧ a ≠ b) l.

(** The count held for a key by the items of a dictionary. *)
Fixpoint count_of (k : string) (c : list (string * nat)) : nat :=
  match c with
  | [] => 0
  | (y, n) :: c' => if String.eqb k y then n else count_of k c'
  end.

End MoreCounting.

Module MoreGPU.
Import Py GPUDetector.

(** The manufacturer and the rival that [get_gpu_info] reports. *)
Definition maker (info : gpu_info) : string * option string :=
  (manufacturer info, rival info).

(** What one line does to the manufacturer and the rival. *)
Definition maker_step (p : string * option string) (line : string)
    : string * option string :=
  if contains "GPU #1" line then
    if contains "AMD" line then ("AMD", Some "nvidia")
    else if contains "Nvidia" line then ("Nvidia", Some "amd")
    else p
  else p.

(** The answer of [scan_log_gpu], with [p] where it says Unknown. *)
Definition scan_or (p : string * option string) (segment_system : list string)
    : string * option string :=
  if existsb (fun elem => contains "GPU #1" elem && contains "AMD" elem)
       segment_system
  then ("AMD", Some "nvidia")
  else if existsb (fun elem => contains "GPU #1" elem && contains "Nvidia" elem)
            segment_system
  then ("Nvidia", Some "amd")
  else p.

(** The lines about the first GPU. *)
Definition gpu1_lines (segment_system : list string) : list string :=
  filter (fun line => contains "GPU #1" line = true) segment_system.

Definition sample_system : list string :=
  [ "OS: Microsoft Windows 11"; "GPU #1: Nvidia AD104 [GeForce RTX 4070]";
    "GPU #2: Microsoft Basic Render Driver" ].

End MoreGPU.

Module MorePlugins.
Import Py.

(** A status that comes from the bracket of a plugin entry: two hex digits,
    or FE and three hex digits with the colon removed. *)
Definition bracket_status (status : string) : Prop :=
  Notions.all_chars FormIDAnalyzer.is_hex status = true ∧
  (String.length status = 2%nat ∨
   String.length status = 5%nat ∧
   Notions.same_nocase (FormIDAnalyzer.str_take 2 status) "FE").

(** A name as the pattern takes it: at least one character and an
    extension, on one line. *)
Definition plugin_file_name (name : string) : Prop :=
  (5 <= String.length name)%nat ∧
  Notions.all_chars PluginAnalyzer.is_dot name = true ∧
  ∃ stem a b c d,
    name = stem +:+ String a (String b (String c (String d EmptyString))) ∧
    PluginAnalyzer.is_ext a b c d = true.

(** The number of lines of the call stack, those with [modified by:] left
    out, that hold the plugin's name. *)
Definition mentions (plugin : string) (segment_callstack_lower : list string)
    : nat :=
  length
    (filter (fun line => contains plugin line = true)
       (filter (fun line => contains "modified by:" line = false)
          segment_callstack_lower)).

(** What the inner loop of [plugin_match] adds to the count of [k]. *)
Definition hit (lower_plugins_ignore : list string) (k line plugin : string)
    : nat :=
  if negb (existsb (String.eqb plugin) lower_plugins_ignore)
     && contains plugin line && String.eqb plugin k
  then 1 else 0.

(** Items of a counter: no key twice, no count of zero. *)
Definition well_counted (c : list (string * nat)) : Prop :=
  NoDup c.*1 ∧ Forall (fun item => (0 < item.2)%nat) c.

(** The plugin that an ignored name stands for: the last key of the
    dictionary that is the name in lower case. *)
Definition original_of (crashlog_plugins : list (string * string))
    (signal : string) : option string :=
  last (filter (fun k => lower k = signal) crashlog_plugins.*1).

(** The plugin is removed by [filter_ignored_plugins]. *)
Definition dropped (ignore_plugins_list : list string)
    (crashlog_plugins : list (string * string)) (k : string) : Prop :=
  lower k ∈ ignore_plugins_list ∧
  original_of crashlog_plugins (lower k) = Some k.

Definition sample_plugins : list (string * string) :=
  [ ("Armor.esp", "01"); ("armor.esp", "02"); ("Weapons.esp", "03") ].

Definition sample_stack : list string :=
  [ "[ 3] 0x7ff6 (weapons.esp) modified by: armor.esp";
    "[ 4] 0x7ff7 (armor.esp) -> weapons.esp"; "[ 5] 0x7ff8 armor.esp" ].

End MorePlugins.

Module MoreBatch.
Import Py ScanLogs.

(** The count that the items of a counter hold for a key. *)
Fixpoint stat_of (k : string) (items : list (string * Z)) : Z :=
  match items with
  | [] => 0
  | (k', v) :: rest => (if String.eqb k' k then v else 0) + stat_of k rest
  end%Z.

(** The results of the futures that returned one. *)
Definition returned (completed : list future) : list scan_result :=
  omap (fun f => match f with inr r => Some r | inl _ => None end) completed.

(** The number of futures that raised. *)
Definition raised (completed : list future) : nat :=
  sum_list (map (fun f => match f with inl _ => 1 | inr _ => 0 end)%nat
              completed).

(** The statistics of the workers, summed for a key. *)
Definition total (k : string) (completed : list future) : Z :=
  foldr (fun r acc => (stat_of k (local_stats r) + acc)%Z) 0%Z
    (returned completed).

(** The count of the scanner for a key. *)
Definition count_for (st : scan_state) (k : string) : Z :=
  default 0%Z (crashlog_stats st !! k).

End MoreBatch.

(** * Properties *)

(** ** Python lists *)

Section PyFacts.
Import Py.
Context {A : Type}.
Implicit Types (l : list A) (i : Z).

Lemma len_app l1 l2 : len (l1 ++ l2) = len l1 + len l2.
Proof. unfold len. rewrite length_app. lia. Qed.

Lemma len_nonneg l : 0 <= len l.
Proof. unfold len. lia. Qed.

Lemma index_in_range l i :
  0 <= i < len l -> ∃ x, index l i = Ok x ∧ l !! Z.to_nat i = Some x.
Proof.
  intros Hi. unfold index.
  destruct (Z.ltb_spec i 0) as [?|_]; [lia|].
  destruct (Z.leb_spec 0 i); [|lia].
  destruct (Z.ltb_spec i (len l)); [|lia]. simpl.
  destruct (lookup_lt_is_Some_2 l (Z.to_nat i)) as [x Hx].
  { unfold len in *. lia. }
  rewrite Hx. eauto.
Qed.

Lemma index_middle l1 x l2 : index (l1 ++ x :: l2) (len l1) = Ok x.
Proof.
  destruct (index_in_range (l1 ++ x :: l2) (len l1)) as (y & -> & Hy).
  { rewrite len_app. unfold len. simpl. lia. }
  unfold len in Hy. rewrite Nat2Z.id in Hy.
  rewrite list_lookup_middle in Hy by done. congruence.
Qed.

Lemma index_lookup l (k : nat) x : l !! k = Some x -> index l (Z.of_nat k) = Ok x.
Proof.
  intros Hk. destruct (index_in_range l (Z.of_nat k)) as (y & -> & Hy).
  { apply lookup_lt_Some in Hk. unfold len. lia. }
  rewrite Nat2Z.id in Hy. congruence.
Qed.

Lemma index_out_of_range l i : len l <= i -> index l i = Raise IndexError.
Proof.
  intros Hi. unfold index. pose proof (len_nonneg l).
  destruct (Z.ltb_spec i 0); [lia|].
  destruct (Z.ltb_spec i (len l)); [lia|].
  by rewrite andb_false_r.
Qed.

Lemma clamp_in_range n i : 0 <= i <= n -> clamp n i = Z.to_nat i.
Proof.
  intros Hi. unfold clamp. destruct (Z.ltb_spec i 0); [lia|]. f_equal. lia.
Qed.

Lemma slice_from_app l1 l2 : slice_from (l1 ++ l2) (len l1) = l2.
Proof.
  unfold slice_from. rewrite clamp_in_range.
  - unfold len. rewrite Nat2Z.id. by rewrite drop_app_length.
  - rewrite len_app. pose proof (len_nonneg l1). pose proof (len_nonneg l2). lia.
Qed.

Lemma slice_from_end l : slice_from l (len l) = [].
Proof.
  unfold slice_from. rewrite clamp_in_range by (pose proof (len_nonneg l); lia).
  unfold len. rewrite Nat2Z.id. apply drop_all.
Qed.

End PyFacts.

(** ** Strings *)

Section StringFacts.

Lemma append_cons c s t : String c s +:+ t = String c (s +:+ t).
Proof. reflexivity. Qed.

Lemma append_empty_l t : "" +:+ t = t.
Proof. reflexivity. Qed.

Lemma string_length_append (s1 s2 : string) :
  String.length (s1 +:+ s2) = (String.length s1 + String.length s2)%nat.
Proof.
  induction s1 as [|c s1 IH]; [done|].
  change (String c s1 +:+ s2) with (String c (s1 +:+ s2)). simpl. by rewrite IH.
Qed.

Lemma append_inj_r (t : string) : ∀ a b : string, a +:+ t = b +:+ t -> a = b.
Proof.
  induction a as [|c a IH]; intros [|d b] Heq; try done.
  - apply (f_equal String.length) in Heq.
    rewrite !string_length_append in Heq. simpl in Heq. lia.
  - apply (f_equal String.length) in Heq.
    rewrite !string_length_append in Heq. simpl in Heq. lia.
  - rewrite !append_cons in Heq. injection Heq as -> Heq. f_equal. by apply IH.
Qed.

End StringFacts.

(** ** Segment extraction: the loop and its invariant *)

Section SegmentFacts.
Import Py Parser Notions.
Variable crash_data : list string.
Variable bounds : list (string * string).
Variable eof_marker : string.

Lemma loop_body_inv st :
  scan_inv crash_data bounds st ->
  current_index st < len crash_data ->
  body_post crash_data bounds st (loop_body crash_data bounds eof_marker st).
Proof.
  intros [Hi Hs (pair & Hpair & Hb) Hc Hle Hst] Hlt.
  specialize (Hc Hlt).
  unfold loop_body.
  destruct (index_in_range crash_data (current_index st)) as (line & -> & Hline);
    [lia|]. simpl.
  assert (Hin : line ∈ crash_data) by (eapply list_elem_of_lookup_2; eauto).
  destruct (startswith line (current_boundary st)) eqn:Hsw; simpl.
  - destruct (collecting st) eqn:Hcol; simpl.
    + (* a segment is closed *)
      destruct (Z.eqb_spec (segment_index st + 1) (len bounds)) as [Hall|Hmore];
        simpl.
      * split.
        -- rewrite len_app. unfold len at 2. simpl. lia.
        -- intros k Hk. apply Hst. unfold started. rewrite Hcol.
           rewrite len_app in Hk. unfold len at 2 in Hk. simpl in Hk. lia.
      * unfold toggle. simpl. try rewrite Hcol. simpl.
        destruct (index_in_range bounds (segment_index st + 1))
          as (pair' & -> & Hpair'); [lia|]. simpl.
        split; [split|]; simpl; try lia.
        -- eauto.
        -- intros _. rewrite len_app. unfold len at 2. simpl. lia.
        -- unfold started. simpl. rewrite len_app. unfold len at 2. simpl. lia.
        -- intros k Hk. apply Hst. unfold started in *. simpl in Hk.
           rewrite Hcol. lia.
        -- unfold turns_left. simpl. rewrite Hcol. lia.
    + (* a segment is opened *)
      unfold toggle. simpl. try rewrite Hcol. simpl.
      destruct (index_in_range bounds (segment_index st))
        as (pair' & -> & Hpair'); [lia|]. simpl.
      assert (pair' = pair) as -> by congruence.
      assert (Hfound : start_found crash_data bounds (Z.to_nat (segment_index st))).
      { exists pair, line. rewrite Hb in Hsw. auto. }
      assert (Hall : ∀ k : nat, Z.of_nat k < segment_index st + 1 ->
                                start_found crash_data bounds k).
      { intros k Hk. destruct (decide (Z.of_nat k = segment_index st)) as [Hk'|Hk'].
        - rewrite <- Hk', Nat2Z.id in Hfound. done.
        - apply Hst. unfold started. rewrite Hcol. lia. }
      destruct (String.eqb (snd pair) eof_marker); simpl.
      * split.
        -- rewrite len_app. unfold len at 2. simpl. lia.
        -- intros k Hk. apply Hall.
           rewrite len_app in Hk. unfold len at 2 in Hk. simpl in Hk. lia.
      * unfold finish_turn. simpl.
        split; [split|]; simpl; try lia.
        -- eauto.
        -- destruct (Z.eqb_spec (current_index st) (len crash_data - 1)); [lia|].
           auto.
        -- unfold started. simpl.
           destruct (Z.eqb_spec (current_index st) (len crash_data - 1));
             [rewrite len_app; unfold len at 2; simpl|]; lia.
        -- unfold started. simpl. intros k Hk. apply Hall. lia.
        -- unfold turns_left. simpl. rewrite Hcol. lia.
  - unfold finish_turn. split; [split|]; simpl; try lia.
    + eauto.
    + destruct (collecting st); simpl; [|auto].
      destruct (Z.eqb_spec (current_index st) (len crash_data - 1)); [lia|]. auto.
    + unfold started in *. simpl. destruct (collecting st); simpl; [|lia].
      destruct (Z.eqb_spec (current_index st) (len crash_data - 1));
        [rewrite len_app; unfold len at 2; simpl|]; lia.
    + unfold started in *. simpl. auto.
    + unfold turns_left. simpl. lia.
Qed.

Lemma scan_loop_returns fuel : ∀ st,
  scan_inv crash_data bounds st ->
  turns_left crash_data st <= Z.of_nat fuel ->
  ∃ segs, scan_loop crash_data bounds eof_marker fuel st = Ok segs ∧
          len segs <= len bounds ∧
          ∀ k : nat, Z.of_nat k < len segs -> start_found crash_data bounds k.
Proof.
  induction fuel as [|fuel IH]; intros st Hinv Hfuel.
  - simpl. destruct (Z.ltb_spec (current_index st) (len crash_data)) as [Hlt|Hge].
    + unfold turns_left in Hfuel. destruct (collecting st); lia.
    + exists (segments st). destruct Hinv as [? ? ? ? Hle Hst]. split; [done|].
      split; [unfold started in Hle; destruct (collecting st); lia|].
      intros k Hk. apply Hst. lia.
  - simpl. destruct (Z.ltb_spec (current_index st) (len crash_data)) as [Hlt|Hge].
    + pose proof (loop_body_inv st Hinv Hlt) as Hpost.
      destruct (loop_body crash_data bounds eof_marker st) as [[st'|st']| |];
        simpl in *; try done.
      * destruct Hpost as [Hinv' Hless]. apply IH; [done|lia].
      * exists (segments st'). by destruct Hpost.
    + exists (segments st). destruct Hinv as [? ? ? ? Hle Hst]. split; [done|].
      split; [unfold started in Hle; destruct (collecting st); lia|].
      intros k Hk. apply Hst. lia.
Qed.

Lemma scan_loop_mono fuel : ∀ fuel' st r,
  scan_loop crash_data bounds eof_marker fuel st = Ok r ->
  (fuel <= fuel')%nat ->
  scan_loop crash_data bounds eof_marker fuel' st = Ok r.
Proof.
  induction fuel as [|fuel IH]; intros fuel' st r Hrun Hle.
  - simpl in Hrun. destruct fuel'; simpl;
      destruct (current_index st <? len crash_data); congruence.
  - destruct fuel' as [|fuel']; [lia|]. simpl in *.
    destruct (current_index st <? len crash_data); [|done].
    destruct (loop_body crash_data bounds eof_marker st) as [[st'|st']| |];
      simpl in *; try done.
    apply IH; [done|lia].
Qed.

Lemma initial_scan_inv first rest :
  bounds = first :: rest ->
  scan_inv crash_data bounds (initial_scan (fst first)).
Proof.
  intros Hb. split; simpl; try done.
  - rewrite Hb. unfold len. simpl. lia.
  - exists first. by rewrite Hb.
  - unfold started. simpl. intros k Hk. lia.
Qed.

Lemma extract_segments_returns :
  bounds ≠ [] ->
  ∃ segs, extract_segments crash_data bounds eof_marker = Ok segs ∧
          len segs <= len bounds ∧
          ∀ k : nat, Z.of_nat k < len segs -> start_found crash_data bounds k.
Proof.
  intros Hne. destruct bounds as [|first rest] eqn:Hb; [done|].
  unfold extract_segments. change (index (first :: rest) 0) with (Ok first).
  simpl. rewrite <- Hb. apply scan_loop_returns.
  - by eapply initial_scan_inv.
  - unfold turns_left, len. simpl. lia.
Qed.

Lemma runs_to_result st r :
  runs_to crash_data bounds eof_marker st r ->
  ∀ fuel r', scan_loop crash_data bounds eof_marker fuel st = Ok r' -> r' = r.
Proof.
  intros [n Hn] fuel r' Hrun.
  pose proof (scan_loop_mono _ (Nat.max n fuel) _ _ Hrun ltac:(lia)) as H1.
  rewrite Hn in H1 by lia. congruence.
Qed.

End SegmentFacts.

(** ** [find_segments] on any log *)

Section FindSegments.
Import Py Parser Notions.

(** Claim C8.  On every line sequence, the empty log and logs that lack
    boundary pairs included, [find_segments] returns (it neither raises nor
    runs out of turns), it returns exactly six segments, and the segment of
    every boundary pair whose start marker is on no line of the log is
    empty. *)
Theorem find_segments_never_raises
    (crash_data : list string) (crashgen_name xse_acronym game_root_name : string) :
  ∃ game_version crashgen_version main_error segs,
    find_segments crash_data crashgen_name xse_acronym game_root_name
      = Ok (game_version, crashgen_version, main_error, segs) ∧
    length segs = 6%nat ∧
    ∀ (k : nat) (pair : string * string),
      segment_boundaries (upper xse_acronym) !! k = Some pair ->
      (∀ line, line ∈ crash_data -> startswith line (fst pair) = false) ->
      segs !! k = Some [].
Proof.
  unfold find_segments.
  destruct (parse_crash_header crash_data crashgen_name game_root_name)
    as [[gv cv] me].
  set (bounds := segment_boundaries (upper xse_acronym)).
  destruct (extract_segments_returns crash_data bounds "EOF")
    as (raw & -> & Hlen & Hfound); [done|].
  simpl. do 4 eexists. split; [reflexivity|].
  assert (Hb : len bounds = 6) by reflexivity.
  assert (Hraw : (length raw <= 6)%nat) by (unfold len in *; lia).
  assert (Hmap : len (map (map strip) raw) = len raw)
    by (unfold len; by rewrite length_map).
  rewrite Hmap, Hb.
  split.
  - destruct (Z.ltb_spec 0 (6 - len raw)) as [Hmiss|Hfull].
    + rewrite length_app, length_map, length_replicate. unfold len in *. lia.
    + rewrite length_map. unfold len in *. lia.
  - intros k pair Hk Hnone.
    assert (Hk6 : (k < 6)%nat) by (apply lookup_lt_Some in Hk; done).
    assert (Hge : (length raw <= k)%nat).
    { destruct (decide (k < length raw)%nat) as [Hlt|]; [|lia].
      destruct (Hfound k) as (pair' & line & Hp & Hin & Hsw);
        [unfold len; lia|].
      assert (pair' = pair) as -> by congruence.
      rewrite Hnone in Hsw by done. done. }
    destruct (Z.ltb_spec 0 (6 - len raw)) as [Hmiss|Hfull];
      [|unfold len in *; lia].
    rewrite lookup_app_r by (rewrite length_map; lia).
    rewrite length_map. apply lookup_replicate_2. unfold len in *. lia.
Qed.
End FindSegments.

(** ** Segment extraction on a well-ordered log *)

Section RunsTo.
Import Py Parser Notions.
Variable crash_data : list string.
Variable bounds : list (string * string).
Variable eof_marker : string.

Lemma runs_to_exit st :
  len crash_data <= current_index st ->
  runs_to crash_data bounds eof_marker st (segments st).
Proof.
  intros Hge. exists 0%nat. intros fuel _.
  destruct fuel; simpl;
    destruct (Z.ltb_spec (current_index st) (len crash_data)); done || lia.
Qed.

Lemma runs_to_break st st' :
  current_index st < len crash_data ->
  loop_body crash_data bounds eof_marker st = Ok (Break st') ->
  runs_to crash_data bounds eof_marker st (segments st').
Proof.
  intros Hlt Hbody. exists 1%nat. intros fuel Hfuel.
  destruct fuel as [|fuel]; [lia|]. simpl.
  destruct (Z.ltb_spec (current_index st) (len crash_data)); [|lia].
  by rewrite Hbody.
Qed.

Lemma runs_to_continue st st' r :
  current_index st < len crash_data ->
  loop_body crash_data bounds eof_marker st = Ok (Continue st') ->
  runs_to crash_data bounds eof_marker st' r ->
  runs_to crash_data bounds eof_marker st r.
Proof.
  intros Hlt Hbody [n Hn]. exists (S n). intros fuel Hfuel.
  destruct fuel as [|fuel]; [lia|]. simpl.
  destruct (Z.ltb_spec (current_index st) (len crash_data)); [|lia].
  rewrite Hbody. simpl. apply Hn. lia.
Qed.

(** A line that does not start with the expected marker is passed. *)
Lemma body_skip st l1 line l2 :
  crash_data = l1 ++ line :: l2 ->
  current_index st = len l1 ->
  startswith line (current_boundary st) = false ->
  (collecting st = true -> l2 ≠ []) ->
  loop_body crash_data bounds eof_marker st
    = Ok (Continue (at_index st (len l1 + 1))).
Proof.
  intros Hdata Hidx Hsw Hlast. unfold loop_body.
  rewrite Hidx, Hdata, index_middle. simpl. rewrite Hsw.
  unfold finish_turn, at_index. rewrite Hidx.
  destruct (collecting st) eqn:Hcol; simpl; [|done].
  destruct (Z.eqb_spec (len l1) (len (l1 ++ line :: l2) - 1)) as [Heq|]; [|done].
  rewrite len_app in Heq. unfold len in Heq. simpl in Heq.
  destruct l2; [by destruct Hlast|simpl in Heq; lia].
Qed.

(** A marker line opens the segment of a pair whose end marker is not the
    end-of-file marker. *)
Lemma body_open st l1 line l2 pair :
  crash_data = l1 ++ line :: l2 ->
  current_index st = len l1 ->
  collecting st = false ->
  startswith line (current_boundary st) = true ->
  bounds !! Z.to_nat (segment_index st) = Some pair ->
  0 <= segment_index st ->
  snd pair ≠ eof_marker ->
  l2 ≠ [] ->
  loop_body crash_data bounds eof_marker st
    = Ok (Continue {| segments := segments st;
                      current_index := len l1 + 1;
                      segment_index := segment_index st;
                      collecting := true;
                      segment_start_index := len l1 + 1;
                      current_boundary := snd pair |}).
Proof.
  intros Hdata Hidx Hcol Hsw Hpair Hseg Heof Hl2. unfold loop_body.
  rewrite Hidx, Hdata, index_middle. simpl. rewrite Hsw, Hcol.
  unfold toggle. simpl.
  rewrite <- (Z2Nat.id (segment_index st)) at 1 by done.
  rewrite (index_lookup _ _ _ Hpair). simpl.
  destruct (String.eqb_spec (snd pair) eof_marker) as [|_]; [done|].
  unfold finish_turn. simpl.
  assert (Hlt : (len l1 <? len (l1 ++ line :: l2)) = true).
  { apply Z.ltb_lt. rewrite len_app. unfold len. simpl. lia. }
  rewrite Hlt.
  destruct (Z.eqb_spec (len l1) (len (l1 ++ line :: l2) - 1)) as [Heq|]; [|done].
  rewrite len_app in Heq. unfold len in Heq. simpl in Heq.
  destruct l2; [done|simpl in Heq; lia].
Qed.

(** The marker line of the pair that ends with the end-of-file marker takes
    all the lines after it, and the scan stops. *)
Lemma body_open_last st l1 line l2 pair :
  crash_data = l1 ++ line :: l2 ->
  current_index st = len l1 ->
  collecting st = false ->
  startswith line (current_boundary st) = true ->
  bounds !! Z.to_nat (segment_index st) = Some pair ->
  0 <= segment_index st ->
  snd pair = eof_marker ->
  ∃ st', loop_body crash_data bounds eof_marker st = Ok (Break st') ∧
         segments st' = segments st ++ [l2].
Proof.
  intros Hdata Hidx Hcol Hsw Hpair Hseg Heof.
  assert (Hlt : (len l1 <? len (l1 ++ line :: l2)) = true).
  { apply Z.ltb_lt. rewrite len_app. unfold len. simpl. lia. }
  assert (Hrest : slice_from (l1 ++ line :: l2) (len l1 + 1) = l2).
  { replace (l1 ++ line :: l2) with ((l1 ++ [line]) ++ l2)
      by (by rewrite <- app_assoc).
    replace (len l1 + 1) with (len (l1 ++ [line])) by (rewrite len_app; done).
    apply slice_from_app. }
  eexists. split.
  - unfold loop_body.
    rewrite Hidx, Hdata, index_middle. simpl. rewrite Hsw, Hcol.
    unfold toggle. simpl.
    rewrite <- (Z2Nat.id (segment_index st)) at 1 by done.
    rewrite (index_lookup _ _ _ Hpair). simpl.
    destruct (String.eqb_spec (snd pair) eof_marker) as [_|]; [|done].
    reflexivity.
  - simpl. rewrite Hlt, Hrest. done.
Qed.

(** A marker line closes the open segment: the lines from the start index
    up to, and without, the line before the marker line.  The same line is
    then looked at again as the start marker of the next pair. *)
Lemma body_close st l1 line l2 pair :
  crash_data = l1 ++ line :: l2 ->
  current_index st = len l1 ->
  0 < len l1 ->
  collecting st = true ->
  startswith line (current_boundary st) = true ->
  0 <= segment_index st ->
  segment_index st + 1 ≠ len bounds ->
  bounds !! Z.to_nat (segment_index st + 1) = Some pair ->
  loop_body crash_data bounds eof_marker st
    = Ok (Continue {| segments := segments st ++
                        [slice crash_data (segment_start_index st) (len l1 - 1)];
                      current_index := len l1;
                      segment_index := segment_index st + 1;
                      collecting := false;
                      segment_start_index := segment_start_index st;
                      current_boundary := fst pair |}).
Proof.
  intros Hdata Hidx Hpos Hcol Hsw Hseg Hmore Hpair. unfold loop_body.
  rewrite Hidx. rewrite Hdata at 1. rewrite index_middle. simpl.
  rewrite Hsw, Hcol. simpl.
  destruct (Z.eqb_spec (segment_index st + 1) (len bounds)) as [|_]; [done|].
  unfold toggle. simpl.
  rewrite <- (Z2Nat.id (segment_index st + 1)) at 1 by lia.
  rewrite (index_lookup _ _ _ Hpair). simpl.
  unfold finish_turn. simpl.
  destruct (Z.ltb_spec 0 (len l1)); [|lia].
  do 2 f_equal. f_equal. lia.
Qed.

(** A run of lines without the expected marker is passed. *)
Lemma runs_to_skip lines : ∀ l1 l2 st r,
  crash_data = l1 ++ lines ++ l2 ->
  current_index st = len l1 ->
  Forall (fun line => startswith line (current_boundary st) = false) lines ->
  (collecting st = true -> l2 ≠ []) ->
  runs_to crash_data bounds eof_marker (at_index st (len l1 + len lines)) r ->
  runs_to crash_data bounds eof_marker st r.
Proof.
  induction lines as [|line lines IH]; intros l1 l2 st r Hdata Hidx Hall Hlast Hrun.
  - replace (at_index st (len l1 + len [])) with st in Hrun; [done|].
    destruct st; unfold at_index; simpl in *. f_equal. unfold len in *. simpl. lia.
  - apply Forall_cons in Hall as [Hline Hrest].
    eapply runs_to_continue.
    + rewrite Hidx, Hdata, len_app. unfold len. simpl. lia.
    + apply (body_skip st l1 line (lines ++ l2)); [done..|].
      intros Hcol. destruct lines; simpl; [auto|done].
    + apply (IH (l1 ++ [line]) l2).
      * rewrite Hdata, <- app_assoc. done.
      * simpl. rewrite len_app. done.
      * done.
      * done.
      * replace (at_index (at_index st (len l1 + 1))
                   (len (l1 ++ [line]) + len lines))
          with (at_index st (len l1 + len (line :: lines))); [done|].
        unfold at_index. simpl. f_equal. rewrite len_app. unfold len. simpl. lia.
Qed.

End RunsTo.

(** ** Slices and the chained boundary table *)

Section SliceFacts.
Import Py.
Context {A : Type}.

Lemma slice_removelast (p body rest : list A) :
  0 < len p ->
  slice (p ++ body ++ rest) (len p) (len p + len body - 1) = removelast body.
Proof.
  intros Hp. unfold slice.
  pose proof (len_nonneg body). pose proof (len_nonneg rest).
  rewrite !clamp_in_range by (rewrite !len_app; lia).
  replace (Z.to_nat (len p + len body - 1) - Z.to_nat (len p))%nat
    with (pred (length body)) by (unfold len in *; lia).
  replace (Z.to_nat (len p)) with (length p) by (unfold len; lia).
  rewrite drop_app_length.
  rewrite removelast_firstn_len.
  rewrite take_app_le by lia. done.
Qed.
End SliceFacts.

Section ChainFacts.
Import Py Parser Notions.

Lemma chain_length markers eof_marker :
  length (chain_boundaries markers eof_marker) = length markers.
Proof.
  unfold chain_boundaries. rewrite length_zip_with, length_app.
  destruct markers as [|m markers]; [done|].
  cbn [tail length]. lia.
Qed.

Lemma chain_lookup markers eof_marker (k : nat) m :
  markers !! k = Some m ->
  chain_boundaries markers eof_marker !! k
    = Some (m, default eof_marker (markers !! S k)).
Proof.
  intros Hk. unfold chain_boundaries. rewrite lookup_zip_with, Hk. simpl.
  destruct (markers !! S k) as [m'|] eqn:Hk'; simpl.
  - rewrite lookup_app_l by (apply lookup_lt_Some with m'; by rewrite lookup_tail).
    by rewrite lookup_tail, Hk'.
  - apply lookup_ge_None in Hk'. apply lookup_lt_Some in Hk.
    destruct markers as [|m0 ms]; simpl in *; [lia|].
    rewrite lookup_app_r by lia.
    replace (k - length ms)%nat with 0%nat by lia. done.
Qed.

Lemma drop_cons_inv {A} (l : list A) k x l' :
  drop k l = x :: l' -> l !! k = Some x ∧ drop (S k) l = l'.
Proof.
  intros Hd. split.
  - rewrite <- (Nat.add_0_r k), <- lookup_drop, Hd. done.
  - replace (S k) with (k + 1)%nat by lia. rewrite <- drop_drop, Hd. done.
Qed.

End ChainFacts.

(** ** The scan of a chain of blocks *)

Section WellOrdered.
Import Py Parser Notions.
Variable crash_data : list string.
Variable markers : list string.
Variable eof_marker : string.

Let bounds := chain_boundaries markers eof_marker.

(** From the marker line of a block on, the scan collects what [collected]
    says of the blocks that are left. *)
Lemma runs_to_blocks blocks : ∀ (k : nat) rest prefix segs start,
  drop k markers = rest ->
  crash_data = prefix ++ assemble [] blocks ->
  well_ordered rest blocks ->
  blocks ≠ [] ->
  Forall (fun m => m ≠ eof_marker) (tail rest) ->
  runs_to crash_data bounds eof_marker
    {| segments := segs;
       current_index := len prefix;
       segment_index := Z.of_nat k;
       collecting := false;
       segment_start_index := start;
       current_boundary := default EmptyString (head rest) |}
    (segs ++ collected blocks).
Proof.
  induction blocks as [|b blocks IH];
    intros k rest prefix segs start Hdrop Hdata Hwo Hne Heof; [done|].
  destruct rest as [|m rest]; [done|].
  destruct Hwo as (Hsw & Hbody & Hwo).
  apply drop_cons_inv in Hdrop as [Hk Hdrop].
  pose proof (chain_lookup markers eof_marker k m Hk) as Hpair.
  unfold assemble in Hdata. simpl in Hdata.
  destruct rest as [|m' rest].
  - (* the last pair *)
    destruct blocks as [|b' blocks]; [|done].
    simpl in Hdata. rewrite app_nil_r in Hdata.
    assert (Hnone : markers !! S k = None).
    { rewrite <- (Nat.add_0_r (S k)), <- lookup_drop, Hdrop. done. }
    rewrite Hnone in Hpair. simpl in Hpair.
    match goal with |- runs_to _ _ _ ?s _ => set (st := s) end.
    edestruct (body_open_last crash_data bounds eof_marker st prefix (fst b)
                 (snd b) (m, eof_marker))
      as (st' & Hbody' & Hsegs);
      [exact Hdata|reflexivity|reflexivity|exact Hsw| | |reflexivity|].
    { simpl. rewrite Nat2Z.id. exact Hpair. }
    { simpl. lia. }
    simpl in Hsegs. simpl. rewrite <- Hsegs.
    eapply runs_to_break; [|exact Hbody'].
    simpl. rewrite Hdata, len_app. unfold len. simpl. lia.
  - (* a pair closed by the next marker line *)
    destruct blocks as [|b' blocks]; [done|].
    assert (Hnext : markers !! S k = Some m').
    { rewrite <- (Nat.add_0_r (S k)), <- lookup_drop, Hdrop. done. }
    rewrite Hnext in Hpair. simpl in Hpair.
    apply Forall_cons in Heof as [Hm' Heof].
    pose proof Hwo as (Hsw' & _ & _).
    simpl in Hdata.
    set (tl := snd b' ++ concat (map (fun b => fst b :: snd b) blocks)) in *.
    match goal with |- runs_to _ _ _ ?s _ => set (st := s) end.
    eapply runs_to_continue.
    { simpl. rewrite Hdata, len_app. unfold len. simpl. lia. }
    { eapply (body_open crash_data bounds eof_marker st prefix (fst b)
                (snd b ++ fst b' :: tl) (m, m'));
        [exact Hdata|reflexivity|reflexivity|exact Hsw| | |exact Hm'|].
      - simpl. rewrite Nat2Z.id. exact Hpair.
      - simpl. lia.
      - destruct (snd b); done. }
    eapply (runs_to_skip crash_data bounds eof_marker (snd b)
              (prefix ++ [fst b]) (fst b' :: tl)).
    { rewrite Hdata, <- app_assoc. done. }
    { simpl. rewrite len_app. done. }
    { exact Hbody. }
    { done. }
    unfold at_index. simpl.
    match goal with |- runs_to _ _ _ ?s _ => set (st1 := s) end.
    eapply runs_to_continue.
    { simpl. rewrite Hdata, !len_app. unfold len. simpl.
      rewrite length_app. simpl. lia. }
    { eapply (body_close crash_data bounds eof_marker st1
                (prefix ++ fst b :: snd b) (fst b') tl (m', _)).
      - rewrite Hdata, <- app_assoc. done.
      - simpl. rewrite !len_app. unfold len. simpl. lia.
      - rewrite len_app. unfold len. simpl. lia.
      - reflexivity.
      - exact Hsw'.
      - simpl. lia.
      - simpl. unfold bounds, len. rewrite chain_length.
        apply lookup_lt_Some in Hnext. lia.
      - simpl. replace (Z.to_nat (Z.of_nat k + 1)) with (S k) by lia.
        apply chain_lookup. exact Hnext. }
    simpl.
    replace (slice crash_data (len prefix + 1) (len (prefix ++ fst b :: snd b) - 1))
      with (removelast (snd b)).
    2:{ rewrite Hdata.
        replace (prefix ++ fst b :: snd b ++ fst b' :: tl)
          with ((prefix ++ [fst b]) ++ snd b ++ fst b' :: tl)
          by (by rewrite <- app_assoc).
        replace (len prefix + 1) with (len (prefix ++ [fst b]))
          by (rewrite len_app; done).
        replace (len (prefix ++ fst b :: snd b) - 1)
          with (len (prefix ++ [fst b]) + len (snd b) - 1)
          by (rewrite !len_app; unfold len; simpl; lia).
        rewrite slice_removelast; [done|].
        rewrite len_app. unfold len. simpl. lia. }
    replace (Z.of_nat k + 1) with (Z.of_nat (S k)) by lia.
    pose proof (IH (S k) (m' :: rest) (prefix ++ fst b :: snd b)
                  (segs ++ [removelast (snd b)]) (len prefix + 1)) as Hrun.
    rewrite <- (app_assoc segs) in Hrun. apply Hrun; try done.
    rewrite Hdata. unfold assemble. simpl. rewrite <- app_assoc. done.
Qed.

(** The scan of a whole well-ordered log. *)
Lemma runs_to_well_ordered before blocks first :
  crash_data = assemble before blocks ->
  markers !! 0%nat = Some first ->
  Forall (fun line => startswith line first = false) before ->
  well_ordered markers blocks ->
  Forall (fun m => m ≠ eof_marker) (tail markers) ->
  runs_to crash_data bounds eof_marker (initial_scan first) (collected blocks).
Proof.
  intros Hdata Hfirst Hbefore Hwo Heof.
  assert (Hne : blocks ≠ []).
  { destruct markers, blocks; done. }
  eapply (runs_to_skip crash_data bounds eof_marker before [] 
            (concat (map (fun b => fst b :: snd b) blocks))).
  - exact Hdata.
  - done.
  - exact Hbefore.
  - done.
  - unfold at_index. simpl.
    replace (len [] + len before) with (len before) by (unfold len; simpl; lia).
    pose proof (runs_to_blocks blocks 0 markers before [] 0) as Hrun.
    destruct markers as [|m ms]; [done|]. simpl in Hfirst.
    assert (m = first) as -> by congruence.
    apply Hrun; done.
Qed.

End WellOrdered.

(** ** [extract_segments] on the table of [find_segments] *)

Section SixSegments.
Import Py Parser Notions.

Lemma xse_plugins_not_eof (xse_upper : string) : xse_upper +:+ " PLUGINS:" ≠ "EOF".
Proof.
  intros Heq. apply (f_equal String.length) in Heq.
  rewrite string_length_append in Heq. simpl in Heq. lia.
Qed.

Lemma segment_boundaries_chain (xse_upper : string) :
  segment_boundaries xse_upper
    = chain_boundaries (segment_markers xse_upper) "EOF".
Proof. reflexivity. Qed.

Lemma well_ordered_length markers : ∀ blocks,
  well_ordered markers blocks -> length blocks = length markers.
Proof.
  induction markers as [|m markers IH]; intros [|b blocks] Hwo; try done.
  destruct Hwo as (_ & _ & Hwo). simpl. f_equal. by apply IH.
Qed.

Lemma collected_length blocks : length (collected blocks) = length blocks.
Proof.
  induction blocks as [|b blocks IH]; [done|].
  destruct blocks; [done|]. simpl in *. by rewrite IH.
Qed.

(** Claim C1, as amended.  On a log with a complete, well-ordered boundary
    sequence [extract_segments] returns exactly six segments.  A segment
    closed by a marker line holds the lines strictly between its start
    marker line and the line just before its end marker line: neither marker
    line is in it, and the last line before the end marker line is dropped.
    The sixth segment holds every line after its start marker line. *)
Theorem extract_segments_well_ordered (xse_upper : string)
    (before : list string) (blocks : list (string * list string)) :
  Forall (fun line => startswith line (String (ascii_of_nat 9) "[Compatibility]") = false)
    before ->
  well_ordered (segment_markers xse_upper) blocks ->
  extract_segments (assemble before blocks) (segment_boundaries xse_upper) "EOF"
    = Ok (collected blocks) ∧
  length (collected blocks) = 6%nat.
Proof.
  intros Hbefore Hwo. split.
  - destruct (extract_segments_returns (assemble before blocks)
                (segment_boundaries xse_upper) "EOF") as (segs & Hrun & _);
      [done|].
    rewrite Hrun. f_equal.
    unfold extract_segments in Hrun. simpl in Hrun.
    eapply runs_to_result; [|exact Hrun].
    rewrite segment_boundaries_chain.
    apply (runs_to_well_ordered _ _ _ before blocks); try done.
    simpl. repeat constructor; try done. apply xse_plugins_not_eof.
  - rewrite collected_length. by rewrite (well_ordered_length _ _ Hwo).
Qed.

Lemma extract_segments_well_ordered_witness :
  extract_segments (assemble sample_before sample_blocks)
    (segment_boundaries "F4SE") "EOF" = Ok (collected sample_blocks) ∧
  length (collected sample_blocks) = 6%nat.
Proof.
  apply (extract_segments_well_ordered "F4SE" sample_before sample_blocks).
  - repeat constructor.
  - vm_compute. repeat split; repeat constructor.
Defined.

(** Claim C1, as stated, fails: between the marker lines of the first pair
    the sample log has two lines, and the segment returned holds one. *)
Lemma extract_segments_drops_line_before_marker :
  Forall (fun line => startswith line (String (ascii_of_nat 9) "[Compatibility]") = false)
    sample_before ∧
  well_ordered (segment_markers "F4SE") sample_blocks ∧
  extract_segments (assemble sample_before sample_blocks)
    (segment_boundaries "F4SE") "EOF" ≠ Ok (map snd sample_blocks).
Proof.
  split; [repeat constructor|]. split.
  - vm_compute. repeat split; repeat constructor.
  - vm_compute. discriminate.
Qed.

End SixSegments.


(** ** Header extraction *)

Section HeaderFacts.
Import Py Parser Notions.
Variables crashgen_name game_root_name : string.

Lemma last_match_cons p line l :
  last_match p (line :: l)
    = match last_match p l with
      | Some y => Some y
      | None => if p line then Some line else None
      end.
Proof.
  unfold last_match. simpl. destruct (p line); [|by destruct (last _)].
  apply last_cons.
Qed.

(** Every local of the loop holds what the last line passing its test put
    there, or its initial value. *)
Lemma header_loop_last crash_data : ∀ h,
  header_loop crashgen_name game_root_name crash_data h =
  {| game_version :=
       default (game_version h)
         (strip <$> last_match (starts_game game_root_name) crash_data);
     crashgen_version :=
       default (crashgen_version h)
         (strip <$> last_match (starts_crashgen crashgen_name) crash_data);
     main_error :=
       default (main_error h)
         (replace_first "|" NEWLINE <$> last_match starts_error crash_data) |}.
Proof.
  unfold header_loop.
  induction crash_data as [|line crash_data IH]; intros h; [by destruct h|].
  simpl. rewrite IH, !last_match_cons. unfold header_step.
  fold (starts_game game_root_name line).
  fold (starts_crashgen crashgen_name line). fold (starts_error line).
  destruct (last_match (starts_game game_root_name) crash_data),
    (last_match (starts_crashgen crashgen_name) crash_data),
    (last_match starts_error crash_data),
    (starts_game game_root_name line), (starts_crashgen crashgen_name line),
    (starts_error line); reflexivity.
Qed.

Lemma last_match_passes p l line : last_match p l = Some line -> p line = true.
Proof.
  unfold last_match. intros Hl. apply last_Some in Hl as [l' Hl'].
  assert (Hin : In line (List.filter p l)) by (rewrite Hl'; apply in_elt).
  apply filter_In in Hin. tauto.
Qed.

Lemma replace_first_nonempty old new s : s ≠ "" -> replace_first old new s ≠ "".
Proof. destruct s as [|c s]; [done|]. intros _. simpl. by destruct (Ascii.eqb c old). Qed.

(** Claim C2, as amended.  All three fields of the header take the last
    line of the log that starts with their prefix: the game version (whose
    prefix is tried only when it is not empty) and the generator version as
    that line stripped of surrounding white space, the main error as that
    line with its first separator replaced by a newline.  A field with no
    matching line, or left empty by the stripping, is the sentinel
    UNKNOWN. *)
Theorem parse_crash_header_last_match (crash_data : list string) :
  parse_crash_header crash_data crashgen_name game_root_name =
  ( or_else (default UNKNOWN
               (strip <$> last_match (starts_game game_root_name) crash_data))
            UNKNOWN,
    or_else (default UNKNOWN
               (strip <$> last_match (starts_crashgen crashgen_name) crash_data))
            UNKNOWN,
    default UNKNOWN
      (replace_first "|" NEWLINE <$> last_match starts_error crash_data) ).
Proof.
  unfold parse_crash_header. rewrite header_loop_last. simpl.
  f_equal.
  destruct (last_match starts_error crash_data) as [line|] eqn:Hlast; [|done].
  simpl. apply last_match_passes in Hlast.
  assert (Hne : replace_first "|" NEWLINE line ≠ "").
  { apply replace_first_nonempty. intros ->. done. }
  by destruct (replace_first "|" NEWLINE line).
Qed.

(** Claim C2, as stated, fails for the main error: of two lines that start
    with the marker the field takes the second, not the first. *)
Lemma main_error_is_not_first_match :
  first_match starts_error two_errors = Some "Unhandled exception at 0x1 | first" ∧
  (parse_crash_header two_errors "Buffout 4" "Fallout 4").2
    ≠ replace_first "|" NEWLINE "Unhandled exception at 0x1 | first".
Proof. split; [reflexivity|]. vm_compute. discriminate. Qed.

End HeaderFacts.

(** ** Suspect rules *)

Section SuspectFacts.
Import Py Report SuspectScanner Notions.
Variables crashlog_mainerror segment_callstack_intact : string.
Variable max_warn_length : Z.

Local Abbreviation process := (fun signal =>
  _process_signal signal crashlog_mainerror segment_callstack_intact).

Lemma split_once_not s : split_once "|" ("NOT|" +:+ s) = Some ("NOT", s).
Proof. reflexivity. Qed.

Lemma process_signal_not s ms :
  process ("NOT|" +:+ s) ms = (contains s segment_callstack_intact, ms).
Proof. unfold _process_signal. by rewrite split_once_not. Qed.

(** A NOT signal whose string is in the call stack stops the rule, wherever
    it stands in the list. *)
Lemma process_signals_not s signal_list : ∀ ms,
  ("NOT|" +:+ s) ∈ signal_list ->
  contains s segment_callstack_intact = true ->
  (process_signals signal_list crashlog_mainerror segment_callstack_intact ms).1
    = true.
Proof.
  induction signal_list as [|signal rest IH]; intros ms Hin Hs.
  - by apply elem_of_nil in Hin.
  - simpl. destruct (process signal ms) as [stop ms'] eqn:Hp.
    destruct stop; [done|].
    apply elem_of_cons in Hin as [<-|Hin]; [|by apply IH].
    rewrite process_signal_not, Hs in Hp. done.
Qed.

(** Claim C5.  A rule with a signal NOT|s whose string [s] occurs in the
    call stack is disqualified, whatever its other signals, before or after
    the NOT signal, do: the scan gives the flag and the report it gives
    without the rule, unless it raises on a malformed key and reports
    nothing at all. *)
Theorem not_signal_disqualifies (before after : list (string * list string))
    (error_key s : string) (signal_list autoscan_report : list string) :
  ("NOT|" +:+ s) ∈ signal_list ->
  contains s segment_callstack_intact = true ->
  suspect_scan_stack (before ++ (error_key, signal_list) :: after)
    crashlog_mainerror segment_callstack_intact autoscan_report max_warn_length
  = suspect_scan_stack (before ++ after) crashlog_mainerror
      segment_callstack_intact autoscan_report max_warn_length
  ∨ suspect_scan_stack (before ++ (error_key, signal_list) :: after)
      crashlog_mainerror segment_callstack_intact autoscan_report max_warn_length
    = Raise ValueError.
Proof.
  intros Hin Hs. unfold suspect_scan_stack.
  generalize false as found. revert autoscan_report.
  induction before as [|[key sigs] before IH]; intros report found; simpl.
  - destruct (split1 " | " error_key) as [[sev name]|]; [|by right].
    pose proof (process_signals_not s signal_list initial_status Hin Hs) as Hskip.
    destruct (process_signals signal_list _ _ _) as [skip ms]. simpl in Hskip.
    subst skip. by left.
  - destruct (split1 " | " key) as [[sev name]|]; [|by right].
    destruct (process_signals sigs _ _ _) as [skip ms].
    destruct skip; [apply IH|]. destruct (_is_suspect_match ms); apply IH.
Qed.

(** *** Numeric signals *)

Lemma unmatched_quiet signal ms :
  unmatched crashlog_mainerror segment_callstack_intact signal = true ->
  quiet ms ->
  ∃ ms', process signal ms = (false, ms') ∧ quiet ms'.
Proof.
  unfold unmatched, _process_signal, quiet. intros Hu (Hreq & Hopt & Hstack).
  destruct (split_once "|" signal) as [[m s]|].
  - destruct (String.eqb m "ME-REQ").
    { apply negb_true_iff in Hu. rewrite Hu. eauto. }
    destruct (String.eqb m "ME-OPT").
    { apply negb_true_iff in Hu. rewrite Hu. eauto. }
    destruct (String.eqb m "NOT").
    { apply negb_true_iff in Hu. rewrite Hu. eauto. }
    apply negb_true_iff in Hu. rewrite Hu. eauto.
  - apply negb_true_iff in Hu. rewrite Hu. eauto.
Qed.

Lemma unmatched_keeps signal ms :
  unmatched crashlog_mainerror segment_callstack_intact signal = true ->
  is_required signal = false ->
  process signal ms = (false, ms).
Proof.
  unfold unmatched, is_required, _process_signal. intros Hu Hr.
  destruct (split_once "|" signal) as [[m s]|].
  - rewrite Hr in *.
    destruct (String.eqb m "ME-OPT").
    { apply negb_true_iff in Hu. by rewrite Hu. }
    destruct (String.eqb m "NOT").
    { apply negb_true_iff in Hu. by rewrite Hu. }
    apply negb_true_iff in Hu. by rewrite Hu.
  - apply negb_true_iff in Hu. by rewrite Hu.
Qed.

Lemma process_signals_quiet signal_list : ∀ ms,
  Forall (fun signal =>
    unmatched crashlog_mainerror segment_callstack_intact signal = true)
    signal_list ->
  quiet ms ->
  ∃ ms', process_signals signal_list crashlog_mainerror
           segment_callstack_intact ms = (false, ms') ∧ quiet ms'.
Proof.
  induction signal_list as [|signal rest IH]; intros ms Hall Hq; [by eexists|].
  apply Forall_cons in Hall as [Hu Hall].
  destruct (unmatched_quiet signal ms Hu Hq) as (ms1 & Hp & Hq1).
  simpl. rewrite Hp. by apply IH.
Qed.

Lemma process_signals_keeps signal_list : ∀ ms,
  Forall (fun signal =>
    unmatched crashlog_mainerror segment_callstack_intact signal = true)
    signal_list ->
  Forall (fun signal => is_required signal = false) signal_list ->
  process_signals signal_list crashlog_mainerror segment_callstack_intact ms
    = (false, ms).
Proof.
  induction signal_list as [|signal rest IH]; intros ms Hall Hreq; [done|].
  apply Forall_cons in Hall as [Hu Hall]. apply Forall_cons in Hreq as [Hr Hreq].
  simpl. rewrite (unmatched_keeps signal ms Hu Hr). by apply IH.
Qed.

Lemma process_signals_app l1 l2 ms ms1 :
  process_signals l1 crashlog_mainerror segment_callstack_intact ms = (false, ms1) ->
  process_signals (l1 ++ l2) crashlog_mainerror segment_callstack_intact ms
    = process_signals l2 crashlog_mainerror segment_callstack_intact ms1.
Proof.
  revert ms. induction l1 as [|signal l1 IH]; intros ms Hp; simpl in *.
  - congruence.
  - destruct (process signal ms) as [stop ms'].
    destruct stop; [done|]. by apply IH.
Qed.

(** What [_process_signal] does on a numeric signal. *)
Lemma process_signal_numeric signal modifier s ms :
  split_once "|" signal = Some (modifier, s) ->
  isdecimal modifier = true ->
  process signal ms =
    (false,
     if (int modifier <=? count segment_callstack_intact s)%nat
     then {| has_required_item := has_required_item ms;
             error_req_found := error_req_found ms;
             error_opt_found := error_opt_found ms;
             stack_found := true |}
     else ms).
Proof.
  intros Hsplit Hdec. unfold _process_signal. rewrite Hsplit.
  destruct (String.eqb_spec modifier "ME-REQ") as [->|_]; [done|].
  destruct (String.eqb_spec modifier "ME-OPT") as [->|_]; [done|].
  destruct (String.eqb_spec modifier "NOT") as [->|_]; [done|].
  by rewrite Hdec.
Qed.

Lemma quiet_no_match ms : quiet ms -> _is_suspect_match ms = false.
Proof.
  intros (Hreq & Hopt & Hstack). unfold _is_suspect_match.
  rewrite Hreq, Hopt, Hstack. by destruct (has_required_item ms).
Qed.

(** Claim C6, as amended.  Take a rule in which one numeric signal N|s stands
    among signals that match nothing.  When the call stack holds [s] exactly
    N-1 times (counted without overlap) the rule is not reported.  When it
    holds [s] exactly N times and the rule has no ME-REQ signal, the rule is
    reported, once, with its name and severity. *)
Theorem numeric_signal_threshold
    (error_key error_severity error_name signal modifier s : string)
    (before after autoscan_report : list string) :
  split1 " | " error_key = Some (error_severity, error_name) ->
  split_once "|" signal = Some (modifier, s) ->
  isdecimal modifier = true ->
  Forall (fun other =>
    unmatched crashlog_mainerror segment_callstack_intact other = true)
    (before ++ after) ->
  ((count segment_callstack_intact s + 1 = int modifier)%nat ->
   suspect_scan_stack [(error_key, before ++ signal :: after)]
     crashlog_mainerror segment_callstack_intact autoscan_report max_warn_length
   = Ok (false, autoscan_report)) ∧
  (count segment_callstack_intact s = int modifier ->
   Forall (fun other => is_required other = false) (before ++ after) ->
   suspect_scan_stack [(error_key, before ++ signal :: after)]
     crashlog_mainerror segment_callstack_intact autoscan_report max_warn_length
   = Ok (true,
         autoscan_report ++
           [suspect_message error_name error_severity max_warn_length])).
Proof.
  intros Hkey Hsplit Hdec Hall.
  apply Forall_app in Hall as [Hbefore Hafter].
  unfold suspect_scan_stack. simpl. rewrite Hkey. split.
  - intros Hcount.
    destruct (process_signals_quiet before initial_status Hbefore)
      as (ms1 & Hp1 & Hq1); [done|].
    rewrite (process_signals_app _ _ _ _ Hp1). simpl.
    rewrite (process_signal_numeric _ _ _ _ Hsplit Hdec).
    destruct (Nat.leb_spec (int modifier) (count segment_callstack_intact s));
      [lia|].
    destruct (process_signals_quiet after ms1 Hafter Hq1) as (ms2 & -> & Hq2).
    by rewrite (quiet_no_match _ Hq2).
  - intros Hcount Hreq. apply Forall_app in Hreq as [Hrbefore Hrafter].
    rewrite (process_signals_app _ _ _ _
               (process_signals_keeps before initial_status Hbefore Hrbefore)).
    simpl. rewrite (process_signal_numeric _ _ _ _ Hsplit Hdec).
    destruct (Nat.leb_spec (int modifier) (count segment_callstack_intact s));
      [|lia].
    rewrite (process_signals_keeps after _ Hafter Hrafter). done.
Qed.

End SuspectFacts.

Section SuspectExamples.
Import Py Report SuspectScanner Notions.

Lemma not_signal_disqualifies_witness :
  suspect_scan_stack
    ([("5 | Stack Overflow Crash", ["ME-REQ|EXCEPTION_STACK_OVERFLOW"])] ++
     ("3 | Precombines Crash", ["BGSStaticCollection"; "NOT|BSShader"; "2|Combined"])
     :: [("4 | Audio Driver Crash", ["X3DAudio1_7.dll"])])
    "Unhandled exception EXCEPTION_ACCESS_VIOLATION"
    "BGSStaticCollection Combined BSShader Combined X3DAudio1_7.dll" [] 30
  = suspect_scan_stack
      ([("5 | Stack Overflow Crash", ["ME-REQ|EXCEPTION_STACK_OVERFLOW"])] ++
       [("4 | Audio Driver Crash", ["X3DAudio1_7.dll"])])
      "Unhandled exception EXCEPTION_ACCESS_VIOLATION"
      "BGSStaticCollection Combined BSShader Combined X3DAudio1_7.dll" [] 30
  ∨ suspect_scan_stack
      ([("5 | Stack Overflow Crash", ["ME-REQ|EXCEPTION_STACK_OVERFLOW"])] ++
       ("3 | Precombines Crash", ["BGSStaticCollection"; "NOT|BSShader"; "2|Combined"])
       :: [("4 | Audio Driver Crash", ["X3DAudio1_7.dll"])])
      "Unhandled exception EXCEPTION_ACCESS_VIOLATION"
      "BGSStaticCollection Combined BSShader Combined X3DAudio1_7.dll" [] 30
    = Raise ValueError.
Proof.
  apply (not_signal_disqualifies
           "Unhandled exception EXCEPTION_ACCESS_VIOLATION"
           "BGSStaticCollection Combined BSShader Combined X3DAudio1_7.dll" 30
           [("5 | Stack Overflow Crash", ["ME-REQ|EXCEPTION_STACK_OVERFLOW"])]
           [("4 | Audio Driver Crash", ["X3DAudio1_7.dll"])]
           "3 | Precombines Crash" "BSShader"
           ["BGSStaticCollection"; "NOT|BSShader"; "2|Combined"] []).
  - apply list_elem_of_further, list_elem_of_here.
  - reflexivity.
Defined.

Lemma numeric_signal_threshold_witness :
  suspect_scan_stack
    [("3 | Precombines Crash", ["BGSStaticCollection"; "2|Combined"; "NOT|BSShader"])]
    "Unhandled exception EXCEPTION_ACCESS_VIOLATION" "Combined mesh" [] 30
  = Ok (false, []) ∧
  suspect_scan_stack
    [("3 | Precombines Crash", ["BGSStaticCollection"; "2|Combined"; "NOT|BSShader"])]
    "Unhandled exception EXCEPTION_ACCESS_VIOLATION" "Combined Combined" [] 30
  = Ok (true, [] ++ [suspect_message "Precombines Crash" "3" 30]).
Proof.
  split.
  - apply (proj1 (numeric_signal_threshold
             "Unhandled exception EXCEPTION_ACCESS_VIOLATION" "Combined mesh" 30
             "3 | Precombines Crash" "3" "Precombines Crash"
             "2|Combined" "2" "Combined"
             ["BGSStaticCollection"] ["NOT|BSShader"] []
             eq_refl eq_refl eq_refl ltac:(repeat constructor))).
    reflexivity.
  - apply (proj2 (numeric_signal_threshold
             "Unhandled exception EXCEPTION_ACCESS_VIOLATION" "Combined Combined" 30
             "3 | Precombines Crash" "3" "Precombines Crash"
             "2|Combined" "2" "Combined"
             ["BGSStaticCollection"] ["NOT|BSShader"] []
             eq_refl eq_refl eq_refl ltac:(repeat constructor))).
    + reflexivity.
    + repeat constructor.
Defined.

(** Claim C6, as stated, fails when the rule also has an ME-REQ signal that
    matches nothing: the call stack holds the string of the numeric signal
    exactly N times, and the rule is not reported. *)
Lemma numeric_signal_with_unmatched_required :
  Forall (fun other =>
    unmatched "Unhandled exception EXCEPTION_ACCESS_VIOLATION"
      "Combined Combined" other = true)
    (["ME-REQ|EXCEPTION_STACK_OVERFLOW"] ++ []) ∧
  count "Combined Combined" "Combined" = int "2" ∧
  suspect_scan_stack
    [("3 | Precombines Crash", ["ME-REQ|EXCEPTION_STACK_OVERFLOW"] ++ "2|Combined" :: [])]
    "Unhandled exception EXCEPTION_ACCESS_VIOLATION" "Combined Combined" [] 30
  ≠ Ok (true, [] ++ [suspect_message "Precombines Crash" "3" 30]).
Proof.
  split; [repeat constructor|]. split; [reflexivity|].
  vm_compute. discriminate.
Qed.

End SuspectExamples.

(** ** FormID cross-referencing *)

Section FormIDMatchFacts.
Import Py Report FormIDAnalyzer.
Variables show_formid_values formid_db_exists : bool.
Variable get_entry : string -> string -> option string.

Local Abbreviation scan_plugins :=
  (match_plugins show_formid_values formid_db_exists get_entry).

(** Plugins whose status is not the load-order id of the FormID are passed. *)
Lemma match_plugins_skip formid_full formid_value count before : ∀ rest report,
  Forall (fun p : string * string => p.2 ≠ str_take 2 formid_value) before ->
  scan_plugins formid_full formid_value count (before ++ rest) report
    = scan_plugins formid_full formid_value count rest report.
Proof.
  induction before as [|[plugin plugin_id] before IH]; intros rest report Hall;
    [done|].
  apply Forall_cons in Hall as [Hne Hall]. simpl in *.
  destruct (String.eqb_spec plugin_id (str_take 2 formid_value)); [done|].
  simpl. by apply IH.
Qed.

(** Claim C3, as amended.  For a FormID group, at the first plugin whose
    stored status equals the first two hex digits of the id: when the lookup
    flag and the database flag are both true and the lookup returns a
    description, the engine emits the line with the description and the
    count and goes on scanning the plugins after it; on a miss, or when the
    lookup is disabled, it emits the line without a description and stops. *)
Theorem formid_group_scan (formid_full formid_value plugin : string) (count : nat)
    (before after : list (string * string)) (autoscan_report : list string) :
  Forall (fun p : string * string => p.2 ≠ str_take 2 formid_value) before ->
  (∀ description,
     show_formid_values && formid_db_exists = true ->
     get_entry (str_drop 2 formid_value) plugin = Some description ->
     description ≠ "" ->
     scan_plugins formid_full formid_value count
       (before ++ (plugin, str_take 2 formid_value) :: after) autoscan_report
     = scan_plugins formid_full formid_value count after
         (autoscan_report ++
            [line_with_entry formid_full plugin description count])) ∧
  (show_formid_values && formid_db_exists = false ∨
   get_entry (str_drop 2 formid_value) plugin = None ∨
   get_entry (str_drop 2 formid_value) plugin = Some "" ->
   scan_plugins formid_full formid_value count
     (before ++ (plugin, str_take 2 formid_value) :: after) autoscan_report
   = autoscan_report ++ [line_without_entry formid_full plugin count]).
Proof.
  intros Hbefore. split.
  - intros description Hflags Hentry Hne.
    rewrite match_plugins_skip by done. simpl.
    rewrite String.eqb_refl, Hflags, Hentry. simpl.
    destruct (String.eqb_spec description ""); done.
  - intros Hmiss. rewrite match_plugins_skip by done. simpl.
    rewrite String.eqb_refl. simpl.
    destruct Hmiss as [-> | [-> | ->]]; [done| |];
      by destruct (show_formid_values && formid_db_exists).
Qed.

End FormIDMatchFacts.

Section FormIDMatchExamples.
Import Py Report FormIDAnalyzer Notions.

Lemma formid_group_scan_witness :
  match_plugins true true sample_get_entry "Form ID: 0501ABCD" "0501ABCD" 2
    ([("Fallout4.esm", "00")] ++ ("A.esp", str_take 2 "0501ABCD")
       :: [("B.esp", "05")]) []
  = match_plugins true true sample_get_entry "Form ID: 0501ABCD" "0501ABCD" 2
      [("B.esp", "05")]
      ([] ++ [line_with_entry "Form ID: 0501ABCD" "A.esp" "Pipe Pistol" 2]) ∧
  match_plugins false true sample_get_entry "Form ID: 0501ABCD" "0501ABCD" 2
    ([("Fallout4.esm", "00")] ++ ("A.esp", str_take 2 "0501ABCD")
       :: [("B.esp", "05")]) []
  = [] ++ [line_without_entry "Form ID: 0501ABCD" "A.esp" 2].
Proof.
  split.
  - apply (proj1 (formid_group_scan true true sample_get_entry
                    "Form ID: 0501ABCD" "0501ABCD" "A.esp" 2
                    [("Fallout4.esm", "00")] [("B.esp", "05")] []
                    ltac:(repeat constructor; simpl; discriminate))
             "Pipe Pistol" eq_refl eq_refl ltac:(discriminate)).
  - apply (proj2 (formid_group_scan false true sample_get_entry
                    "Form ID: 0501ABCD" "0501ABCD" "A.esp" 2
                    [("Fallout4.esm", "00")] [("B.esp", "05")] []
                    ltac:(repeat constructor; simpl; discriminate))
             (or_introl eq_refl)).
Defined.

(** Claim C3, as stated, fails: after a hit for the first plugin with the
    status of the id, the scan goes on and emits a second line for the next
    plugin with that status. *)
Lemma formid_hit_does_not_stop :
  sample_get_entry (str_drop 2 "0501ABCD") "A.esp" = Some "Pipe Pistol" ∧
  match_plugins true true sample_get_entry "Form ID: 0501ABCD" "0501ABCD" 2
    [("Fallout4.esm", "00"); ("A.esp", "05"); ("B.esp", "05")] []
  ≠ [line_with_entry "Form ID: 0501ABCD" "A.esp" "Pipe Pistol" 2].
Proof. split; [reflexivity|]. vm_compute. discriminate. Qed.

End FormIDMatchExamples.

(** ** FormID extraction *)

Section FormIDExtractFacts.
Import Py Report FormIDAnalyzer Notions.
Variable regex_space : ascii -> bool.

Local Abbreviation search := (formid_pattern_search regex_space).
Local Abbreviation extract := (extract_formids regex_space).

(** *** From the pattern to the shape of the line *)

Lemma skip_spaces_split s :
  ∃ ws, s = ws +:+ skip_spaces regex_space s ∧ all_chars regex_space ws = true.
Proof.
  induction s as [|c s (ws & Hs & Hws)]; [by exists ""|]. simpl.
  destruct (regex_space c) eqn:Hc.
  - exists (String c ws). rewrite append_cons, <- Hs. simpl. by rewrite Hc, Hws.
  - by exists "".
Qed.

Lemma match_literal_split lit : ∀ s r,
  match_literal lit s = Some r -> ∃ l, s = l +:+ r ∧ same_nocase l lit.
Proof.
  induction lit as [|a lit IH]; intros s r Hm; simpl in Hm.
  - exists "". by simplify_eq.
  - destruct s as [|c s]; [done|].
    destruct (Ascii.eqb_spec (lower_char a) (lower_char c)) as [Hac|]; [|done].
    destruct (IH s r Hm) as (l & -> & Hl).
    exists (String c l). split; [done|].
    unfold same_nocase in *. simpl. by rewrite Hac, Hl.
Qed.

Lemma match_hex_split n : ∀ s g,
  match_hex n s = Some g ->
  ∃ rest, s = g +:+ rest ∧ String.length g = n ∧ all_chars is_hex g = true.
Proof.
  induction n as [|n IH]; intros s g Hm; simpl in Hm.
  - exists s. by simplify_eq.
  - destruct s as [|c s]; [done|]. destruct (is_hex c) eqn:Hc; [|done].
    destruct (match_hex n s) as [g'|] eqn:Hg; [|done]. simplify_eq.
    destruct (IH s g' Hg) as (rest & -> & Hlen & Hall).
    exists rest. simpl. by rewrite Hc, Hall, Hlen.
Qed.

Lemma search_sound line h : search line = Some h -> formid_line regex_space line h.
Proof.
  unfold formid_pattern_search. intros Hs.
  destruct (skip_spaces_split line) as (ws1 & Hline & Hws1).
  destruct (match_literal "Form ID:" (skip_spaces regex_space line))
    as [r1|] eqn:H1; [|done]. cbn [mbind option_bind] in Hs.
  destruct (match_literal_split _ _ _ H1) as (label & Hr1 & Hlabel).
  destruct (skip_spaces_split r1) as (ws2 & Hr1' & Hws2).
  destruct (match_literal "0x" (skip_spaces regex_space r1))
    as [r2|] eqn:H2; [|done]. cbn [mbind option_bind] in Hs.
  destruct (match_literal_split _ _ _ H2) as (ox & Hr2 & Hox).
  destruct (match_hex_split _ _ _ Hs) as (rest & Hr2' & Hlen & Hhex).
  exists ws1, label, ws2, ox, rest. split_and!; try done.
  rewrite <- Hr2', <- Hr2, <- Hr1', <- Hr1. done.
Qed.

(** *** From the shape of the line to the pattern *)

Hypothesis space_is_no_label_start :
  ∀ c, regex_space c = true -> lower_char c ≠ "f"%char ∧ c ≠ "0"%char.

Lemma skip_spaces_app ws c rest :
  all_chars regex_space ws = true ->
  regex_space c = false ->
  skip_spaces regex_space (ws +:+ String c rest) = String c rest.
Proof.
  intros Hws Hc. induction ws as [|a ws IH]; simpl in *.
  - by rewrite Hc.
  - apply andb_true_iff in Hws as [Ha Hws]. rewrite ?append_cons. simpl.
    rewrite Ha. by apply IH.
Qed.

Lemma match_literal_app lit : ∀ label rest,
  same_nocase label lit -> match_literal lit (label +:+ rest) = Some rest.
Proof.
  unfold same_nocase.
  induction lit as [|a lit IH]; intros [|c label] rest Heq; simpl in *; try done.
  injection Heq as Hc Heq. rewrite ?append_cons. simpl.
  rewrite Hc, Ascii.eqb_refl. by apply IH.
Qed.

Lemma match_hex_app n : ∀ h rest,
  String.length h = n -> all_chars is_hex h = true ->
  match_hex n (h +:+ rest) = Some h.
Proof.
  induction n as [|n IH]; intros [|c h] rest Hlen Hall; simpl in *; try done.
  apply andb_true_iff in Hall as [Hc Hall]. rewrite ?append_cons. simpl.
  rewrite Hc, IH by (done || lia). done.
Qed.

Lemma lower_char_zero c : lower_char c = "0"%char -> c = "0"%char.
Proof.
  destruct c as [[] [] [] [] [] [] [] []]; vm_compute; congruence.
Qed.

Lemma search_complete line h : formid_line regex_space line h -> search line = Some h.
Proof.
  intros (ws1 & label & ws2 & ox & rest & -> & Hws1 & Hlabel & Hws2 & Hox & Hlen & Hhex).
  unfold formid_pattern_search.
  destruct label as [|c label]; [done|].
  assert (Hc : regex_space c = false).
  { destruct (regex_space c) eqn:Hc; [|done].
    destruct (space_is_no_label_start c Hc) as [Hf _].
    unfold same_nocase in Hlabel. simpl in Hlabel. by injection Hlabel. }
  rewrite append_cons, skip_spaces_app by done.
  rewrite <- append_cons, match_literal_app by done. cbn [mbind option_bind].
  destruct ox as [|d ox]; [done|].
  assert (Hd : regex_space d = false).
  { destruct (regex_space d) eqn:Hd; [|done].
    destruct (space_is_no_label_start d Hd) as [_ H0].
    unfold same_nocase in Hox. simpl in Hox. injection Hox as Hd0 _.
    by apply lower_char_zero in Hd0. }
  rewrite append_cons, skip_spaces_app by done.
  rewrite <- append_cons, match_literal_app by done. cbn [mbind option_bind].
  by apply match_hex_app.
Qed.

(** *** The lines of a segment are treated one by one *)

Lemma extract_fold segment : ∀ acc,
  fold_left (extract_step regex_space) segment acc
    = acc ++ concat (map (fun line => extract [line]) segment).
Proof.
  induction segment as [|line segment IH]; intros acc; simpl.
  - by rewrite app_nil_r.
  - rewrite IH. unfold extract_step.
    destruct (search line) as [g|]; [|done].
    destruct (negb (startswith (upper g) "FF")); [|done].
    simpl. by rewrite <- app_assoc.
Qed.

(** Claim C7.  On any call-stack segment [extract_formids] treats the lines
    one by one, in order.  A line that, after leading white space, begins
    with the form-id label followed by the hexadecimal prefix and eight hex
    digits gives nothing when the first two digits are FF, and else gives
    the value uppercased as "Form ID: <8-hex>".  A line that does not begin
    so gives nothing. *)
Theorem extract_formids_spec (segment_callstack : list string) :
  extract segment_callstack
    = concat (map (fun line => extract [line]) segment_callstack) ∧
  (∀ line h,
     formid_line regex_space line h ->
     extract [line] = if startswith (upper h) "FF" then []
                      else ["Form ID: " +:+ upper h]) ∧
  (∀ line, (∀ h, ¬ formid_line regex_space line h) -> extract [line] = []).
Proof.
  split_and!.
  - unfold extract_formids at 1. destruct segment_callstack as [|line rest]; [done|].
    by rewrite extract_fold.
  - intros line h Hline. unfold extract_formids. simpl. unfold extract_step.
    rewrite (search_complete line h Hline).
    by destruct (startswith (upper h) "FF").
  - intros line Hnone. unfold extract_formids. simpl. unfold extract_step.
    destruct (search line) as [g|] eqn:Hs; [|done].
    by apply search_sound, Hnone in Hs.
Qed.

End FormIDExtractFacts.

Section FormIDExtractExamples.
Import Py Report FormIDAnalyzer Notions.

Lemma isspace_is_no_label_start (c : ascii) :
  isspace c = true -> lower_char c ≠ "f"%char ∧ c ≠ "0"%char.
Proof.
  destruct c as [[] [] [] [] [] [] [] []]; vm_compute; intros H;
    first [discriminate H | split; discriminate].
Qed.

Lemma extract_formids_spec_witness :
  extract_formids isspace sample_callstack
    = concat (map (fun line => extract_formids isspace [line]) sample_callstack) ∧
  extract_formids isspace ["  Form ID: 0x0501abcd"] = ["Form ID: 0501ABCD"] ∧
  extract_formids isspace ["form id:0XfF001234 (x)"] = [] ∧
  extract_formids isspace ["[RSP+48] 0x0501ABCD (Form ID: 0x0501ABCD)"] = [].
Proof.
  destruct (extract_formids_spec isspace isspace_is_no_label_start sample_callstack)
    as (Hlines & Hmatch & Hnone).
  split_and!.
  - exact Hlines.
  - apply (Hmatch "  Form ID: 0x0501abcd" "0501abcd").
    by exists "  ", "Form ID:", " ", "0x", "".
  - apply (Hmatch "form id:0XfF001234 (x)" "fF001234").
    by exists "", "form id:", "", "0X", " (x)".
  - apply Hnone. intros h Hline.
    apply (search_complete isspace isspace_is_no_label_start) in Hline.
    vm_compute in Hline. discriminate.
Defined.

End FormIDExtractExamples.

(** ** The disabled-settings sweep *)

Section SettingsFacts.
Import Py Report SettingsScanner Notions.
Variable crashgen_name : string.
Variable crashgen_ignore : gset string.

Local Abbreviation notice := (disabled_notice crashgen_name).

Lemma disabled_notice_inj a b : notice a = notice b -> a = b.
Proof.
  unfold disabled_notice. intros Heq.
  change ("* NOTICE : " +:+ ?x) with
    (String "*" (String " " (String "N" (String "O" (String "T" (String "I"
      (String "C" (String "E" (String " " (String ":" (String " " x)))))))))))
    in Heq.
  injection Heq as Heq. by apply append_inj_r in Heq.
Qed.

Lemma disabled_step_flagged report item :
  disabled_step crashgen_name crashgen_ignore report item
    = if decide (flagged crashgen_ignore item)
      then report ++ [notice item.1] else report.
Proof.
  destruct item as [setting_name setting_value]. unfold disabled_step, flagged.
  simpl. destruct (decide _) as [[-> Hin]|Hno].
  - simpl. by rewrite bool_decide_eq_true_2.
  - destruct setting_value as [[]| |]; try done. simpl.
    rewrite bool_decide_eq_false_2; [done|]. intros Hin. by apply Hno.
Qed.

Lemma disabled_fold crashgen : ∀ report,
  fold_left (disabled_step crashgen_name crashgen_ignore) crashgen report
    = report ++
      ((fun item => notice item.1) <$> filter (flagged crashgen_ignore) crashgen).
Proof.
  induction crashgen as [|item crashgen IH]; intros report; simpl.
  - by rewrite app_nil_r.
  - rewrite IH, disabled_step_flagged, filter_cons.
    destruct (decide (flagged crashgen_ignore item)); [|done].
    by rewrite fmap_cons, <- app_assoc.
Qed.

(** Claim C10.  The sweep appends to the report one notice for each item of
    the settings whose value is the boolean [False] and whose name is not
    in the ignore set, in the order of the items, and nothing else: an item
    with another falsy value, such as the integer 0 or the empty string,
    gives no notice, and an empty settings map leaves the report as it
    is. *)
Theorem check_disabled_settings_spec (crashgen : list (string * setting))
    (autoscan_report : list string) :
  ∃ emitted,
    check_disabled_settings crashgen_name crashgen autoscan_report crashgen_ignore
      = autoscan_report ++ emitted ∧
    emitted = (fun item => notice item.1) <$> filter (flagged crashgen_ignore) crashgen ∧
    (∀ setting_name,
       notice setting_name ∈ emitted ↔
       (setting_name, VBool false) ∈ crashgen ∧ setting_name ∉ crashgen_ignore) ∧
    (crashgen = [] -> emitted = []).
Proof.
  eexists. split_and!; [|reflexivity| |].
  - unfold check_disabled_settings. destruct crashgen as [|item rest].
    + by rewrite app_nil_r.
    + apply disabled_fold.
  - intros setting_name. rewrite list_elem_of_fmap. split.
    + intros ([k v] & Heq & Hin). apply disabled_notice_inj in Heq. simpl in Heq.
      subst k. apply list_elem_of_filter in Hin as [[Hv Hk] Hin].
      simpl in *. by subst v.
    + intros [Hin Hk]. exists (setting_name, VBool false). split; [done|].
      by apply list_elem_of_filter.
  - by intros ->.
Qed.

End SettingsFacts.

Section SettingsExamples.
Import Py Report SettingsScanner Notions.

Example check_disabled_settings_sample :
  check_disabled_settings "Buffout 4" sample_crashgen [] {["F4EE"]}
  = [ disabled_notice "Buffout 4" "Achievements";
      disabled_notice "Buffout 4" "ArchiveLimit" ].
Proof. vm_compute. reflexivity. Qed.

End SettingsExamples.

(** ** Relocation of unsolved logs *)

Section RelocationFacts.
Import Py ScanLogs Notions.
Variable replace_existing : bool.
Variable local_dir : string.

(** What [write_report_to_file] leaves when the scan failed, relocation is
    configured and the source log is still there. *)
Lemma write_report_then_move (fs : files) (crashlog_file : path)
    (autoscan_report : list string) (text : string) :
  fs !! key crashlog_file = Some text ->
  name crashlog_file ≠ autoscan_name crashlog_file ->
  fs !! (backup_dir local_dir, autoscan_name crashlog_file) = None ->
  parent crashlog_file ≠ backup_dir local_dir ->
  write_report_to_file replace_existing local_dir fs crashlog_file
    autoscan_report true true
  = Ok (<[(backup_dir local_dir, autoscan_name crashlog_file) := text]>
          (delete (key crashlog_file)
             (<[(parent crashlog_file, autoscan_name crashlog_file) :=
                  String.concat "" autoscan_report]> fs))).
Proof.
  intros Hlog Hname Hfree Hdir.
  unfold write_report_to_file. cbn [andb].
  set (fs1 := <[key (with_name crashlog_file (autoscan_name crashlog_file)) :=
                  String.concat "" autoscan_report]> fs).
  assert (Hlog1 : fs1 !! key crashlog_file = Some text).
  { unfold fs1. rewrite lookup_insert_ne; [done|].
    unfold key, with_name. simpl. congruence. }
  assert (Hfree1 : fs1 !! (backup_dir local_dir, autoscan_name crashlog_file) = None).
  { unfold fs1. rewrite lookup_insert_ne; [done|].
    unfold key, with_name. simpl. congruence. }
  unfold move_unsolved_logs, file_exists.
  rewrite bool_decide_eq_true_2 by (rewrite Hlog1; eauto).
  unfold rename, file_exists. rewrite Hlog1.
  unfold join, with_name, key at 1. simpl.
  rewrite bool_decide_eq_false_2; [done|].
  rewrite Hfree1. by intros [? ?].
Qed.

End RelocationFacts.

Section RelocationExample.
Import Py ScanLogs Notions.

(** Claim C4 is not met by the code.  A failed scan with relocation
    configured and the source log in place: the quarantine folder receives
    the text of the log under the file name of the report, no file there has
    the name of the log, and the report stays where it was written. *)
Theorem unsolved_log_takes_report_name :
  ∃ fs',
    write_report_to_file false "C:/CLASSIC" sample_files sample_log
      ["REPORT"] true true = Ok fs' ∧
    fs' !! (backup_dir "C:/CLASSIC", "crash-2024-01-01-10-00-00-AUTOSCAN.md")
      = Some "LOG TEXT" ∧
    fs' !! (backup_dir "C:/CLASSIC", "crash-2024-01-01-10-00-00.log") = None ∧
    fs' !! ("Crash Logs", "crash-2024-01-01-10-00-00-AUTOSCAN.md")
      = Some "REPORT" ∧
    fs' !! key sample_log = None.
Proof.
  eexists. split.
  - apply (write_report_then_move false "C:/CLASSIC" sample_files sample_log
             ["REPORT"] "LOG TEXT"); by vm_compute.
  - change (autoscan_name sample_log)
      with "crash-2024-01-01-10-00-00-AUTOSCAN.md".
    change (String.concat "" ["REPORT"]) with "REPORT".
    unfold key, sample_log, sample_files, backup_dir. simpl.
    split_and!; by simplify_map_eq.
Qed.

End RelocationExample.

(** ** The session validation cache under concurrent callers *)

Section FCXFacts.
Import FCXModeHandler Notions.

Lemma batch_start_inv previous hs callers :
  Forall (fun h => (h < length hs)%nat) callers ->
  fcx_inv (batch_start previous hs callers).
Proof.
  intros Hvalid. split; simpl; try done.
  intros t th Hth. apply list_lookup_fmap_Some in Hth as (h & -> & Hh).
  split; simpl; [done|].
  assert (Hlt : (h < length hs)%nat).
  { eapply Forall_forall in Hvalid; [done|]. by eapply list_elem_of_lookup_2. }
  destruct (lookup_lt_is_Some_2 hs h Hlt) as [hd Hhd]. eauto.
Qed.

(** A caller that does not hold the lock is at a point outside the lock. *)
Lemma pc_ok_not_owner w t th owner :
  pc_ok w t th -> lock w = owner -> owner ≠ Some t -> in_lock (at_pc th) = false.
Proof.
  intros [Hlock _] Hw Hne. destruct (in_lock (at_pc th)); [|done].
  destruct Hlock as [Hlock _]. specialize (Hlock eq_refl). congruence.
Qed.

(** Steps that leave the cache, the instances and the counters alone and
    pass the lock from [owner] to [owner'], seen from a caller that neither
    gives nor takes it. *)
Lemma pc_ok_lock w w' t th :
  pc_ok w t th ->
  cls w' = cls w -> handlers w' = handlers w ->
  main_runs w' = main_runs w -> game_runs w' = game_runs w ->
  lock w ≠ Some t -> lock w' ≠ Some t ->
  pc_ok w' t th.
Proof.
  intros (Hlock & hd & Hhd & Hpc) Hc Hh Hm Hg Hw Hw'. unfold pc_ok.
  rewrite Hc, Hh, Hm, Hg. split; [|eauto].
  split; intros Hin; [|done]. apply Hlock in Hin. done.
Qed.

(** A step of the lock holder that writes the cache or the counters before
    the flag is set, seen from another caller. *)
Lemma pc_ok_cache w w' t th :
  pc_ok w t th ->
  lock w' = lock w -> handlers w' = handlers w ->
  lock w ≠ Some t ->
  _fcx_checks_run (cls w) = false ->
  pc_ok w' t th.
Proof.
  intros Hok Hl Hh Hw Hrun.
  pose proof (pc_ok_not_owner w t th _ Hok eq_refl Hw) as Hout.
  destruct Hok as (Hlock & hd & Hhd & Hpc). unfold pc_ok.
  rewrite Hl, Hh. split.
  { rewrite Hout. split; [done|]. intros Hown. by destruct Hw. }
  exists hd. split; [done|].
  destruct (at_pc th); simpl in *; try done.
  - destruct Hpc; congruence.
  - destruct Hpc as (_ & ? & _); congruence.
  - intros Hmode. destruct (Hpc Hmode); congruence.
Qed.

(** A store into the attributes of an instance, seen from a caller that is
    not the one storing. *)
Lemma pc_ok_store w w' t th h hd new :
  pc_ok w t th ->
  lock w' = lock w -> cls w' = cls w ->
  main_runs w' = main_runs w -> game_runs w' = game_runs w ->
  handlers w !! h = Some hd ->
  handlers w' = <[h := new]> (handlers w) ->
  fcx_mode new = fcx_mode hd ->
  (fcx_mode hd = true ->
   (main_files_check new = main_files_check hd ∨
    main_files_check new = _main_files_result (cls w)) ∧
   (game_files_check new = game_files_check hd ∨
    game_files_check new = _game_files_result (cls w))) ->
  pc_ok w' t th.
Proof.
  intros (Hlock & hd' & Hhd' & Hpc) Hl Hc Hm Hg Hh Hh' Hmode Hnew.
  unfold pc_ok. rewrite Hl, Hc, Hm, Hg, Hh'. split; [done|].
  destruct (decide (h = self th)) as [->|Hne].
  - assert (hd' = hd) as -> by congruence.
    exists new. split.
    { apply list_lookup_insert_eq. by eapply lookup_lt_Some. }
    rewrite Hmode.
    destruct (at_pc th); simpl in *; try done.
    + destruct Hpc as (Hon & Hrun & Hmain). split_and!; try done.
      destruct (Hnew Hon) as [[->| ->] _]; done.
    + intros Hon. destruct (Hpc Hon) as (Hrun & Hmain & Hgame).
      destruct (Hnew Hon) as [[->| ->] [->| ->]]; done.
  - exists hd'. split; [|done]. by rewrite list_lookup_insert_ne.
Qed.

(** The lock stays with a caller when a caller moves. *)
Lemma owner_move (w : world) t th p owner :
  (∀ t0, lock w = Some t0 -> is_Some (threads w !! t0)) ->
  owner = lock w ∨ (owner = Some t ∧ is_Some (threads w !! t)) ∨ owner = None ->
  ∀ t0, owner = Some t0 -> is_Some (move t th p w !! t0).
Proof.
  intros Hown Hcase t0 Ht0. unfold move. apply list_lookup_insert_is_Some.
  destruct Hcase as [->|[[-> Hin]| ->]]; [by apply Hown| |done]. by simplify_eq.
Qed.

(** What the invariant says of the caller that takes a step. *)
Ltac stepping Hthreads Hth Hpc :=
  let Hme := fresh "Hme" in
  pose proof (Hthreads _ _ Hth) as Hme;
  unfold pc_ok in Hme; rewrite Hpc in Hme; simpl in Hme;
  destruct Hme as (Hlockme & hdme & Hhdme & Hpcme).

(** The callers of the state after a step: the one that moved, or another. *)
(** The parts of the invariant after a step; the lock is with a caller. *)
Ltac fcx_split w :=
  split; simpl;
  [ | | |
    first [ by apply (owner_move w); [|left]
          | by apply (owner_move w); [|right; left; eauto]
          | by apply (owner_move w); [|right; right] ] ].

Ltac split_callers Hth' Hne :=
  apply list_lookup_insert_Some in Hth' as [(<- & <- & _)|(Hne & Hth')].

Lemma fcx_inv_step w w' : fcx_inv w -> step w w' -> fcx_inv w'.
Proof.
  intros [Hthreads Hrun Hidle Howner] Hstep.
  destruct Hstep as
    [ t th hd w Hth Hpc Hhd Hmode
    | t th hd w Hth Hpc Hhd Hmode
    | t th w Hth Hpc Hfree
    | t th w Hth Hpc Hflag
    | t th w Hth Hpc Hflag
    | t th result w Hth Hpc
    | t th result w Hth Hpc
    | t th w Hth Hpc
    | t th w Hth Hpc
    | t th hd w Hth Hhd Hpc
    | t th hd w Hth Hhd Hpc
    | t th hd w Hth Hhd Hpc
    | t th hd w Hth Hhd Hpc ];
    stepping Hthreads Hth Hpc.
  - (* if self.fcx_mode: taken *)
    fcx_split w; [|done..]. intros t' th' Hth'. split_callers Hth' Hne.
    + unfold pc_ok. simpl. split; [done|]. by exists hd.
    + exact (Hthreads _ _ Hth').
  - (* if self.fcx_mode: not taken *)
    fcx_split w; [|done..]. intros t' th' Hth'. split_callers Hth' Hne.
    + unfold pc_ok. simpl. split; [done|]. by exists hd.
    + exact (Hthreads _ _ Hth').
  - (* the lock is taken *)
    fcx_split w; [|done|done]. intros t' th' Hth'. split_callers Hth' Hne.
    + unfold pc_ok. simpl. split; [done|]. exists hdme. split_and!; try done.
      intros Hflag. destruct (Hidle Hflag Hfree) as [-> ->]. done.
    + apply (pc_ok_lock w); simpl; try done.
      * by apply Hthreads.
      * congruence.
      * congruence.
  - (* the checks have not run *)
    fcx_split w; [|done..]. intros t' th' Hth'. split_callers Hth' Hne.
    + unfold pc_ok. simpl. split; [done|]. exists hdme.
      destruct Hpcme as [Hon Hzero]. split_and!; auto.
    + exact (Hthreads _ _ Hth').
  - (* the checks have run *)
    fcx_split w; [|done..]. intros t' th' Hth'. split_callers Hth' Hne.
    + unfold pc_ok. simpl. split; [done|]. exists hdme.
      destruct Hpcme as [Hon _]. done.
    + exact (Hthreads _ _ Hth').
  - (* main_combined_result() *)
    destruct Hpcme as (Hon & Hflag & Hruns). injection Hruns as Hm Hg.
    assert (Hown : lock w = Some t) by by apply Hlockme.
    fcx_split w.
    + intros t' th' Hth'. split_callers Hth' Hne.
      * unfold pc_ok. simpl. split; [done|]. exists hdme.
        rewrite Hm, Hg. done.
      * apply (pc_ok_cache w); simpl; try done.
        -- by apply Hthreads.
        -- congruence.
    + congruence.
    + congruence.
  - (* game_combined_result() *)
    destruct Hpcme as (Hon & Hflag & Hruns). injection Hruns as Hm Hg.
    assert (Hown : lock w = Some t) by by apply Hlockme.
    fcx_split w.
    + intros t' th' Hth'. split_callers Hth' Hne.
      * unfold pc_ok. simpl. split; [done|]. exists hdme.
        rewrite Hm, Hg. done.
      * apply (pc_ok_cache w); simpl; try done.
        -- by apply Hthreads.
        -- congruence.
    + congruence.
    + congruence.
  - (* _fcx_checks_run = True *)
    destruct Hpcme as (Hon & Hflag & Hruns). injection Hruns as Hm Hg.
    assert (Hown : lock w = Some t) by by apply Hlockme.
    fcx_split w.
    + intros t' th' Hth'. split_callers Hth' Hne.
      * unfold pc_ok. simpl. split; [done|]. by exists hdme.
      * apply (pc_ok_cache w); simpl; try done.
        -- by apply Hthreads.
        -- congruence.
    + done.
    + done.
  - (* the lock is given back *)
    destruct Hpcme as (Hon & Hflag).
    assert (Hown : lock w = Some t) by by apply Hlockme.
    fcx_split w.
    + intros t' th' Hth'. split_callers Hth' Hne.
      * unfold pc_ok. simpl. split; [done|]. by exists hdme.
      * apply (pc_ok_lock w); simpl; try done.
        -- by apply Hthreads.
        -- congruence.
    + done.
    + congruence.
  - (* self.main_files_check = ... *)
    destruct Hpcme as (Hon & Hflag). assert (hdme = hd) as -> by congruence.
    fcx_split w; [|done..]. intros t' th' Hth'. split_callers Hth' Hne.
    + unfold pc_ok, set_main_check. simpl. split; [done|].
      eexists. split; [apply list_lookup_insert_eq; by eapply lookup_lt_Some|].
      done.
    + eapply (pc_ok_store w _ _ _ (self th) hd); simpl; try done.
      * by apply Hthreads.
      * intros _. split; [by right|by left].
  - (* self.game_files_check = ... *)
    destruct Hpcme as (Hon & Hflag & Hmain). assert (hdme = hd) as -> by congruence.
    fcx_split w; [|done..]. intros t' th' Hth'. split_callers Hth' Hne.
    + unfold pc_ok, set_game_check. simpl. split; [done|].
      eexists. split; [apply list_lookup_insert_eq; by eapply lookup_lt_Some|].
      done.
    + eapply (pc_ok_store w _ _ _ (self th) hd); simpl; try done.
      * by apply Hthreads.
      * intros _. split; [by left|by right].
  - (* self.main_files_check = the disabled message *)
    assert (hdme = hd) as -> by congruence.
    fcx_split w; [|done..]. intros t' th' Hth'. split_callers Hth' Hne.
    + unfold pc_ok, set_main_check. simpl. split; [done|].
      eexists. split; [apply list_lookup_insert_eq; by eapply lookup_lt_Some|].
      done.
    + eapply (pc_ok_store w _ _ _ (self th) hd); simpl; try done.
      * by apply Hthreads.
      * congruence.
  - (* self.game_files_check = the empty string *)
    assert (hdme = hd) as -> by congruence.
    fcx_split w; [|done..]. intros t' th' Hth'. split_callers Hth' Hne.
    + unfold pc_ok, set_game_check. simpl. split; [done|].
      eexists. split; [apply list_lookup_insert_eq; by eapply lookup_lt_Some|].
      simpl. congruence.
    + eapply (pc_ok_store w _ _ _ (self th) hd); simpl; try done.
      * by apply Hthreads.
      * congruence.
Qed.

Lemma fcx_inv_steps w w' : fcx_inv w -> rtc step w w' -> fcx_inv w'.
Proof. intros Hinv Hrun. induction Hrun; eauto using fcx_inv_step. Qed.

Lemma reachable_inv previous hs callers w :
  Forall (fun h => (h < length hs)%nat) callers ->
  reachable previous hs callers w -> fcx_inv w.
Proof. intros Hvalid Hrun. eapply fcx_inv_steps; [|done]. by apply batch_start_inv. Qed.

(** Both combined checks have run at most once. *)
Lemma fcx_inv_at_most_once w :
  fcx_inv w -> (main_runs w <= 1)%nat ∧ (game_runs w <= 1)%nat.
Proof.
  intros [Hthreads Hrun Hidle Howner].
  destruct (_fcx_checks_run (cls w)) eqn:Hflag.
  { destruct (Hrun eq_refl) as [-> ->]. lia. }
  destruct (lock w) as [t|] eqn:Hlock.
  2:{ destruct (Hidle eq_refl eq_refl) as [-> ->]. lia. }
  destruct (Howner t eq_refl) as [th Hth].
  destruct (Hthreads t th Hth) as (Hlockt & hd & Hhd & Hpc).
  rewrite Hlock, Hflag in *. destruct Hlockt as [_ Hin]. specialize (Hin eq_refl).
  destruct (at_pc th); simpl in *; try done.
  - destruct Hpc as [_ Hz]. injection (Hz eq_refl) as -> ->. lia.
  - destruct Hpc as (_ & _ & Hz). injection Hz as -> ->. lia.
  - destruct Hpc as (_ & _ & Hz). injection Hz as -> ->. lia.
  - destruct Hpc as (_ & _ & Hz). injection Hz as -> ->. lia.
  - destruct Hpc; done.
Qed.

(** Once the flag is set no step writes the cache. *)
Lemma cache_stable_step w w' :
  fcx_inv w -> step w w' -> _fcx_checks_run (cls w) = true -> cls w' = cls w.
Proof.
  intros [Hthreads _ _ _] Hstep Hflag.
  destruct Hstep as
    [ | | | | | t th result w Hth Hpc | t th result w Hth Hpc
    | t th w Hth Hpc | | | | | ]; try done.
  all: stepping Hthreads Hth Hpc; destruct Hpcme as (_ & Hfalse & _); congruence.
Qed.

Lemma cache_stable w w' :
  fcx_inv w -> rtc step w w' -> _fcx_checks_run (cls w) = true -> cls w' = cls w.
Proof.
  intros Hinv Hrun. induction Hrun as [|w w1 w2 Hstep Hrun IH]; [done|].
  intros Hflag. pose proof (cache_stable_step _ _ Hinv Hstep Hflag) as Hc.
  rewrite <- Hc. apply IH; [by eapply fcx_inv_step|]. by rewrite Hc.
Qed.

(** Claim C9.  In a batch, that is from the state left by
    [reset_fcx_checks] on and for any number of callers of [check_fcx_mode]
    whose statements interleave in any way: each of the two combined checks
    has run at most once; once a caller with FCX mode enabled has returned,
    each has run exactly once and the caller's instance holds the result
    pair of the cache; and from the moment the flag is set the cache holds
    that pair for the rest of the batch, so that all such callers observe
    the same pair. *)
Theorem check_runs_once (previous : cache) (hs : list handler)
    (callers : list nat) (w : world) :
  Forall (fun h => (h < length hs)%nat) callers ->
  reachable previous hs callers w ->
  ((main_runs w <= 1)%nat ∧ (game_runs w <= 1)%nat) ∧
  (∀ t th hd,
     threads w !! t = Some th -> at_pc th = Returned ->
     handlers w !! self th = Some hd -> fcx_mode hd = true ->
     main_runs w = 1%nat ∧ game_runs w = 1%nat ∧
     _fcx_checks_run (cls w) = true ∧
     main_files_check hd = _main_files_result (cls w) ∧
     game_files_check hd = _game_files_result (cls w)) ∧
  (∀ w', _fcx_checks_run (cls w) = true -> rtc step w w' -> cls w' = cls w).
Proof.
  intros Hvalid Hreach. pose proof (reachable_inv _ _ _ _ Hvalid Hreach) as Hinv.
  split_and!.
  - by apply fcx_inv_at_most_once.
  - by apply fcx_inv_at_most_once.
  - intros t th hd Hth Hpc Hhd Hon.
    destruct (fcx_threads _ Hinv t th Hth) as (_ & hd' & Hhd' & Hok).
    rewrite Hpc in Hok. assert (hd' = hd) as -> by congruence.
    destruct (Hok Hon) as (Hflag & Hmain & Hgame).
    destruct (fcx_run _ Hinv Hflag) as [Hm Hg]. done.
  - intros w' Hflag Hrun. by apply cache_stable.
Qed.

End FCXFacts.

Section FCXProgress.
Import FCXModeHandler Notions.

(** As long as a caller has not returned, some caller can take a step: the
    lock never blocks the batch. *)
Lemma fcx_progress w :
  fcx_inv w ->
  (∃ t th, threads w !! t = Some th ∧ at_pc th ≠ Returned) ->
  ∃ w', step w w'.
Proof.
  intros [Hthreads _ _ Howner] (t & th & Hth & Hpc).
  destruct (lock w) as [o|] eqn:Hlock.
  - destruct (Howner o eq_refl) as [tho Htho].
    destruct (Hthreads o tho Htho) as ([_ Hin] & hd & Hhd & Hok).
    specialize (Hin Hlock).
    destruct (at_pc tho) eqn:Hp; simpl in *; try done.
    + destruct (_fcx_checks_run (cls w)) eqn:Hflag.
      * eexists. by eapply (step_test_cached o tho).
      * eexists. by eapply (step_test_fresh o tho).
    + eexists. by eapply (step_run_main o tho "").
    + eexists. by eapply (step_run_game o tho "").
    + eexists. by eapply (step_set_run o tho).
    + eexists. by eapply (step_release o tho).
  - destruct (Hthreads t th Hth) as ([Hown _] & hd & Hhd & Hok).
    destruct (at_pc th) eqn:Hp; simpl in *; try done;
      try (specialize (Hown eq_refl); congruence).
    + destruct (fcx_mode hd) eqn:Hmode.
      * eexists. by eapply (step_mode_on t th hd).
      * eexists. by eapply (step_mode_off t th hd).
    + eexists. by eapply (step_acquire t th).
    + eexists. by eapply (step_read_main t th hd).
    + eexists. by eapply (step_read_game t th hd).
    + eexists. by eapply (step_else_main t th hd).
    + eexists. by eapply (step_else_game t th hd).
Qed.

Lemma sum_list_insert (f : thread -> nat) (l : list thread) : ∀ t x th,
  l !! t = Some th ->
  (sum_list (map f (<[t := x]> l)) + f th = sum_list (map f l) + f x)%nat.
Proof.
  induction l as [|a l IH]; intros [|t] x th Hth; simpl in *; try done.
  - simplify_eq. lia.
  - specialize (IH t x th Hth). lia.
Qed.

(** Every step uses up one of the statements that are left, so a batch takes
    at most [work_left] steps. *)
Lemma step_work_left w w' : step w w' -> (work_left w' < work_left w)%nat.
Proof.
  intros Hstep. unfold work_left.
  destruct Hstep as
    [ t th hd w Hth Hpc Hhd Hmode
    | t th hd w Hth Hpc Hhd Hmode
    | t th w Hth Hpc Hfree
    | t th w Hth Hpc Hflag
    | t th w Hth Hpc Hflag
    | t th result w Hth Hpc
    | t th result w Hth Hpc
    | t th w Hth Hpc
    | t th w Hth Hpc
    | t th hd w Hth Hhd Hpc
    | t th hd w Hth Hhd Hpc
    | t th hd w Hth Hhd Hpc
    | t th hd w Hth Hhd Hpc ]; simpl; unfold move.
  all: match goal with
       | |- (sum_list (map ?f (<[_ := ?x]> _)) < _)%nat =>
           pose proof (sum_list_insert f _ _ x _ Hth) as Hsum
       end.
  all: simpl in Hsum; rewrite Hpc in Hsum; simpl in Hsum; lia.
Qed.

(** One caller runs [check_fcx_mode] to its end. *)
Lemma sample_batch_run :
  reachable sample_previous [sample_handler] [0%nat] sample_returned.
Proof.
  unfold reachable, batch_start. simpl.
  eapply rtc_l; [eapply (step_mode_on 0); reflexivity|]. simpl.
  eapply rtc_l; [eapply (step_acquire 0); reflexivity|]. simpl.
  eapply rtc_l; [eapply (step_test_fresh 0); reflexivity|]. simpl.
  eapply rtc_l; [eapply (step_run_main 0 _ "MAIN OK"); reflexivity|]. simpl.
  eapply rtc_l; [eapply (step_run_game 0 _ "GAME OK"); reflexivity|]. simpl.
  eapply rtc_l; [eapply (step_set_run 0); reflexivity|]. simpl.
  eapply rtc_l; [eapply (step_release 0); reflexivity|]. simpl.
  eapply rtc_l; [eapply (step_read_main 0); reflexivity|]. simpl.
  eapply rtc_l; [eapply (step_read_game 0); reflexivity|]. simpl.
  apply rtc_refl.
Qed.

Lemma check_runs_once_witness :
  ((main_runs sample_returned <= 1)%nat ∧ (game_runs sample_returned <= 1)%nat) ∧
  (main_runs sample_returned = 1%nat ∧ game_runs sample_returned = 1%nat ∧
   _fcx_checks_run (cls sample_returned) = true ∧
   "MAIN OK" = _main_files_result (cls sample_returned) ∧
   "GAME OK" = _game_files_result (cls sample_returned)).
Proof.
  destruct (check_runs_once sample_previous [sample_handler] [0%nat]
              sample_returned) as (Hle & Hone & _).
  - repeat constructor.
  - exact sample_batch_run.
  - split; [exact Hle|].
    exact (Hone 0%nat {| self := 0%nat; at_pc := Returned |}
             {| fcx_mode := true;
                main_files_check := "MAIN OK";
                game_files_check := "GAME OK" |}
             eq_refl eq_refl eq_refl eq_refl).
Defined.

End FCXProgress.

(** * Further properties of the scanner *)

(** ** Segment extraction on any boundary table *)

Section SegmentTable.
Import Py Parser Notions.

(** Extra X1.  [extract_segments] needs a boundary table with at least one
    pair: on the empty table it raises [IndexError] at its first statement.
    On any other table and any log it returns, and it returns at most one
    segment for each pair of the table. *)
Theorem extract_segments_total (crash_data : list string)
    (segment_boundaries : list (string * string)) (eof_marker : string) :
  match segment_boundaries with
  | [] =>
      extract_segments crash_data segment_boundaries eof_marker = Raise IndexError
  | _ :: _ =>
      ∃ segs,
        extract_segments crash_data segment_boundaries eof_marker = Ok segs ∧
        (length segs <= length segment_boundaries)%nat
  end.
Proof.
  destruct segment_boundaries as [|first rest] eqn:Hb; [done|].
  destruct (extract_segments_returns crash_data (first :: rest) eof_marker)
    as (segs & Hrun & Hlen & _); [done|].
  exists segs. split; [done|]. unfold len in Hlen. lia.
Qed.

(** A run of consecutive lines of the log. *)
Local Abbreviation run_of crash_data :=
  (fun seg : list string => ∃ l1 l2 : list string, crash_data = l1 ++ seg ++ l2).

Lemma slice_run (crash_data : list string) a b :
  run_of crash_data (slice crash_data a b).
Proof.
  unfold slice. set (a' := clamp _ a). set (n := (_ - _)%nat).
  exists (take a' crash_data), (drop n (drop a' crash_data)).
  by rewrite take_drop, take_drop.
Qed.

Lemma slice_from_run (crash_data : list string) a :
  run_of crash_data (slice_from crash_data a).
Proof.
  unfold slice_from. set (a' := clamp _ a).
  exists (take a' crash_data), []. by rewrite app_nil_r, take_drop.
Qed.

Local Abbreviation keeps_runs crash_data := (fun r : outcome ctl =>
  match r with
  | Ok (Continue st') | Ok (Break st') => Forall (run_of crash_data) (segments st')
  | _ => True
  end).

Lemma finish_turn_runs crash_data st :
  Forall (run_of crash_data) (segments st) ->
  keeps_runs crash_data (Ok (finish_turn crash_data st)).
Proof.
  intros Hsegs. unfold finish_turn. simpl.
  destruct (collecting st && _); [|done].
  apply Forall_app. split; [done|]. apply Forall_singleton, slice_from_run.
Qed.

Lemma toggle_runs crash_data bounds eof_marker st :
  Forall (run_of crash_data) (segments st) ->
  keeps_runs crash_data (toggle crash_data bounds eof_marker st).
Proof.
  intros Hsegs. unfold toggle.
  destruct (index bounds (segment_index st)) as [pair| |]; simpl; [|done..].
  destruct (negb (collecting st) && _).
  - simpl. apply Forall_app. split; [done|].
    apply Forall_singleton, slice_from_run.
  - by apply (finish_turn_runs crash_data).
Qed.

Lemma loop_body_runs crash_data bounds eof_marker st :
  Forall (run_of crash_data) (segments st) ->
  keeps_runs crash_data (loop_body crash_data bounds eof_marker st).
Proof.
  intros Hsegs. unfold loop_body.
  destruct (index crash_data (current_index st)) as [line| |]; simpl; [|done..].
  destruct (startswith line (current_boundary st));
    [|by apply (finish_turn_runs crash_data)].
  assert (Hclosed : Forall (run_of crash_data)
            (segments st ++ [slice crash_data (segment_start_index st)
               (if 0 <? current_index st then current_index st - 1
                else current_index st)])).
  { apply Forall_app. split; [done|]. apply Forall_singleton, slice_run. }
  destruct (collecting st).
  - simpl. destruct (segment_index st + 1 =? len bounds); [done|].
    by apply toggle_runs.
  - by apply toggle_runs.
Qed.

Lemma scan_loop_runs crash_data bounds eof_marker fuel : ∀ st segs,
  Forall (run_of crash_data) (segments st) ->
  scan_loop crash_data bounds eof_marker fuel st = Ok segs ->
  Forall (run_of crash_data) segs.
Proof.
  induction fuel as [|fuel IH]; intros st segs Hsegs Hrun; simpl in Hrun.
  - destruct (current_index st <? len crash_data); by simplify_eq.
  - destruct (current_index st <? len crash_data); [|by simplify_eq].
    pose proof (loop_body_runs crash_data bounds eof_marker st Hsegs) as Hbody.
    destruct (loop_body crash_data bounds eof_marker st) as [[st'|st']| |];
      simpl in Hrun; try done.
    + by eapply IH.
    + by simplify_eq.
Qed.

(** Extra X2.  Every segment that [extract_segments] returns is a run of
    consecutive lines of the log: the scan never reorders, repeats within a
    segment, or invents lines. *)
Theorem extract_segments_runs (crash_data : list string)
    (first : string * string) (rest : list (string * string))
    (eof_marker : string) :
  ∃ segs,
    extract_segments crash_data (first :: rest) eof_marker = Ok segs ∧
    Forall (fun seg => ∃ l1 l2, crash_data = l1 ++ seg ++ l2) segs.
Proof.
  destruct (extract_segments_returns crash_data (first :: rest) eof_marker)
    as (segs & Hrun & _); [done|].
  exists segs. split; [done|].
  unfold extract_segments in Hrun. simpl in Hrun.
  eapply scan_loop_runs; [|exact Hrun]. constructor.
Qed.

End SegmentTable.


(** ** Stripped lines and header fields *)

Section StripFacts.
Import Py Parser Notions.

(** The string does not begin with white space. *)
Local Abbreviation no_lead := (fun s : string =>
  match s with
  | EmptyString => True
  | String c _ => isspace c = false
  end).

Lemma lstrip_no_lead s : no_lead (lstrip s).
Proof. induction s as [|c s IH]; simpl; [done|]. by destruct (isspace c) eqn:Hc. Qed.

Lemma lstrip_id s : no_lead s -> lstrip s = s.
Proof. destruct s as [|c s]; simpl; [done|]. by intros ->. Qed.

Lemma rstrip_no_lead s : no_lead s -> no_lead (rstrip s).
Proof.
  destruct s as [|c s]; simpl; [done|]. intros Hc.
  destruct (rstrip s); simpl; [by rewrite Hc|done].
Qed.

Lemma rstrip_idem s : rstrip (rstrip s) = rstrip s.
Proof.
  induction s as [|c s IH]; [done|]. simpl.
  destruct (rstrip s) as [|d r] eqn:Hr.
  - destruct (isspace c) eqn:Hc; [done|]. simpl. by rewrite Hc.
  - change (rstrip (String c (String d r)))
      with (match rstrip (String d r) with
            | EmptyString => if isspace c then EmptyString else String c EmptyString
            | r' => String c r'
            end).
    by rewrite IH.
Qed.

Lemma strip_idem s : strip (strip s) = strip s.
Proof.
  unfold strip. rewrite (lstrip_id (rstrip (lstrip s))).
  - apply rstrip_idem.
  - apply rstrip_no_lead, lstrip_no_lead.
Qed.

(** Extra X3.  [find_segments] returns on every log, and no line of the
    segments it returns has white space at either end: stripping such a
    line again gives the line. *)
Theorem find_segments_lines_stripped
    (crash_data : list string) (crashgen_name xse_acronym game_root_name : string) :
  match find_segments crash_data crashgen_name xse_acronym game_root_name with
  | Ok (_, _, _, segs) => Forall (Forall (fun line => strip line = line)) segs
  | _ => False
  end.
Proof.
  unfold find_segments.
  destruct (parse_crash_header crash_data crashgen_name game_root_name)
    as [[gv cv] me].
  destruct (extract_segments_returns crash_data
              (segment_boundaries (upper xse_acronym)) "EOF")
    as (raw & -> & _); [done|].
  simpl.
  assert (Hraw : Forall (Forall (fun line => strip line = line))
                   (map (map strip) raw)).
  { apply Forall_forall. intros seg Hseg.
    apply list_elem_of_fmap in Hseg as (seg' & -> & _).
    apply Forall_forall. intros line Hline.
    apply list_elem_of_fmap in Hline as (line' & -> & _). apply strip_idem. }
  destruct (0 <? _); [|done].
  apply Forall_app. split; [done|]. apply Forall_replicate. constructor.
Qed.

Lemma prefix_replace_first old new p : ∀ l,
  all_chars (fun c => negb (Ascii.eqb c old)) p = true ->
  String.prefix p l = true ->
  String.prefix p (replace_first old new l) = true.
Proof.
  induction p as [|a p IH]; intros [|b l] Hp Hl; simpl in *; try done.
  - by destruct (Ascii.eqb b old).
  - apply andb_true_iff in Hp as [Ha Hp].
    destruct (ascii_dec a b) as [<-|]; [|done].
    apply negb_true_iff in Ha. rewrite Ha. simpl.
    destruct (ascii_dec a a); [|done]. by apply IH.
Qed.

(** Extra X4.  Whatever the log, the two version fields that
    [parse_crash_header] returns are never empty and carry no white space at
    either end, and the main error is either the sentinel UNKNOWN or a text
    that starts with the marker of the main-error line. *)
Theorem parse_crash_header_fields
    (crash_data : list string) (crashgen_name game_root_name : string) :
  match parse_crash_header crash_data crashgen_name game_root_name with
  | (game_version, crashgen_version, main_error) =>
      (game_version ≠ "" ∧ strip game_version = game_version) ∧
      (crashgen_version ≠ "" ∧ strip crashgen_version = crashgen_version) ∧
      (main_error = UNKNOWN ∨ startswith main_error "Unhandled exception" = true)
  end.
Proof.
  unfold parse_crash_header. rewrite header_loop_last. simpl.
  assert (Hversion : ∀ o : option string,
            or_else (default UNKNOWN (strip <$> o)) UNKNOWN ≠ "" ∧
            strip (or_else (default UNKNOWN (strip <$> o)) UNKNOWN)
              = or_else (default UNKNOWN (strip <$> o)) UNKNOWN).
  { intros [line|]; simpl; [|done].
    destruct (strip line) as [|c s] eqn:Hs; [done|]. simpl. split; [done|].
    rewrite <- Hs. apply strip_idem. }
  split_and!; try apply Hversion.
  destruct (last_match starts_error crash_data) as [line|] eqn:Hlast; simpl;
    [|by left].
  apply last_match_passes in Hlast.
  assert (Hstart : startswith (replace_first "|" NEWLINE line)
                     "Unhandled exception" = true).
  { apply prefix_replace_first; [reflexivity|exact Hlast]. }
  destruct (replace_first "|" NEWLINE line); [done|]. by right.
Qed.

End StripFacts.


(** ** Suspect scans as a whole *)

Section SuspectScanFacts.
Import Py Report SuspectScanner Notions MoreNotions.
Variables crashlog_mainerror segment_callstack_intact : string.
Variable max_warn_length : Z.

Local Abbreviation rules := (fun db found report =>
  scan_rules db crashlog_mainerror segment_callstack_intact max_warn_length
    found report).

Local Abbreviation stack_scan := (fun db report =>
  suspect_scan_stack db crashlog_mainerror segment_callstack_intact report
    max_warn_length).

(** The outcome of one rule: it raises, or it is skipped, or it is reported. *)
Lemma scan_rules_cons error_key signal_list rest found report :
  rules ((error_key, signal_list) :: rest) found report =
  match split1 " | " error_key with
  | None => Raise ValueError
  | Some (error_severity, error_name) =>
      let '(skip, ms) :=
        process_signals signal_list crashlog_mainerror segment_callstack_intact
          initial_status in
      if negb skip && _is_suspect_match ms
      then rules rest true
             (report ++ [suspect_message error_name error_severity max_warn_length])
      else rules rest found report
  end.
Proof.
  simpl. destruct (split1 " | " error_key) as [[sev name]|]; [|done].
  destruct (process_signals _ _ _ _) as [skip ms].
  destruct skip; simpl; [done|]. by destruct (_is_suspect_match ms).
Qed.

Lemma scan_rules_app db1 : ∀ db2 found report,
  rules (db1 ++ db2) found report =
  rules db1 found report ≫= (fun r => rules db2 r.1 r.2).
Proof.
  induction db1 as [|[key sigs] db1 IH]; intros db2 found report; [done|].
  rewrite <- app_comm_cons, !scan_rules_cons.
  destruct (split1 " | " key) as [[sev name]|]; [|done].
  destruct (process_signals _ _ _ _) as [skip ms].
  destruct (negb skip && _is_suspect_match ms); apply IH.
Qed.

Lemma scan_rules_found db : ∀ found report,
  rules db found report =
  rules db false report ≫= (fun r => Ok (found || r.1, r.2)).
Proof.
  induction db as [|[key sigs] db IH]; intros found report.
  - simpl. by rewrite orb_false_r.
  - rewrite !scan_rules_cons.
    destruct (split1 " | " key) as [[sev name]|]; [|done].
    destruct (process_signals _ _ _ _) as [skip ms].
    destruct (negb skip && _is_suspect_match ms); [|apply IH].
    rewrite (IH true).
    destruct (scan_rules db _ _ _ false _) as [[f r]| |]; simpl; try done.
    by rewrite orb_true_r.
Qed.

Lemma scan_rules_grows db : ∀ report,
  match rules db false report with
  | Ok (flag, report') =>
      ∃ added, report' = report ++ added ∧
               (flag = true ↔ added ≠ []) ∧
               (length added <= length db)%nat
  | Raise e => e = ValueError
  | OutOfFuel => False
  end.
Proof.
  induction db as [|[key sigs] db IH]; intros report.
  - simpl. exists []. rewrite app_nil_r. split_and!; done.
  - rewrite scan_rules_cons.
    destruct (split1 " | " key) as [[sev name]|]; [|done].
    destruct (process_signals _ _ _ _) as [skip ms].
    destruct (negb skip && _is_suspect_match ms).
    + rewrite scan_rules_found.
      specialize (IH (report ++ [suspect_message name sev max_warn_length])).
      destruct (scan_rules db _ _ _ false _) as [[f r]| |]; simpl in *; try done.
      destruct IH as (added & -> & _ & Hlen).
      exists (suspect_message name sev max_warn_length :: added).
      rewrite <- app_assoc. simpl. split_and!; [done|done|lia].
    + specialize (IH report).
      destruct (scan_rules db _ _ _ false _) as [[f r]| |]; simpl in *; try done.
      destruct IH as (added & -> & Hflag & Hlen).
      exists added. split_and!; [done|done|lia].
Qed.


(** *** The verdict on one rule *)

(** The match status after the signals, when no exclusion is met. *)
Lemma process_signals_status signal_list : ∀ ms,
  existsb (excluded segment_callstack_intact) (map decode_signal signal_list)
    = false ->
  process_signals signal_list crashlog_mainerror segment_callstack_intact ms =
  (false,
   {| has_required_item :=
        has_required_item ms
        || existsb requires (map decode_signal signal_list);
      error_req_found :=
        error_req_found ms
        || existsb (required_found crashlog_mainerror)
             (map decode_signal signal_list);
      error_opt_found :=
        error_opt_found ms
        || existsb (optional_found crashlog_mainerror)
             (map decode_signal signal_list);
      stack_found :=
        stack_found ms
        || existsb (stack_match segment_callstack_intact)
             (map decode_signal signal_list) |}).
Proof.
  induction signal_list as [|signal rest IH]; intros ms Hex; simpl.
  - rewrite !orb_false_r. by destruct ms.
  - simpl in Hex. apply orb_false_iff in Hex as [Hnot Hex].
    unfold _process_signal, decode_signal in *.
    destruct (split_once "|" signal) as [[modifier s]|]; simpl in *.
    + destruct (String.eqb modifier "ME-REQ"); simpl in *.
      { rewrite IH by done. simpl.
        destruct (contains s crashlog_mainerror); simpl;
          by rewrite ?orb_true_r, ?orb_false_r, ?orb_assoc. }
      destruct (String.eqb modifier "ME-OPT"); simpl in *.
      { destruct (contains s crashlog_mainerror); rewrite IH by done; simpl;
          by rewrite ?orb_true_r, ?orb_false_r. }
      destruct (String.eqb modifier "NOT"); simpl in *.
      { rewrite Hnot. by rewrite IH. }
      destruct (isdecimal modifier); simpl in *; [|by rewrite IH].
      destruct (int modifier <=? count segment_callstack_intact s)%nat;
        rewrite IH by done; simpl; by rewrite ?orb_true_r, ?orb_false_r.
    + destruct (contains signal segment_callstack_intact);
        rewrite IH by done; simpl; by rewrite ?orb_true_r, ?orb_false_r.
Qed.

(** A met exclusion stops the rule. *)
Lemma process_signals_excluded signal_list : ∀ ms,
  existsb (excluded segment_callstack_intact) (map decode_signal signal_list)
    = true ->
  (process_signals signal_list crashlog_mainerror segment_callstack_intact ms).1
    = true.
Proof.
  induction signal_list as [|signal rest IH]; intros ms Hex; [done|].
  simpl in *. destruct (_process_signal _ _ _ _) as [stop ms'] eqn:Hp.
  destruct stop; [done|]. apply IH.
  apply orb_true_iff in Hex as [Hnot|Hex]; [|done].
  unfold _process_signal, decode_signal in *.
  destruct (split_once "|" signal) as [[modifier s]|]; [|done].
  destruct (String.eqb modifier "ME-REQ"); [done|].
  destruct (String.eqb modifier "ME-OPT"); [done|].
  destruct (String.eqb modifier "NOT"); simpl in *; [congruence|].
  by destruct (isdecimal modifier).
Qed.

(** Extra X6.  Whether [suspect_scan_stack] reports a rule is a matter of
    its signals as a whole: the rule is reported exactly when no NOT signal
    is met and, if the rule has an ME-REQ signal, one of its ME-REQ signals
    is met, else one of its ME-OPT, plain or numeric signals is met.  The
    order of the signals plays no part. *)
Theorem rule_reported_iff_verdict
    (error_key error_severity error_name : string)
    (signal_list autoscan_report : list string) :
  split1 " | " error_key = Some (error_severity, error_name) ->
  suspect_scan_stack [(error_key, signal_list)] crashlog_mainerror
    segment_callstack_intact autoscan_report max_warn_length =
  Ok (if rule_verdict crashlog_mainerror segment_callstack_intact signal_list
      then (true,
            autoscan_report ++
              [suspect_message error_name error_severity max_warn_length])
      else (false, autoscan_report)).
Proof.
  intros Hkey. unfold suspect_scan_stack. rewrite scan_rules_cons, Hkey.
  unfold rule_verdict.
  destruct (existsb (excluded segment_callstack_intact)
              (map decode_signal signal_list)) eqn:Hex.
  - pose proof (process_signals_excluded signal_list initial_status Hex) as Hs.
    destruct (process_signals _ _ _ _) as [skip ms]. simpl in Hs. by subst.
  - rewrite (process_signals_status signal_list initial_status Hex).
    unfold _is_suspect_match. simpl.
    set (ks := map decode_signal signal_list).
    by destruct (existsb requires ks),
      (existsb (required_found crashlog_mainerror) ks),
      (existsb (optional_found crashlog_mainerror) ks),
      (existsb (stack_match segment_callstack_intact) ks).
Qed.

End SuspectScanFacts.

Section SuspectScanExamples.
Import Py Report SuspectScanner Notions MoreNotions.

Lemma rule_reported_iff_verdict_witness :
  split1 " | " "3 | Precombines Crash" = Some ("3", "Precombines Crash") ∧
  suspect_scan_stack
    [("3 | Precombines Crash",
      ["2|Combined"; "ME-OPT|EXCEPTION_ACCESS_VIOLATION"; "NOT|BSShader"])]
    "Unhandled exception EXCEPTION_STACK_OVERFLOW"
    "BGSStaticCollection Combined Combined" ["# report"] 30 =
  Ok (if rule_verdict "Unhandled exception EXCEPTION_STACK_OVERFLOW"
           "BGSStaticCollection Combined Combined"
           ["2|Combined"; "ME-OPT|EXCEPTION_ACCESS_VIOLATION"; "NOT|BSShader"]
      then (true,
            ["# report"] ++ [suspect_message "Precombines Crash" "3" 30])
      else (false, ["# report"])).
Proof.
  split; [reflexivity|].
  apply (rule_reported_iff_verdict
           "Unhandled exception EXCEPTION_STACK_OVERFLOW"
           "BGSStaticCollection Combined Combined" 30
           "3 | Precombines Crash" "3" "Precombines Crash").
  reflexivity.
Defined.

End SuspectScanExamples.


(** ** The main-error suspects *)

Section MainErrorFacts.
Import Py Report SuspectScanner Notions MoreNotions.
Variable crashlog_mainerror : string.
Variable max_warn_length : Z.

Lemma scan_errors_spec suspects_error_list : ∀ found_suspect autoscan_report,
  match scan_errors suspects_error_list crashlog_mainerror max_warn_length
          found_suspect autoscan_report with
  | Ok (flag, report') =>
      report' =
        autoscan_report ++
          error_messages crashlog_mainerror max_warn_length suspects_error_list ∧
      flag =
        found_suspect
        || existsb (fun rule => contains rule.2 crashlog_mainerror)
             suspects_error_list ∧
      Forall (fun rule => contains rule.2 crashlog_mainerror = true ->
                          is_Some (split1 " | " rule.1))
        suspects_error_list
  | Raise e =>
      e = ValueError ∧
      Exists (fun rule => contains rule.2 crashlog_mainerror = true ∧
                          split1 " | " rule.1 = None)
        suspects_error_list
  | OutOfFuel => False
  end.
Proof.
  induction suspects_error_list as [|[error_key signal] rest IH];
    intros found_suspect autoscan_report.
  - simpl. rewrite app_nil_r, orb_false_r. done.
  - cbn [scan_errors error_messages flat_map existsb fst snd].
    destruct (contains signal crashlog_mainerror) eqn:Hin; cbn [negb].
    + destruct (split1 " | " error_key) as [[error_severity error_name]|] eqn:Hkey.
      * specialize (IH true
          (append_or_extend
             (Str (suspect_message error_name error_severity max_warn_length))
             autoscan_report)).
        destruct (scan_errors rest _ _ _ _) as [[flag report']|e|]; [| |done].
        -- destruct IH as (-> & -> & Hall). split_and!.
           ++ unfold append_or_extend. by rewrite <- app_assoc.
           ++ by rewrite orb_true_r.
           ++ apply Forall_cons. split; [|done]. intros _. simpl. by rewrite Hkey.
        -- destruct IH as [-> Hex]. split; [done|]. by apply Exists_cons_tl.
      * split; [done|]. apply Exists_cons_hd. done.
    + specialize (IH found_suspect autoscan_report).
      destruct (scan_errors rest _ _ _ _) as [[flag report']|e|]; [| |done].
      * destruct IH as (-> & -> & Hall). split_and!; [done|done|].
        apply Forall_cons. split; [|done]. simpl. congruence.
      * destruct IH as [-> Hex]. split; [done|]. by apply Exists_cons_tl.
Qed.

(** Extra X7.  [suspect_scan_mainerror] appends, in the order of the table,
    one line for every suspect whose signal is a substring of the main error,
    and returns whether there was one.  A key without the separator raises
    [ValueError] only when its signal is in the main error: the key of a
    suspect that does not apply is never split. *)
Theorem suspect_scan_mainerror_spec
    (suspects_error_list : list (string * string))
    (autoscan_report : list string) :
  match suspect_scan_mainerror suspects_error_list autoscan_report
          crashlog_mainerror max_warn_length with
  | Ok (flag, report') =>
      report' =
        autoscan_report ++
          error_messages crashlog_mainerror max_warn_length suspects_error_list ∧
      flag =
        existsb (fun rule => contains rule.2 crashlog_mainerror)
          suspects_error_list ∧
      Forall (fun rule => contains rule.2 crashlog_mainerror = true ->
                          is_Some (split1 " | " rule.1))
        suspects_error_list
  | Raise e =>
      e = ValueError ∧
      Exists (fun rule => contains rule.2 crashlog_mainerror = true ∧
                          split1 " | " rule.1 = None)
        suspects_error_list
  | OutOfFuel => False
  end.
Proof.
  unfold suspect_scan_mainerror.
  apply (scan_errors_spec suspects_error_list false autoscan_report).
Qed.

End MainErrorFacts.


(** ** FormIDs from extraction to attribution *)

Section FormIDPipeline.
Import Py Report FormIDAnalyzer Notions MoreFormID.
Variables show_formid_values formid_db_exists : bool.
Variable crashgen_name : string.
Variable regex_space : ascii -> bool.
Variable get_entry : string -> string -> option string.

Lemma upper_hex c : is_hex c = true -> is_upper_hex (upper_char c) = true.
Proof.
  destruct c as [[] [] [] [] [] [] [] []]; vm_compute; congruence.
Qed.

Lemma upper_all_hex g :
  all_chars is_hex g = true -> all_chars is_upper_hex (upper g) = true.
Proof.
  induction g as [|c g IH]; [done|]. simpl.
  intros [Hc Hg]%andb_true_iff. rewrite (upper_hex c Hc). by apply IH.
Qed.

Lemma upper_length g : String.length (upper g) = String.length g.
Proof. induction g as [|c g IH]; [done|]. simpl. f_equal. apply IH. Qed.

Lemma substring_all s : String.substring 0 (String.length s) s = s.
Proof. induction s as [|c s IH]; [done|]. simpl. by rewrite IH. Qed.

Lemma split1_label h : SuspectScanner.split1 ": " ("Form ID: " +:+ h) = Some ("Form ID", h).
Proof.
  change ("Form ID: " +:+ h) with
    (String "F" (String "o" (String "r" (String "m" (String " " (String "I"
      (String "D" (String ":" (String " " h))))))))).
  cbn. replace (String.prefix "" h) with true by (by destruct h).
  by rewrite Nat.sub_0_r, substring_all.
Qed.

(** What one line adds to the list of matches. *)
Lemma extract_step_adds acc line :
  extract_step regex_space acc line = acc ∨
  ∃ h, extract_step regex_space acc line = acc ++ ["Form ID: " +:+ h] ∧
       formid_value h.
Proof.
  unfold extract_step.
  destruct (formid_pattern_search regex_space line) as [g|] eqn:Hs; [|by left].
  destruct (startswith (upper g) "FF") eqn:Hff; [by left|]. right.
  exists (upper g). split; [done|].
  unfold formid_pattern_search in Hs.
  destruct (match_literal "Form ID:" _) as [r1|]; [|done].
  cbn [mbind option_bind] in Hs.
  destruct (match_literal "0x" _) as [r2|]; [|done].
  cbn [mbind option_bind] in Hs.
  destruct (match_hex_split 8 r2 g Hs) as (rest & _ & Hlen & Hall).
  split_and!; [by rewrite upper_length|by apply upper_all_hex|done].
Qed.

Lemma extract_fold_values segment : ∀ acc,
  Forall (fun e => ∃ h, e = "Form ID: " +:+ h ∧ formid_value h) acc ->
  Forall (fun e => ∃ h, e = "Form ID: " +:+ h ∧ formid_value h)
    (fold_left (extract_step regex_space) segment acc) ∧
  (length (fold_left (extract_step regex_space) segment acc)
     <= length acc + length segment)%nat.
Proof.
  induction segment as [|line segment IH]; intros acc Hacc; simpl.
  - split; [done|lia].
  - destruct (extract_step_adds acc line) as [->|(h & -> & Hh)].
    + destruct (IH acc Hacc) as [Hall Hlen]. split; [done|lia].
    + destruct (IH (acc ++ ["Form ID: " +:+ h])) as [Hall Hlen].
      { apply Forall_app. split; [done|]. apply Forall_singleton. by exists h. }
      split; [done|]. rewrite length_app in Hlen. simpl in Hlen. lia.
Qed.

Lemma extract_formids_values segment_callstack :
  Forall (fun e => ∃ h, e = "Form ID: " +:+ h ∧ formid_value h)
    (extract_formids regex_space segment_callstack) ∧
  (length (extract_formids regex_space segment_callstack)
     <= length segment_callstack)%nat.
Proof.
  unfold extract_formids. destruct segment_callstack as [|line rest].
  - split; [constructor|done].
  - apply (extract_fold_values (line :: rest) []). constructor.
Qed.

(** Extra X8.  Every entry that [extract_formids] returns is the label
    "Form ID: " followed by exactly eight digits 0-9 or A-F in upper case
    that do not begin with FF; splitting the entry at its first ": ", as
    [formid_match] does, gives the label and the eight digits back.  There
    are never more entries than lines. *)
Theorem extract_formids_wellformed (segment_callstack : list string) :
  Forall (fun e =>
            ∃ h, e = "Form ID: " +:+ h ∧
                 String.length h = 8%nat ∧
                 all_chars is_upper_hex h = true ∧
                 startswith h "FF" = false ∧
                 SuspectScanner.split1 ": " e = Some ("Form ID", h))
    (extract_formids regex_space segment_callstack) ∧
  (length (extract_formids regex_space segment_callstack)
     <= length segment_callstack)%nat.
Proof.
  destruct (extract_formids_values segment_callstack) as [Hall Hlen].
  split; [|done].
  eapply Forall_impl; [exact Hall|].
  intros e (h & -> & Hlen8 & Hhex & Hff). exists h.
  split_and!; try done. apply split1_label.
Qed.

(** *** Plugins that can be attributed *)

Lemma counter_add_keys x c k n :
  (k, n) ∈ counter_add x c -> k = x ∨ ∃ n', (k, n') ∈ c.
Proof.
  induction c as [|[y m] c IH]; simpl.
  - intros Heq%list_elem_of_singleton. simplify_eq. by left.
  - destruct (String.eqb_spec x y) as [->|Hxy].
    + intros [Heq|Hin]%elem_of_cons.
      * simplify_eq. by left.
      * right. exists n. by apply list_elem_of_further.
    + intros [Heq|Hin]%elem_of_cons.
      * simplify_eq. right. exists m. apply list_elem_of_here.
      * destruct (IH Hin) as [->|(n' & Hn')]; [by left|].
        right. exists n'. by apply list_elem_of_further.
Qed.

Lemma counter_fold_keys l : ∀ c k n,
  (k, n) ∈ fold_left (fun c x => counter_add x c) l c ->
  k ∈ l ∨ ∃ n', (k, n') ∈ c.
Proof.
  induction l as [|x l IH]; intros c k n Hin; simpl in Hin.
  - right. by exists n.
  - destruct (IH _ _ _ Hin) as [Hl|(n' & Hn')].
    + left. by apply list_elem_of_further.
    + destruct (counter_add_keys _ _ _ _ Hn') as [->|Hc]; [|by right].
      left. apply list_elem_of_here.
Qed.

Lemma Counter_keys l k n : (k, n) ∈ Counter l -> k ∈ l.
Proof.
  intros [Hl|(n' & Hn')]%counter_fold_keys; [done|].
  by apply elem_of_nil in Hn'.
Qed.

Lemma sorted_elem l k : k ∈ sorted l -> k ∈ l.
Proof.
  unfold sorted. intros Hk.
  by rewrite (merge_sort_Permutation String.le l) in Hk.
Qed.

Lemma hex_pair_take h :
  (2 <= String.length h)%nat -> all_chars is_upper_hex h = true ->
  hex_pair (str_take 2 h) = true.
Proof.
  destruct h as [|a [|b h]]; simpl; [lia|lia|]. intros _.
  intros [Ha [Hb _]%andb_true_iff]%andb_true_iff.
  unfold str_take. simpl. rewrite Ha, Hb. by destruct h.
Qed.

Lemma match_plugins_hex_pairs formid_full h count crashlog_plugins :
  hex_pair (str_take 2 h) = true ->
  ∀ autoscan_report,
  match_plugins show_formid_values formid_db_exists get_entry formid_full h
    count crashlog_plugins autoscan_report =
  match_plugins show_formid_values formid_db_exists get_entry formid_full h
    count (filter (fun p => hex_pair p.2 = true) crashlog_plugins)
    autoscan_report.
Proof.
  intros Hpair.
  induction crashlog_plugins as [|[plugin plugin_id] rest IH];
    intros autoscan_report; [done|].
  rewrite filter_cons. cbn [snd].
  destruct (String.eqb_spec plugin_id (str_take 2 h)) as [->|Hne].
  - rewrite decide_True by done. simpl. rewrite String.eqb_refl. simpl.
    destruct (show_formid_values && formid_db_exists); [|done].
    destruct (get_entry _ _) as [report|]; [|done].
    destruct (negb (String.eqb report "")); [|done]. apply IH.
  - assert (Hskip : ∀ l,
      match_plugins show_formid_values formid_db_exists get_entry formid_full h
        count ((plugin, plugin_id) :: l) autoscan_report =
      match_plugins show_formid_values formid_db_exists get_entry formid_full h
        count l autoscan_report).
    { intros l. simpl. by destruct (String.eqb_spec plugin_id (str_take 2 h)). }
    rewrite Hskip. case_decide; [rewrite Hskip|]; apply IH.
Qed.

Lemma fold_left_agree {A B} (f g : A -> B -> A) (l : list B) :
  (∀ x, x ∈ l -> ∀ a, f a x = g a x) ->
  ∀ a, fold_left f l a = fold_left g l a.
Proof.
  induction l as [|x l IH]; intros Hfg a; [done|]. simpl.
  rewrite (Hfg x) by apply list_elem_of_here.
  apply IH. intros y Hy. apply Hfg. by apply list_elem_of_further.
Qed.

(** On FormIDs of the shape that [extract_formids] gives, the plugins whose
    status is not a pair of upper-case hex digits play no part. *)
Lemma formid_match_values (formids_matches : list string)
    (crashlog_plugins : list (string * string))
    (autoscan_report : list string) :
  Forall (fun e => ∃ h, e = "Form ID: " +:+ h ∧ formid_value h) formids_matches ->
  formid_match show_formid_values formid_db_exists crashgen_name get_entry
    formids_matches crashlog_plugins autoscan_report =
  formid_match show_formid_values formid_db_exists crashgen_name get_entry
    formids_matches (filter (fun p => hex_pair p.2 = true) crashlog_plugins)
    autoscan_report.
Proof.
  intros Hall. unfold formid_match.
  destruct formids_matches as [|e es] eqn:He; [done|].
  rewrite <- He in *. clear He e es. f_equal.
  apply fold_left_agree. intros [formid_full count] Hin report.
  apply Counter_keys, sorted_elem in Hin.
  rewrite Forall_forall in Hall.
  destruct (Hall _ Hin) as (h & -> & Hlen & Hhex & _).
  unfold match_group. rewrite split1_label.
  apply match_plugins_hex_pairs, hex_pair_take; [lia|done].
Qed.

(** Extra X9.  On the FormIDs that [extract_formids] returns, [formid_match]
    attributes a FormID only to plugins whose status is exactly two digits
    0-9 or A-F in upper case: every other plugin of the table (a light
    plugin stored as FE and three digits, a status in lower case, a plugin
    from loadorder.txt with its origin marker) can be left out of the table
    without any change to the report. *)
Theorem formid_match_hex_pairs_only (segment_callstack : list string)
    (crashlog_plugins : list (string * string))
    (autoscan_report : list string) :
  formid_match show_formid_values formid_db_exists crashgen_name get_entry
    (extract_formids regex_space segment_callstack) crashlog_plugins
    autoscan_report =
  formid_match show_formid_values formid_db_exists crashgen_name get_entry
    (extract_formids regex_space segment_callstack)
    (filter (fun p => hex_pair p.2 = true) crashlog_plugins)
    autoscan_report.
Proof.
  destruct (extract_formids_values segment_callstack) as [Hall _].
  pose proof (formid_match_values
                (extract_formids regex_space segment_callstack)
                crashlog_plugins autoscan_report Hall) as Hsame.
  exact Hsame.
Qed.

End FormIDPipeline.


(** ** The lock, the end of a batch, and callers with FCX mode off *)

Section FCXLock.
Import Py FCXModeHandler Notions MoreFCX.

(** Extra X10.  In every state of a batch a caller is between taking and
    giving back the lock exactly when the lock names it; so no two callers
    are ever inside the [with] block at once, and the lock is never held by
    anything but a caller of the batch. *)
Theorem lock_is_exclusive (previous : cache) (hs : list handler)
    (callers : list nat) (w : world) :
  Forall (fun h => (h < length hs)%nat) callers ->
  reachable previous hs callers w ->
  (∀ t th, threads w !! t = Some th ->
           (in_lock (at_pc th) = true ↔ lock w = Some t)) ∧
  (∀ t1 t2 th1 th2,
     threads w !! t1 = Some th1 -> threads w !! t2 = Some th2 ->
     in_lock (at_pc th1) = true -> in_lock (at_pc th2) = true -> t1 = t2) ∧
  (∀ t, lock w = Some t -> is_Some (threads w !! t)).
Proof.
  intros Hcallers Hreach.
  destruct (reachable_inv previous hs callers w Hcallers Hreach)
    as [Hthreads _ _ Howner].
  split_and!.
  - intros t th Hth. by destruct (Hthreads t th Hth) as [Hlock _].
  - intros t1 t2 th1 th2 Hth1 Hth2 Hin1 Hin2.
    destruct (Hthreads t1 th1 Hth1) as [[Hlock1 _] _].
    destruct (Hthreads t2 th2 Hth2) as [[Hlock2 _] _].
    specialize (Hlock1 Hin1). specialize (Hlock2 Hin2). congruence.
  - done.
Qed.

Lemma sample_locked_run :
  reachable sample_previous [sample_handler] [0%nat; 0%nat] sample_locked.
Proof.
  unfold reachable, batch_start, sample_locked. simpl.
  eapply rtc_l; [eapply (step_mode_on 0); reflexivity|]. simpl.
  eapply rtc_l; [eapply (step_mode_on 1); reflexivity|]. simpl.
  eapply rtc_l; [eapply (step_acquire 1); reflexivity|]. simpl.
  apply rtc_refl.
Qed.

Lemma lock_is_exclusive_witness :
  (∀ t th, threads sample_locked !! t = Some th ->
           (in_lock (at_pc th) = true ↔ lock sample_locked = Some t)) ∧
  (∀ t1 t2 th1 th2,
     threads sample_locked !! t1 = Some th1 ->
     threads sample_locked !! t2 = Some th2 ->
     in_lock (at_pc th1) = true -> in_lock (at_pc th2) = true -> t1 = t2) ∧
  (∀ t, lock sample_locked = Some t -> is_Some (threads sample_locked !! t)).
Proof.
  apply (lock_is_exclusive sample_previous [sample_handler] [0%nat; 0%nat]
           sample_locked).
  - repeat constructor.
  - exact sample_locked_run.
Defined.

End FCXLock.

Section FCXEnd.
Import Py FCXModeHandler Notions MoreFCX.

Lemma nsteps_work_left n : ∀ w w',
  nsteps step n w w' -> (n + work_left w' <= work_left w)%nat.
Proof.
  induction n as [|n IH]; intros w w' Hrun.
  - inversion Hrun. lia.
  - apply nsteps_inv_r in Hrun as (w1 & Hrun & Hstep).
    specialize (IH _ _ Hrun). apply step_work_left in Hstep. lia.
Qed.

Lemma batch_start_work previous hs callers :
  work_left (batch_start previous hs callers) = (9 * length callers)%nat.
Proof.
  unfold work_left, batch_start. simpl.
  induction callers as [|h callers IH]; simpl; [done|].
  rewrite IH. lia.
Qed.

Lemma work_left_zero w :
  work_left w = 0%nat ->
  ∀ t th, threads w !! t = Some th -> at_pc th = Returned.
Proof.
  unfold work_left. induction (threads w) as [|th0 l IH]; intros Hsum t th Hth.
  - done.
  - simpl in Hsum. destruct t as [|t]; simpl in Hth.
    + simplify_eq. destruct (at_pc th); simpl in Hsum; done || lia.
    + apply (IH ltac:(lia) t th Hth).
Qed.


Lemma sample_batch_nsteps :
  nsteps step 9 (batch_start sample_previous [sample_handler] [0%nat])
    sample_returned.
Proof.
  unfold batch_start. simpl.
  eapply nsteps_l; [eapply (step_mode_on 0); reflexivity|]. simpl.
  eapply nsteps_l; [eapply (step_acquire 0); reflexivity|]. simpl.
  eapply nsteps_l; [eapply (step_test_fresh 0); reflexivity|]. simpl.
  eapply nsteps_l; [eapply (step_run_main 0 _ "MAIN OK"); reflexivity|]. simpl.
  eapply nsteps_l; [eapply (step_run_game 0 _ "GAME OK"); reflexivity|]. simpl.
  eapply nsteps_l; [eapply (step_set_run 0); reflexivity|]. simpl.
  eapply nsteps_l; [eapply (step_release 0); reflexivity|]. simpl.
  eapply nsteps_l; [eapply (step_read_main 0); reflexivity|]. simpl.
  eapply nsteps_l; [eapply (step_read_game 0); reflexivity|]. simpl.
  apply nsteps_O.
Qed.


End FCXEnd.


Section FCXDisabled.
Import Py FCXModeHandler Notions MoreFCX.

Ltac step_cases Hstep :=
  destruct Hstep as
    [ t th hd w Hth Hpc Hhd Hmode
    | t th hd w Hth Hpc Hhd Hmode
    | t th w Hth Hpc Hfree
    | t th w Hth Hpc Hflag
    | t th w Hth Hpc Hflag
    | t th result w Hth Hpc
    | t th result w Hth Hpc
    | t th w Hth Hpc
    | t th w Hth Hpc
    | t th hd w Hth Hhd Hpc
    | t th hd w Hth Hhd Hpc
    | t th hd w Hth Hhd Hpc
    | t th hd w Hth Hhd Hpc ].

Lemma steps_keep (P : world -> Prop) :
  (∀ w w', P w -> step w w' -> P w') ->
  ∀ w w', P w -> rtc step w w' -> P w'.
Proof. intros Hstep w w' Hw Hrun. induction Hrun; eauto. Qed.

(** A step that leaves the instances alone: the caller that moved is looked
    at where it stood before. *)
Lemma quiet_move w t th p :
  disabled_inv w ->
  threads w !! t = Some th ->
  (∀ hd, handlers w !! self th = Some hd -> fcx_mode hd = false ->
         quiet th hd -> quiet {| self := self th; at_pc := p |} hd) ->
  ∀ t' th' hd',
    move t th p w !! t' = Some th' -> handlers w !! self th' = Some hd' ->
    fcx_mode hd' = false -> quiet th' hd'.
Proof.
  intros Hinv Hth Hp t' th' hd' Hth' Hhd' Hoff.
  apply list_lookup_insert_Some in Hth' as [(<- & <- & _)|(Hne & Hth')].
  - simpl in Hhd'. apply Hp; [done..|]. by apply (Hinv t).
  - by apply (Hinv t').
Qed.

(** A caller with FCX mode off that stores a value in its instance. *)
Lemma quiet_store w t th hd new p :
  disabled_inv w ->
  threads w !! t = Some th -> handlers w !! self th = Some hd ->
  fcx_mode new = fcx_mode hd ->
  (fcx_mode hd = false -> quiet th hd ->
   quiet {| self := self th; at_pc := p |} new ∧
   ∀ th0, quiet th0 hd -> quiet th0 new) ->
  ∀ t' th' hd',
    move t th p w !! t' = Some th' ->
    <[self th := new]> (handlers w) !! self th' = Some hd' ->
    fcx_mode hd' = false -> quiet th' hd'.
Proof.
  intros Hinv Hth Hhd Hmode Hnew t' th' hd' Hth' Hhd' Hoff.
  apply list_lookup_insert_Some in Hth' as [(<- & <- & _)|(Hne & Hth')].
  - simpl in Hhd'.
    rewrite list_lookup_insert_eq in Hhd' by by eapply lookup_lt_Some.
    simplify_eq. rewrite Hmode in Hoff.
    by destruct (Hnew Hoff (Hinv t th hd Hth Hhd Hoff)) as [Hme _].
  - destruct (decide (self th' = self th)) as [Heq|Hother].
    + rewrite Heq in Hhd'.
      rewrite list_lookup_insert_eq in Hhd' by by eapply lookup_lt_Some.
      simplify_eq. rewrite Hmode in Hoff.
      destruct (Hnew Hoff (Hinv t th hd Hth Hhd Hoff)) as [_ Hothers].
      apply Hothers. apply (Hinv t'); [done|by rewrite Heq|done].
    + rewrite list_lookup_insert_ne in Hhd' by done.
      by apply (Hinv t').
Qed.

Lemma disabled_inv_step w w' : disabled_inv w -> step w w' -> disabled_inv w'.
Proof.
  intros Hinv Hstep. step_cases Hstep; unfold disabled_inv; simpl.
  - apply (quiet_move w t th); [done..|].
    intros hd0 Hhd0 Hoff _. congruence.
  - apply (quiet_move w t th); [done..|]. done.
  - apply (quiet_move w t th); [done..|].
    intros hd0 _ _. unfold quiet. by rewrite Hpc.
  - apply (quiet_move w t th); [done..|].
    intros hd0 _ _. unfold quiet. by rewrite Hpc.
  - apply (quiet_move w t th); [done..|].
    intros hd0 _ _. unfold quiet. by rewrite Hpc.
  - apply (quiet_move w t th); [done..|].
    intros hd0 _ _. unfold quiet. by rewrite Hpc.
  - apply (quiet_move w t th); [done..|].
    intros hd0 _ _. unfold quiet. by rewrite Hpc.
  - apply (quiet_move w t th); [done..|].
    intros hd0 _ _. unfold quiet. by rewrite Hpc.
  - apply (quiet_move w t th); [done..|].
    intros hd0 _ _. unfold quiet. by rewrite Hpc.
  - apply (quiet_store w t th hd); [done..|].
    intros _. unfold quiet at 1. by rewrite Hpc.
  - apply (quiet_store w t th hd); [done..|].
    intros _. unfold quiet at 1. by rewrite Hpc.
  - apply (quiet_store w t th hd); [done..|].
    intros _ _. split; [done|].
    intros th0. unfold quiet. simpl. destruct (at_pc th0); tauto.
  - apply (quiet_store w t th hd); [done..|].
    intros _. unfold quiet at 1. rewrite Hpc. intros Hmain. split; [done|].
    intros th0. unfold quiet. simpl. destruct (at_pc th0); tauto.
Qed.

Lemma batch_start_disabled_inv previous hs callers :
  disabled_inv (batch_start previous hs callers).
Proof.
  intros t th hd Hth _ _. unfold batch_start in Hth. simpl in Hth.
  apply list_lookup_fmap_Some in Hth as (h & -> & _). done.
Qed.

Lemma reachable_disabled_inv previous hs callers w :
  reachable previous hs callers w -> disabled_inv w.
Proof.
  unfold reachable. intros Hreach.
  eapply (steps_keep disabled_inv); [apply disabled_inv_step| |done].
  apply batch_start_disabled_inv.
Qed.

(** Extra X12.  In every state of a batch, a caller that has returned from
    [check_fcx_mode] on an instance with FCX mode off finds the fixed
    message in [main_files_check] and the empty string in
    [game_files_check], whatever the other callers do and whatever the
    instance held before; and while it runs, such a caller is never at a
    statement of the enabled branch. *)
Theorem disabled_caller_result (previous : cache) (hs : list handler)
    (callers : list nat) (w : world) :
  reachable previous hs callers w ->
  ∀ t th hd,
    threads w !! t = Some th -> handlers w !! self th = Some hd ->
    fcx_mode hd = false ->
    (at_pc th = Returned ->
     main_files_check hd = FCX_DISABLED ∧ game_files_check hd = EmptyString) ∧
    at_pc th ∈ [TestMode; ElseMain; ElseGame; Returned].
Proof.
  intros Hreach t th hd Hth Hhd Hoff.
  pose proof (reachable_disabled_inv _ _ _ _ Hreach t th hd Hth Hhd Hoff) as Hq.
  unfold quiet in Hq. split.
  - intros Hpc. rewrite Hpc in Hq. exact Hq.
  - destruct (at_pc th); try done;
      repeat first [apply list_elem_of_here | apply list_elem_of_further].
Qed.

Lemma sample_off_run :
  reachable sample_previous [sample_off] [0%nat; 0%nat] sample_off_state.
Proof.
  unfold reachable, batch_start. simpl.
  eapply rtc_l; [eapply (step_mode_off 1); reflexivity|]. simpl.
  eapply rtc_l; [eapply (step_else_main 1); reflexivity|]. simpl.
  eapply rtc_l; [eapply (step_else_game 1); reflexivity|]. simpl.
  apply rtc_refl.
Qed.

Lemma disabled_caller_result_witness :
  (Returned = Returned ->
   FCX_DISABLED = FCX_DISABLED ∧ EmptyString = EmptyString) ∧
  Returned ∈ [TestMode; ElseMain; ElseGame; Returned].
Proof.
  apply (disabled_caller_result sample_previous [sample_off] [0%nat; 0%nat]
           sample_off_state sample_off_run 1%nat
           {| self := 0%nat; at_pc := Returned |}
           {| fcx_mode := false;
              main_files_check := FCX_DISABLED;
              game_files_check := EmptyString |});
    reflexivity.
Defined.

(** *** A batch with FCX mode off for every caller *)

Lemma all_disabled_step w w' :
  all_disabled w -> step w w' -> all_disabled w'.
Proof.
  intros Hall Hstep t' th' Hth'.
  assert (Hself : ∃ t0 th0, threads w !! t0 = Some th0 ∧ self th0 = self th').
  { step_cases Hstep; simpl in Hth';
      (apply list_lookup_insert_Some in Hth' as [(<- & <- & _)|(Hne & Hth')];
       [by exists t, th|by exists t', th']). }
  destruct Hself as (t0 & th0 & Hth0 & <-).
  destruct (Hall t0 th0 Hth0) as (hd0 & Hhd0 & Hoff0).
  assert (Hkeep : ∀ h hd new,
            handlers w !! h = Some hd -> fcx_mode new = fcx_mode hd ->
            ∃ hd', <[h := new]> (handlers w) !! self th0 = Some hd' ∧
                   fcx_mode hd' = false).
  { intros h hd new Hhd Hmode. destruct (decide (self th0 = h)) as [<-|Hne].
    - exists new. rewrite list_lookup_insert_eq by by eapply lookup_lt_Some.
      split; [done|]. simplify_eq. congruence.
    - exists hd0. by rewrite list_lookup_insert_ne. }
  step_cases Hstep; simpl; try by exists hd0.
  all: by eapply Hkeep.
Qed.

Lemma all_disabled_idle w w' :
  all_disabled w -> disabled_inv w -> step w w' ->
  lock w' = lock w ∧ cls w' = cls w ∧
  main_runs w' = main_runs w ∧ game_runs w' = game_runs w.
Proof.
  intros Hall Hinv Hstep.
  step_cases Hstep; simpl; try done;
    destruct (Hall t th Hth) as (hd0 & Hhd0 & Hoff0);
    pose proof (Hinv t th hd0 Hth Hhd0 Hoff0) as Hq;
    unfold quiet in Hq; by rewrite Hpc in Hq.
Qed.

(** Extra X13.  When FCX mode is off on the instance of every caller, no
    state of the batch has the lock taken, the class-level cache is still as
    [reset_fcx_checks] left it, and neither combined check has been called. *)
Theorem disabled_batch_is_idle (previous : cache) (hs : list handler)
    (callers : list nat) (w : world) :
  Forall (fun h => ∃ hd, hs !! h = Some hd ∧ fcx_mode hd = false) callers ->
  reachable previous hs callers w ->
  lock w = None ∧ cls w = reset_fcx_checks previous ∧
  main_runs w = 0%nat ∧ game_runs w = 0%nat.
Proof.
  intros Hoff Hreach.
  assert (Hstart : all_disabled (batch_start previous hs callers)).
  { intros t th Hth. unfold batch_start in Hth. simpl in Hth.
    apply list_lookup_fmap_Some in Hth as (h & -> & Hh). simpl.
    rewrite Forall_forall in Hoff. apply Hoff.
    by eapply list_elem_of_lookup_2. }
  unfold reachable in Hreach.
  apply (steps_keep
           (fun w => all_disabled w ∧ disabled_inv w ∧
                     (lock w = None ∧ cls w = reset_fcx_checks previous ∧
                      main_runs w = 0%nat ∧ game_runs w = 0%nat)))
    in Hreach; [by destruct Hreach as (_ & _ & Hidle)| |].
  - intros w1 w2 (Hall & Hinv & Hlock & Hcls & Hmain & Hgame) Hstep.
    destruct (all_disabled_idle w1 w2 Hall Hinv Hstep) as (-> & -> & -> & ->).
    split_and!; try done.
    + by eapply all_disabled_step.
    + by eapply disabled_inv_step.
  - split_and!; [done|apply batch_start_disabled_inv|done..].
Qed.

Lemma disabled_batch_is_idle_witness :
  lock sample_off_state = None ∧
  cls sample_off_state = reset_fcx_checks sample_previous ∧
  main_runs sample_off_state = 0%nat ∧ game_runs sample_off_state = 0%nat.
Proof.
  apply (disabled_batch_is_idle sample_previous [sample_off] [0%nat; 0%nat]).
  - repeat constructor; exists sample_off; split; reflexivity.
  - exact sample_off_run.
Defined.

End FCXDisabled.


(** ** The report file and the relocation, on any file system *)

Section ReportFile.
Import Py ScanLogs Notions.
Variable replace_existing : bool.
Variable local_dir : string.

Lemma rfind_dot_split s : ∀ i last j,
  rfind_dot s i last = Some j ->
  last = Some j ∨
  ∃ a b, s = a +:+ String "." b ∧ j = (i + String.length a)%nat.
Proof.
  induction s as [|c s IH]; intros i last j Hfind; simpl in Hfind; [by left|].
  destruct (IH _ _ _ Hfind) as [Hlast|(a & b & -> & ->)].
  - destruct (Ascii.eqb_spec c ".") as [->|_]; [|by left].
    right. exists "", s. simplify_eq. split; [done|]. simpl. lia.
  - right. exists (String c a), b. split; [done|]. simpl. lia.
Qed.

Lemma substring_prefix a : ∀ b,
  String.substring 0 (String.length a) (a +:+ b) = a.
Proof.
  induction a as [|c a IH]; intros b.
  - simpl. by destruct b.
  - rewrite ?append_cons. simpl. by rewrite IH.
Qed.

Lemma append_inj_l a : ∀ x y : string, a +:+ x = a +:+ y -> x = y.
Proof.
  induction a as [|c a IH]; intros x y Heq; [done|].
  rewrite !append_cons in Heq. injection Heq as Heq. by apply IH.
Qed.

(** [Path.stem] cuts the name at a dot, or leaves it whole. *)
Lemma stem_split (p : path) :
  stem p = name p ∨ ∃ rest, name p = stem p +:+ String "." rest.
Proof.
  unfold stem. destruct (rfind_dot (name p) 0 None) as [i|] eqn:Hfind; [|by left].
  destruct (_ && _); [|by left].
  destruct (rfind_dot_split _ _ _ _ Hfind) as [?|(a & b & Hname & ->)]; [done|].
  right. exists b. rewrite Hname at 1. f_equal.
  rewrite Hname. simpl. by rewrite substring_prefix.
Qed.

(** The report has never the name of the log it is about. *)
Lemma autoscan_name_fresh (crashlog_file : path) :
  name crashlog_file ≠ autoscan_name crashlog_file.
Proof.
  unfold autoscan_name. intros Heq.
  destruct (stem_split crashlog_file) as [Hstem|(rest & Hname)].
  - rewrite Hstem in Heq. apply (f_equal String.length) in Heq.
    rewrite string_length_append in Heq. simpl in Heq. lia.
  - rewrite Hname in Heq at 1. apply append_inj_l in Heq. done.
Qed.



End ReportFile.

Section ReportFileExample.
Import Py ScanLogs Notions.


End ReportFileExample.


(** ** The checks of single settings *)

Section SettingChecks.
Import Py Report SettingsScanner Notions MoreSettings.
Variable crashgen_name : string.

Lemma dict_get_as_bool key crashgen :
  dict_get key (as_bool crashgen) =
  (fun v => VBool (truthy v)) <$> dict_get key crashgen.
Proof.
  induction crashgen as [|[k v] rest IH]; [done|]. simpl.
  destruct (String.eqb k key); [done|apply IH].
Qed.

Lemma truthy_get_as_bool key crashgen :
  from_option truthy false (dict_get key (as_bool crashgen)) =
  from_option truthy false (dict_get key crashgen).
Proof. rewrite dict_get_as_bool. by destruct (dict_get key crashgen). Qed.

Lemma memory_step_as_bool crashgen autoscan_report item :
  memory_step crashgen_name (as_bool crashgen) autoscan_report item =
  memory_step crashgen_name crashgen autoscan_report item.
Proof. destruct item. unfold memory_step. by rewrite truthy_get_as_bool. Qed.

(** Extra X16.  The four checks of single settings look at a setting only
    through its truth value (and, for F4EE, its presence): the report is the
    same when every value of the dictionary is replaced by the boolean it
    counts as, so a non-empty string or a non-zero number is a setting
    switched on, whatever it says. *)
Theorem checks_see_truth_values (crashgen : list (string * setting))
    (autoscan_report : list string) (xsemodules : gset string)
    (has_xcell has_baka_scrapheap : bool) :
  scan_buffout_achievements_setting crashgen_name autoscan_report xsemodules
    (as_bool crashgen) =
  scan_buffout_achievements_setting crashgen_name autoscan_report xsemodules
    crashgen ∧
  scan_buffout_memorymanagement_settings crashgen_name autoscan_report
    (as_bool crashgen) has_xcell has_baka_scrapheap =
  scan_buffout_memorymanagement_settings crashgen_name autoscan_report
    crashgen has_xcell has_baka_scrapheap ∧
  scan_archivelimit_setting crashgen_name autoscan_report (as_bool crashgen) =
  scan_archivelimit_setting crashgen_name autoscan_report crashgen ∧
  scan_buffout_looksmenu_setting crashgen_name (as_bool crashgen)
    autoscan_report xsemodules =
  scan_buffout_looksmenu_setting crashgen_name crashgen autoscan_report
    xsemodules.
Proof.
  split_and!.
  - unfold scan_buffout_achievements_setting. by rewrite truthy_get_as_bool.
  - unfold scan_buffout_memorymanagement_settings, memory_manager_check.
    rewrite dict_get_as_bool.
    replace (truthy (default (VBool false)
               ((fun v => VBool (truthy v)) <$> dict_get "MemoryManager" crashgen)))
      with (truthy (default (VBool false) (dict_get "MemoryManager" crashgen)))
      by by destruct (dict_get "MemoryManager" crashgen).
    destruct has_xcell; [|done].
    cbn [fold_left memory_settings]. by rewrite !memory_step_as_bool.
  - unfold scan_archivelimit_setting. by rewrite truthy_get_as_bool.
  - unfold scan_buffout_looksmenu_setting. rewrite dict_get_as_bool.
    by destruct (dict_get "F4EE" crashgen).
Qed.

(** *** Memory management *)

Lemma memory_step_adds crashgen autoscan_report item :
  ∃ added,
    memory_step crashgen_name crashgen autoscan_report item =
      autoscan_report ++ added ∧
    (1 <= length added <= 2)%nat.
Proof.
  destruct item as [setting_key display_name]. unfold memory_step.
  destruct (from_option truthy false _); eexists; (split; [done|simpl; lia]).
Qed.

Lemma memory_manager_check_adds crashgen autoscan_report has_xcell has_baka :
  ∃ added,
    memory_manager_check crashgen_name autoscan_report crashgen has_xcell
      has_baka = autoscan_report ++ added ∧
    (length added <= 2)%nat ∧
    (added = [] ↔
       truthy (default (VBool false) (dict_get "MemoryManager" crashgen)) = false ∧
       has_xcell = false ∧ has_baka = false).
Proof.
  unfold memory_manager_check.
  destruct (truthy _), has_xcell, has_baka;
    try (eexists; split; [done|]; split; [simpl; lia|]; split;
         [discriminate|intros (? & ? & ?); discriminate]).
  exists []. rewrite app_nil_r. split_and!; [done|simpl; lia|done].
Qed.

(** Extra X17.  [scan_buffout_memorymanagement_settings] only appends to
    the report.  It appends nothing exactly when MemoryManager is off and
    neither X-Cell nor Baka ScrapHeap is installed.  Without X-Cell it adds
    at most one message (two lines) and the four allocator settings play no
    part; with X-Cell it adds five messages (five to ten lines).  With
    MemoryManager on and X-Cell installed, Baka ScrapHeap is not looked at. *)
Theorem memorymanagement_scan_facts (crashgen : list (string * setting))
    (autoscan_report : list string) (has_xcell has_baka_scrapheap : bool) :
  let mem_manager_enabled :=
    truthy (default (VBool false) (dict_get "MemoryManager" crashgen)) in
  (∃ added,
     scan_buffout_memorymanagement_settings crashgen_name autoscan_report
       crashgen has_xcell has_baka_scrapheap = autoscan_report ++ added ∧
     (added = [] ↔
        mem_manager_enabled = false ∧ has_xcell = false ∧
        has_baka_scrapheap = false) ∧
     (if has_xcell then (5 <= length added <= 10)%nat
      else (length added <= 2)%nat)) ∧
  scan_buffout_memorymanagement_settings crashgen_name autoscan_report
    crashgen false has_baka_scrapheap =
  scan_buffout_memorymanagement_settings crashgen_name autoscan_report
    [("MemoryManager", VBool mem_manager_enabled)] false has_baka_scrapheap ∧
  (mem_manager_enabled = true ->
   scan_buffout_memorymanagement_settings crashgen_name autoscan_report
     crashgen true has_baka_scrapheap =
   scan_buffout_memorymanagement_settings crashgen_name autoscan_report
     crashgen true (negb has_baka_scrapheap)).
Proof.
  intros mem_manager_enabled. split_and!.
  - unfold scan_buffout_memorymanagement_settings.
    destruct (memory_manager_check_adds crashgen autoscan_report has_xcell
                has_baka_scrapheap) as (first & -> & Hlen & Hsilent).
    destruct has_xcell.
    + cbn [fold_left memory_settings].
      destruct (memory_step_adds crashgen (autoscan_report ++ first)
                  ("HavokMemorySystem", "Havok Memory System"))
        as (a1 & -> & Ha1).
      destruct (memory_step_adds crashgen ((autoscan_report ++ first) ++ a1)
                  ("BSTextureStreamerLocalHeap", "BSTextureStreamerLocalHeap"))
        as (a2 & -> & Ha2).
      destruct (memory_step_adds crashgen
                  (((autoscan_report ++ first) ++ a1) ++ a2)
                  ("ScaleformAllocator", "Scaleform Allocator"))
        as (a3 & -> & Ha3).
      destruct (memory_step_adds crashgen
                  ((((autoscan_report ++ first) ++ a1) ++ a2) ++ a3)
                  ("SmallBlockAllocator", "Small Block Allocator"))
        as (a4 & -> & Ha4).
      exists (first ++ a1 ++ a2 ++ a3 ++ a4). rewrite <- !app_assoc.
      split; [done|].
      assert (Hfirst : (1 <= length first)%nat).
      { destruct first; [|simpl; lia].
        destruct Hsilent as [Hs _]. by destruct (Hs eq_refl) as (_ & ? & _). }
      rewrite !length_app. split; [|lia]. split.
      * intros Hnil. apply (f_equal length) in Hnil.
        rewrite !length_app in Hnil. simpl in Hnil. lia.
      * by intros (_ & ? & _).
    + exists first. split; [done|]. split; [exact Hsilent|lia].
  - unfold scan_buffout_memorymanagement_settings, memory_manager_check.
    simpl. fold mem_manager_enabled. done.
  - intros Hon.
    unfold scan_buffout_memorymanagement_settings, memory_manager_check.
    fold mem_manager_enabled. by rewrite Hon.
Qed.

End SettingChecks.


(** ** Counting what was found *)

Section CounterFacts.
Import Py Report FormIDAnalyzer Notions MoreCounting.

Lemma count_of_add k x c :
  count_of k (counter_add x c) =
  (count_of k c + (if String.eqb x k then 1 else 0))%nat.
Proof.
  induction c as [|[y n] c IH]; simpl.
  - rewrite String.eqb_sym. by destruct (String.eqb x k).
  - destruct (String.eqb_spec x y) as [->|Hxy]; simpl.
    + rewrite (String.eqb_sym y k). destruct (String.eqb k y); lia.
    + destruct (String.eqb_spec k y) as [->|Hky]; [|apply IH].
      destruct (String.eqb_spec x y); [done|lia].
Qed.

Lemma keys_add x c :
  (counter_add x c).*1 =
  c.*1 ++ (if existsb (String.eqb x) c.*1 then [] else [x]).
Proof.
  induction c as [|[y n] c IH]; [done|]. simpl.
  destruct (String.eqb_spec x y) as [->|Hxy]; simpl.
  - by rewrite app_nil_r.
  - f_equal. apply IH.
Qed.

Lemma existsb_eqb_elem x (ks : list string) :
  existsb (String.eqb x) ks = false -> x ∉ ks.
Proof.
  induction ks as [|y ks IH]; simpl; [intros _; apply not_elem_of_nil|].
  destruct (String.eqb_spec x y) as [|Hne]; [done|]. simpl.
  intros Hks [?|?]%elem_of_cons; [done|]. by apply IH.
Qed.

Lemma counter_fold l : ∀ c,
  NoDup c.*1 ->
  let c' := fold_left (fun c x => counter_add x c) l c in
  (∀ k, count_of k c' = (count_of k c + occurrences k l)%nat) ∧
  NoDup c'.*1 ∧
  ∃ ks, c'.*1 = c.*1 ++ ks ∧ sublist ks l.
Proof.
  induction l as [|x l IH]; intros c Hc; simpl.
  - split_and!; [intros; lia|done|]. exists []. by rewrite app_nil_r.
  - assert (Hc' : NoDup (counter_add x c).*1).
    { rewrite keys_add. destruct (existsb (String.eqb x) c.*1) eqn:Hx;
        [by rewrite app_nil_r|].
      apply NoDup_app. split_and!; [done| |apply NoDup_singleton].
      intros y Hy ->%list_elem_of_singleton.
      by apply existsb_eqb_elem in Hx. }
    destruct (IH _ Hc') as (Hcount & Hdup & ks & Hks & Hsub).
    split_and!; [|done|].
    + intros k. rewrite Hcount, count_of_add. lia.
    + rewrite Hks, keys_add, <- app_assoc.
      destruct (existsb (String.eqb x) c.*1); eexists; (split; [done|]); simpl.
      * by apply sublist_cons.
      * by apply sublist_skip.
Qed.

Lemma count_of_elem k n c :
  NoDup c.*1 -> (k, n) ∈ c -> count_of k c = n.
Proof.
  induction c as [|[y m] c IH]; intros Hdup Hin; [by apply elem_of_nil in Hin|].
  simpl in *. apply NoDup_cons in Hdup as [Hy Hdup].
  apply elem_of_cons in Hin as [Heq|Hin].
  - simplify_eq. by rewrite String.eqb_refl.
  - destruct (String.eqb_spec k y) as [->|_]; [|by apply IH].
    destruct Hy. apply list_elem_of_fmap. by exists (y, n).
Qed.

Lemma occurrences_elem k l : k ∈ l ↔ (0 < occurrences k l)%nat.
Proof.
  induction l as [|y l IH]; simpl.
  - split; [by intros ?%elem_of_nil|lia].
  - rewrite elem_of_cons, IH.
    destruct (String.eqb_spec y k) as [->|Hne]; [split; [lia|by left]|].
    split; [intros [?|?]; [done|lia]|]. intros ?. right. lia.
Qed.

Lemma occurrences_perm k l1 l2 :
  l1 ≡ₚ l2 -> occurrences k l1 = occurrences k l2.
Proof.
  induction 1 as [|x l1 l2 _ IH|x y l|l1 l2 l3 _ IH1 _ IH2]; simpl;
    [done|by rewrite IH|lia|congruence].
Qed.

Lemma sublist_sorted (ks l : list string) :
  sublist ks l -> StronglySorted String.le l -> StronglySorted String.le ks.
Proof.
  induction 1 as [|x ks l Hsub IH|x ks l Hsub IH]; intros Hl; [done|..].
  - apply StronglySorted_inv in Hl as [Hl Hx].
    constructor; [by apply IH|].
    rewrite Forall_forall in *. intros y Hy. apply Hx.
    by eapply elem_of_sublist.
  - apply StronglySorted_inv in Hl as [Hl _]. by apply IH.
Qed.

Lemma sorted_nodup_ascending (ks : list string) :
  StronglySorted String.le ks -> NoDup ks -> ascending ks.
Proof.
  unfold ascending. induction 1 as [|k ks Hks IH Hk]; intros Hdup.
  - constructor.
  - apply NoDup_cons in Hdup as [Hout Hdup].
    constructor; [by apply IH|].
    rewrite Forall_forall in *. intros y Hy. split; [by apply Hk|].
    by intros ->.
Qed.

(** [dict(Counter(sorted(l)))]: the keys are the distinct elements of [l]
    in strictly ascending order, each with the number of its occurrences. *)
Lemma Counter_sorted_spec (l : list string) :
  let groups := Counter (sorted l) in
  ascending groups.*1 ∧
  (∀ x, x ∈ l ↔ x ∈ groups.*1) ∧
  (∀ x n, (x, n) ∈ groups -> n = occurrences x l ∧ (0 < n)%nat).
Proof.
  intros groups.
  destruct (counter_fold (sorted l) [] (NoDup_nil_2 (A:=string)))
    as (Hcount & Hdup & ks & Hks & Hsub).
  fold (Counter (sorted l)) in Hcount, Hdup, Hks. fold groups in Hcount, Hdup, Hks.
  simpl in Hks.
  assert (Hperm : sorted l ≡ₚ l) by apply merge_sort_Permutation.
  assert (Hmem : ∀ x n, (x, n) ∈ groups -> n = occurrences x l).
  { intros x n Hin. rewrite <- (count_of_elem x n groups Hdup Hin), Hcount.
    simpl. by apply occurrences_perm. }
  assert (Hkeys : ∀ x, x ∈ groups.*1 -> x ∈ l).
  { intros x Hx. rewrite Hks in Hx. rewrite <- Hperm.
    by eapply elem_of_sublist. }
  split_and!.
  - apply sorted_nodup_ascending; [|done]. rewrite Hks.
    apply (sublist_sorted _ _ Hsub).
    apply StronglySorted_merge_sort; apply _.
  - intros x. split; [|apply Hkeys].
    intros Hx. apply occurrences_elem in Hx.
    rewrite <- (occurrences_perm x _ _ Hperm) in Hx.
    specialize (Hcount x). simpl in Hcount.
    destruct (decide (x ∈ groups.*1)) as [|Hout]; [done|].
    assert (count_of x groups = 0%nat) as Hzero; [|lia].
    clear -Hout. induction groups as [|[y m] g IH]; [done|]. simpl in *.
    destruct (String.eqb_spec x y) as [->|_].
    + destruct Hout. apply list_elem_of_here.
    + apply IH. intros ?. apply Hout. by apply list_elem_of_further.
  - intros x n Hin. split; [by apply Hmem|].
    rewrite (Hmem x n Hin). apply occurrences_elem, Hkeys.
    apply list_elem_of_fmap. by exists (x, n).
Qed.

End CounterFacts.

(** ** Named records *)

Section RecordFacts.
Import Py Report RecordScanner Notions MoreCounting.
Variable crashgen_name : string.
Variables lower_records lower_ignore : list string.

Lemma find_step_adds rsp_marker rsp_offset line :
  ∃ new,
    (∀ acc, find_step lower_records lower_ignore rsp_marker rsp_offset acc line
            = acc ++ new) ∧
    Forall (fun record => strip record = record) new ∧
    (length new <= 1)%nat.
Proof.
  unfold find_step.
  destruct (is_record_line lower_records lower_ignore line).
  - destruct (contains rsp_marker line); eexists;
      (split_and!; [done| |done]); apply Forall_singleton, strip_idem.
  - exists []. split_and!; [|done|simpl; lia].
    intros acc. by rewrite app_nil_r.
Qed.

Lemma find_fold rsp_marker rsp_offset segment_callstack : ∀ acc,
  fold_left (find_step lower_records lower_ignore rsp_marker rsp_offset)
    segment_callstack acc =
  acc ++ fold_left (find_step lower_records lower_ignore rsp_marker rsp_offset)
           segment_callstack [].
Proof.
  induction segment_callstack as [|line rest IH]; intros acc; simpl.
  - by rewrite app_nil_r.
  - destruct (find_step_adds rsp_marker rsp_offset line) as (new & Hnew & _).
    rewrite !Hnew. simpl. rewrite (IH (acc ++ new)), (IH new).
    by rewrite app_assoc.
Qed.

Lemma find_fold_stripped rsp_marker rsp_offset segment_callstack : ∀ acc,
  Forall (fun record => strip record = record) acc ->
  Forall (fun record => strip record = record)
    (fold_left (find_step lower_records lower_ignore rsp_marker rsp_offset)
       segment_callstack acc) ∧
  (length (fold_left (find_step lower_records lower_ignore rsp_marker rsp_offset)
             segment_callstack acc)
   <= length acc + length segment_callstack)%nat.
Proof.
  induction segment_callstack as [|line rest IH]; intros acc Hacc; simpl.
  - split; [done|lia].
  - destruct (find_step_adds rsp_marker rsp_offset line) as (new & Hnew & Hs & Hl).
    rewrite Hnew. destruct (IH (acc ++ new)) as [Hall Hlen].
    { by apply Forall_app. }
    split; [done|]. rewrite length_app in Hlen. lia.
Qed.


Lemma report_lines_fold (groups : list (string * nat)) : ∀ report,
  fold_left
    (fun report item => append_or_extend (Str (record_line item.1 item.2)) report)
    groups report =
  report ++ map (fun item => record_line item.1 item.2) groups.
Proof.
  induction groups as [|g groups IH]; intros report; simpl.
  - by rewrite app_nil_r.
  - rewrite IH. unfold append_or_extend. by rewrite <- app_assoc.
Qed.

(** Extra X19.  [_report_found_records] appends one line for each distinct
    record, in strictly ascending order of the records, with the number of
    times the record is in [records_matches], and then the three notes. *)
Theorem report_found_records_groups (records_matches autoscan_report : list string) :
  ∃ groups : list (string * nat),
    _report_found_records crashgen_name records_matches autoscan_report =
      autoscan_report ++
      map (fun item => record_line item.1 item.2) groups ++
      explanatory_notes crashgen_name ∧
    ascending groups.*1 ∧
    (∀ record, record ∈ records_matches ↔ record ∈ groups.*1) ∧
    (∀ record count,
       (record, count) ∈ groups ->
       count = occurrences record records_matches ∧ (0 < count)%nat).
Proof.
  exists (FormIDAnalyzer.Counter (FormIDAnalyzer.sorted records_matches)).
  split; [|apply Counter_sorted_spec].
  unfold _report_found_records. rewrite report_lines_fold.
  unfold append_or_extend. by rewrite <- app_assoc.
Qed.

End RecordFacts.


(** ** The two GPU detectors *)

Section GPUFacts.
Import Py GPUDetector Notions MoreGPU.

Lemma maker_gpu_step info line :
  maker (gpu_step info line) = maker_step (maker info) line.
Proof.
  unfold gpu_step, maker_step, maker.
  destruct (contains "GPU #1" line).
  - destruct (contains "AMD" line), (contains "Nvidia" line),
      (contains ":" line); done.
  - by destruct (contains "GPU #2" line && contains ":" line).
Qed.

Lemma maker_fold segment_system : ∀ info,
  maker (fold_left gpu_step segment_system info) =
  fold_left maker_step segment_system (maker info).
Proof.
  induction segment_system as [|line rest IH]; intros info; [done|].
  simpl. by rewrite IH, maker_gpu_step.
Qed.

(** The three ways of a line. *)
Lemma maker_step_cases p line :
  (maker_step p line = ("AMD", Some "nvidia") ∧
   contains "GPU #1" line && contains "AMD" line = true) ∨
  (maker_step p line = ("Nvidia", Some "amd") ∧
   contains "GPU #1" line && contains "AMD" line = false ∧
   contains "GPU #1" line && contains "Nvidia" line = true) ∨
  (maker_step p line = p ∧
   contains "GPU #1" line && contains "AMD" line = false ∧
   contains "GPU #1" line && contains "Nvidia" line = false).
Proof.
  unfold maker_step.
  destruct (contains "GPU #1" line), (contains "AMD" line),
    (contains "Nvidia" line); simpl; tauto.
Qed.

Lemma maker_fold_known segment_system : ∀ p,
  fold_left maker_step segment_system p = p ∨
  fold_left maker_step segment_system p = ("AMD", Some "nvidia") ∨
  fold_left maker_step segment_system p = ("Nvidia", Some "amd").
Proof.
  induction segment_system as [|line rest IH]; intros p; [by left|]. simpl.
  destruct (maker_step_cases p line) as [[-> _]|[[-> _]|[-> _]]].
  - destruct (IH ("AMD", Some "nvidia")) as [->|H]; [right; by left|by right].
  - destruct (IH ("Nvidia", Some "amd")) as [->|H]; [right; by right|by right].
  - apply IH.
Qed.

Lemma maker_fold_named segment_system : ∀ p,
  scan_or p segment_system ≠ p ∨
  p = ("AMD", Some "nvidia") ∨ p = ("Nvidia", Some "amd") ->
  fold_left maker_step segment_system p = ("AMD", Some "nvidia") ∨
  fold_left maker_step segment_system p = ("Nvidia", Some "amd").
Proof.
  induction segment_system as [|line rest IH]; intros p Hp.
  - simpl. destruct Hp as [Hp|Hp]; [|done]. by destruct Hp.
  - simpl.
    destruct (maker_step_cases p line) as [[-> _]|[[-> _]|(-> & Hamd & Hnv)]].
    + apply IH. right. by left.
    + apply IH. right. by right.
    + apply IH. destruct Hp as [Hp|Hp]; [left|by right].
      unfold scan_or in *. simpl in Hp. by rewrite Hamd, Hnv in Hp.
Qed.

Lemma maker_fold_quiet segment_system : ∀ p,
  scan_or p segment_system = p ->
  p ≠ ("AMD", Some "nvidia") -> p ≠ ("Nvidia", Some "amd") ->
  fold_left maker_step segment_system p = p.
Proof.
  induction segment_system as [|line rest IH]; intros p Hp Ha Hn; [done|].
  simpl. unfold scan_or in Hp. simpl in Hp.
  destruct (maker_step_cases p line)
    as [[_ Hamd]|[(_ & Hamd & Hnv)|(-> & Hamd & Hnv)]];
    rewrite Hamd in Hp; simpl in Hp; [congruence|..].
  - rewrite Hnv in Hp. simpl in Hp. destruct (existsb _ rest); congruence.
  - rewrite Hnv in Hp. by apply IH.
Qed.

Lemma maker_fold_none rest :
  filter (fun line => contains "GPU #1" line = true) rest = [] ->
  (∀ q, fold_left maker_step rest q = q) ∧
  existsb (fun elem => contains "GPU #1" elem && contains "AMD" elem) rest = false ∧
  existsb (fun elem => contains "GPU #1" elem && contains "Nvidia" elem) rest = false.
Proof.
  induction rest as [|l rest IH]; intros Hnone; [done|].
  rewrite filter_cons in Hnone. simpl.
  destruct (contains "GPU #1" l) eqn:Hgpu.
  { by rewrite decide_True in Hnone. }
  rewrite decide_False in Hnone by done.
  destruct (IH Hnone) as (Hfold & Hamd & Hnv). split_and!; [|done..].
  intros q. unfold maker_step at 2. rewrite Hgpu. apply Hfold.
Qed.

Lemma maker_fold_single segment_system : ∀ p,
  (length (gpu1_lines segment_system) <= 1)%nat ->
  fold_left maker_step segment_system p = scan_or p segment_system.
Proof.
  induction segment_system as [|line rest IH]; intros p Hone; [done|].
  unfold gpu1_lines in Hone. rewrite filter_cons in Hone.
  cbn [fold_left]. unfold scan_or. cbn [existsb].
  destruct (contains "GPU #1" line) eqn:Hgpu.
  - rewrite decide_True in Hone by done. simpl in Hone.
    destruct (maker_fold_none rest) as (Hfold & Hamd & Hnv).
    { apply length_zero_iff_nil. lia. }
    rewrite Hfold, Hamd, Hnv. unfold maker_step. rewrite Hgpu. simpl.
    by destruct (contains "AMD" line), (contains "Nvidia" line).
  - rewrite decide_False in Hone by done.
    assert (Hstep : maker_step p line = p).
    { unfold maker_step. by rewrite Hgpu. }
    rewrite Hstep, (IH p Hone). done.
Qed.

(** Extra X20.  The manufacturer and the rival of [get_gpu_info] are always
    one of the three pairs that [scan_log_gpu] can return, and each function
    says Unknown exactly when the other does; with at most one line about
    the first GPU the two functions agree.  (With more such lines
    [scan_log_gpu] puts AMD first and [get_gpu_info] takes the last line
    that names a manufacturer.) *)
Theorem gpu_detectors_agree (segment_system : list string) :
  let info := get_gpu_info segment_system in
  ((manufacturer info, rival info) = ("Unknown", None) ∨
   (manufacturer info, rival info) = ("AMD", Some "nvidia") ∨
   (manufacturer info, rival info) = ("Nvidia", Some "amd")) ∧
  (scan_log_gpu segment_system = ("Unknown", None) ↔
   manufacturer info = "Unknown") ∧
  ((length (gpu1_lines segment_system) <= 1)%nat ->
   scan_log_gpu segment_system = (manufacturer info, rival info)).
Proof.
  intros info.
  assert (Hinfo : (manufacturer info, rival info) =
                  fold_left maker_step segment_system ("Unknown", None)).
  { unfold info, get_gpu_info.
    exact (maker_fold segment_system
             {| primary := "Unknown"; secondary := None;
                manufacturer := "Unknown"; rival := None |}). }
  assert (Hscan : scan_log_gpu segment_system =
                  scan_or ("Unknown", None) segment_system) by done.
  rewrite Hinfo, Hscan. split_and!.
  - apply maker_fold_known.
  - split.
    + intros Hquiet.
      assert (Hfold := maker_fold_quiet segment_system _ Hquiet).
      rewrite <- Hinfo in Hfold.
      assert ((manufacturer info, rival info) = ("Unknown", None)) as Heq
        by by apply Hfold.
      by injection Heq.
    + intros Hunknown.
      destruct (decide (scan_or ("Unknown", None) segment_system
                        = ("Unknown", None))) as [|Hne]; [done|].
      destruct (maker_fold_named segment_system ("Unknown", None))
        as [Heq|Heq]; [by left|..];
        rewrite <- Hinfo in Heq; injection Heq as Hm _; congruence.
  - intros Hone. symmetry. by apply maker_fold_single.
Qed.

Lemma gpu_detectors_agree_witness :
  (length (gpu1_lines sample_system) <= 1)%nat ∧
  scan_log_gpu sample_system =
  (manufacturer (get_gpu_info sample_system), rival (get_gpu_info sample_system)).
Proof.
  assert (Hone : (length (gpu1_lines sample_system) <= 1)%nat).
  { vm_compute. lia. }
  split; [exact Hone|].
  destruct (gpu_detectors_agree sample_system) as (_ & _ & Hagree).
  exact (Hagree Hone).
Defined.

End GPUFacts.


(** ** Plugins of the crash log *)

Section PluginFacts.
Import Py Report PluginAnalyzer Notions MorePlugins.
Variable regex_space : ascii -> bool.
Variable Version : Type.
Variables version_eq version_ge version_lt : Version -> Version -> bool.
Variable version_1_37_0 : Version.
Variables game_version game_version_vr game_version_new : Version.

Lemma is_ext_dots a b c d :
  is_ext a b c d = true ->
  is_dot a = true ∧ is_dot b = true ∧ is_dot c = true ∧ is_dot d = true.
Proof.
  unfold is_ext. intros Hext.
  apply andb_true_iff in Hext as [Hext Hd].
  apply andb_true_iff in Hext as [Hext Hc].
  apply andb_true_iff in Hext as [Ha Hb].
  apply Ascii.eqb_eq in Ha. subst a. split; [done|].
  assert (Hletter : ∀ x, is_dot x = false -> lower_char x = ascii_of_nat 10).
  { intros x Hx. unfold is_dot in Hx. apply negb_false_iff, Ascii.eqb_eq in Hx.
    by subst x. }
  split_and!.
  - destruct (is_dot b) eqn:Hdot; [done|].
    by rewrite (Hletter b Hdot) in Hb.
  - destruct (is_dot c) eqn:Hdot; [done|].
    by rewrite (Hletter c Hdot) in Hc.
  - destruct (is_dot d) eqn:Hdot; [done|].
    by rewrite (Hletter d Hdot) in Hd.
Qed.

(** The run of extensions is empty or a text that ends in an extension. *)
Lemma ext_run_shape n : ∀ s,
  (String.length s <= n)%nat ->
  ext_run s = EmptyString ∨
  (4 <= String.length (ext_run s))%nat ∧
  all_chars is_dot (ext_run s) = true ∧
  ∃ stem a b c d,
    ext_run s = stem +:+ String a (String b (String c (String d EmptyString))) ∧
    is_ext a b c d = true.
Proof.
  induction n as [|n IH]; intros s Hlen.
  - destruct s; [by left|simpl in Hlen; lia].
  - destruct s as [|a [|b [|c [|d rest]]]]; try by left.
    simpl. destruct (is_ext a b c d) eqn:Hext; [|by left]. right.
    destruct (is_ext_dots a b c d Hext) as (Ha & Hb & Hc & Hd).
    simpl. rewrite Ha, Hb, Hc, Hd. simpl.
    destruct (IH rest) as [->|(Hl & Hdots & stem & a' & b' & c' & d' & Hrun & He)].
    { simpl in Hlen. lia. }
    + split_and!; [simpl; lia|done|]. by exists "", a, b, c, d.
    + split_and!; [lia|exact Hdots|].
      exists (String a (String b (String c (String d stem)))), a', b', c', d'.
      by rewrite Hrun.
Qed.

Lemma lazy_name_shape s : ∀ name,
  lazy_name s = Some name -> plugin_file_name name.
Proof.
  induction s as [|x s IH]; intros name Hname; [done|]. simpl in Hname.
  destruct (is_dot x) eqn:Hx; [|done].
  destruct (ext_run_shape (String.length s) s (le_n _))
    as [Hnone|(Hl & Hdots & stem & a & b & c & d & Hrun & Hext)].
  - rewrite Hnone in Hname.
    destruct (lazy_name s) as [name'|]; [|done]. simpl in Hname. simplify_eq.
    destruct (IH name' eq_refl) as (Hl & Hdots & stem & a & b & c & d & -> & He).
    split_and!; [simpl; lia|simpl; by rewrite Hx|].
    by exists (String x stem), a, b, c, d.
  - destruct (ext_run s) as [|e0 exts] eqn:Hrun'; [simpl in Hl; lia|].
    simplify_eq. split_and!; [simpl in *; lia|simpl; by rewrite Hx|].
    exists (String x stem), a, b, c, d. by rewrite Hrun.
Qed.

Lemma spaces_then_inv {A} (k : string -> option A) s : ∀ r,
  spaces_then regex_space k s = Some r -> ∃ s', k s' = Some r.
Proof.
  induction s as [|c s IH]; intros r Hr; simpl in Hr; [by exists ""|].
  destruct (regex_space c); [|by exists (String c s)].
  destruct (spaces_then regex_space k s) as [r'|] eqn:Hs.
  - simplify_eq. by apply IH.
  - by exists (String c s).
Qed.

Lemma take_hex_spec n : ∀ s g rest,
  take_hex n s = Some (g, rest) ->
  String.length g = n ∧ all_chars FormIDAnalyzer.is_hex g = true.
Proof.
  induction n as [|n IH]; intros s g rest Hg; simpl in Hg.
  - by simplify_eq.
  - destruct s as [|c s]; [done|].
    destruct (FormIDAnalyzer.is_hex c) eqn:Hc; [|done].
    destruct (take_hex n s) as [[g' rest']|] eqn:Hg'; [|done]. simplify_eq.
    destruct (IH _ _ _ Hg') as [Hlen Hall]. simpl. by rewrite Hc, Hall, Hlen.
Qed.

Lemma after_id_shape s name :
  after_id regex_space s = Some name -> plugin_file_name name.
Proof.
  unfold after_id. destruct (FormIDAnalyzer.match_literal "]" s) as [rest|];
    [|done].
  cbn [mbind option_bind]. intros (s' & Hs')%spaces_then_inv.
  by eapply lazy_name_shape.
Qed.

Lemma lower_f a : lower_char a = "f"%char -> a = "f"%char ∨ a = "F"%char.
Proof.
  destruct a as [[] [] [] [] [] [] [] []]; vm_compute; intros H;
    first [discriminate | by left | by right].
Qed.

Lemma lower_e a : lower_char a = "e"%char -> a = "e"%char ∨ a = "E"%char.
Proof.
  destruct a as [[] [] [] [] [] [] [] []]; vm_compute; intros H;
    first [discriminate | by left | by right].
Qed.

Lemma lower_colon a : lower_char a = ":"%char -> a = ":"%char.
Proof.
  destruct a as [[] [] [] [] [] [] [] []]; vm_compute; intros H;
    first [discriminate | done].
Qed.

Lemma remove_colon_hex g :
  all_chars FormIDAnalyzer.is_hex g = true -> remove_char ":" g = g.
Proof.
  induction g as [|c g IH]; [done|]. simpl.
  intros [Hc Hg]%andb_true_iff.
  destruct (Ascii.eqb_spec c ":") as [->|_]; [done|]. by rewrite IH.
Qed.

Lemma light_id_shape s plugin_id name :
  light_id regex_space s = Some (plugin_id, name) ->
  (∃ status, plugin_id = Some status ∧ bracket_status (remove_char ":" status)) ∧
  plugin_file_name name.
Proof.
  unfold light_id. destruct s as [|a [|b [|c rest]]].
  1-3: by (cbn; repeat case_match).
  change (FormIDAnalyzer.match_literal "FE:" (String a (String b (String c rest))))
    with (if Ascii.eqb (lower_char "F") (lower_char a)
          then if Ascii.eqb (lower_char "E") (lower_char b)
               then if Ascii.eqb (lower_char ":") (lower_char c)
                    then Some rest else None
               else None
          else None).
  destruct (Ascii.eqb_spec (lower_char "F") (lower_char a)) as [Ha|]; [|done].
  destruct (Ascii.eqb_spec (lower_char "E") (lower_char b)) as [Hb|]; [|done].
  destruct (Ascii.eqb_spec (lower_char ":") (lower_char c)) as [Hc|]; [|done].
  cbn [mbind option_bind].
  destruct (take_hex 3 rest) as [[digits rest']|] eqn:Hdigits; [|done].
  cbn [mbind option_bind].
  destruct (after_id regex_space rest') as [name'|] eqn:Hname; [|done].
  cbn [mbind option_bind]. intros Heq. simplify_eq.
  split; [|by eapply after_id_shape].
  eexists. split; [done|].
  destruct (take_hex_spec _ _ _ _ Hdigits) as [Hlen Hhex].
  symmetry in Hc. apply lower_colon in Hc. subst c.
  unfold FormIDAnalyzer.str_take. simpl.
  replace (String.substring 0 0 rest) with EmptyString by (by destruct rest).
  rewrite append_empty_l.
  assert (Hab : (a = "f" ∨ a = "F")%char ∧ (b = "e" ∨ b = "E")%char).
  { split; [apply lower_f|apply lower_e]; done. }
  destruct Hab as [[-> | ->] [-> | ->]]; simpl;
    rewrite (remove_colon_hex digits Hhex);
    (split; [simpl; exact Hhex|]); right; simpl;
    (split; [by rewrite Hlen|]);
    unfold same_nocase, FormIDAnalyzer.str_take; simpl; by destruct digits.
Qed.

Lemma full_id_shape s plugin_id name :
  full_id regex_space s = Some (plugin_id, name) ->
  (∃ status, plugin_id = Some status ∧ bracket_status (remove_char ":" status)) ∧
  plugin_file_name name.
Proof.
  unfold full_id.
  destruct (take_hex 2 s) as [[digits rest]|] eqn:Hdigits; [|done].
  cbn [mbind option_bind].
  destruct (after_id regex_space rest) as [name'|] eqn:Hname; [|done].
  cbn [mbind option_bind]. intros Heq. simplify_eq.
  split; [|by eapply after_id_shape].
  eexists. split; [done|].
  destruct (take_hex_spec _ _ _ _ Hdigits) as [Hlen Hhex].
  rewrite (remove_colon_hex digits Hhex). split; [done|by left].
Qed.

(** What the pattern gives when it matches: the first group is always
    there. *)
Lemma pluginsearch_match_shape entry plugin_id name :
  pluginsearch_match regex_space entry = Some (plugin_id, name) ->
  (∃ status, plugin_id = Some status ∧ bracket_status (remove_char ":" status)) ∧
  plugin_file_name name.
Proof.
  unfold pluginsearch_match. intros (s & Hs)%spaces_then_inv.
  destruct (FormIDAnalyzer.match_literal "[" s) as [rest|]; [|done].
  cbn [mbind option_bind] in Hs.
  destruct (light_id regex_space rest) as [r|] eqn:Hlight.
  - simplify_eq. by eapply light_id_shape.
  - by eapply full_id_shape.
Qed.

Lemma in_map_false name (m : list (string * string)) :
  in_map name m = false -> name ∉ m.*1.
Proof.
  unfold in_map. induction m as [|[k v] m IH]; simpl.
  - intros _. apply not_elem_of_nil.
  - destruct (String.eqb_spec k name) as [|Hne]; [done|]. simpl.
    intros Hm [?|?]%elem_of_cons; [done|]. by apply IH.
Qed.

(** What every turn of the loop keeps. *)
Local Abbreviation scan_ok := (fun (original pre_137 : bool) (seen : bool)
    (st : scan_state) =>
  NoDup (plugin_map st).*1 ∧
  Forall (fun item => plugin_file_name item.1 ∧ bracket_status item.2)
    (plugin_map st) ∧
  (plugin_limit_triggered st = true -> original = true ∧ seen = true) ∧
  (limit_check_disabled st = true -> original = false ∧ seen = true)).

Lemma scan_entry_ok original pre_137 seen st entry :
  scan_ok original pre_137 seen st ->
  scan_ok original pre_137 (seen || contains "[FF]" entry)
    (scan_entry regex_space original pre_137 st entry) ∧
  (length (plugin_map (scan_entry regex_space original pre_137 st entry))
     <= S (length (plugin_map st)))%nat.
Proof.
  intros (Hdup & Hall & Htrig & Hdis). unfold scan_entry.
  set (st1 := if contains "[FF]" entry then _ else st).
  assert (Hmap : plugin_map st1 = plugin_map st).
  { unfold st1. by destruct (contains "[FF]" entry), original, pre_137. }
  assert (Hflags :
    (plugin_limit_triggered st1 = true ->
     original = true ∧ seen || contains "[FF]" entry = true) ∧
    (limit_check_disabled st1 = true ->
     original = false ∧ seen || contains "[FF]" entry = true)).
  { unfold st1. destruct (contains "[FF]" entry); simpl.
    - rewrite orb_true_r. destruct original; simpl.
      + split; [done|]. intros Hd. by destruct (Hdis Hd).
      + destruct pre_137; simpl; (split; [|by intros]);
          intros Ht; by destruct (Htrig Ht).
    - rewrite orb_false_r. done. }
  destruct Hflags as [Htrig1 Hdis1].
  destruct (pluginsearch_match regex_space entry) as [[plugin_id name]|] eqn:Hm.
  2:{ rewrite Hmap. split; [done|lia]. }
  destruct (pluginsearch_match_shape _ _ _ Hm)
    as [(status & -> & Hstatus) Hname].
  destruct (String.eqb name "" || in_map name (plugin_map st1)) eqn:Hskip.
  { rewrite Hmap. split; [done|lia]. }
  apply orb_false_iff in Hskip as [_ Hnew]. rewrite Hmap in Hnew.
  unfold with_plugin. simpl. rewrite Hmap. split.
  - split_and!; [|by apply Forall_app; split; [|apply Forall_singleton]|done..].
    rewrite fmap_app. apply NoDup_app. split_and!; [done| |apply NoDup_singleton].
    intros x Hx ->%list_elem_of_singleton. by apply in_map_false in Hnew.
  - rewrite length_app. simpl. lia.
Qed.

Lemma scan_fold_ok original pre_137 segment_plugins : ∀ seen st,
  scan_ok original pre_137 seen st ->
  let st' := fold_left (scan_entry regex_space original pre_137)
               segment_plugins st in
  scan_ok original pre_137 (seen || existsb (contains "[FF]") segment_plugins) st' ∧
  (length (plugin_map st') <= length (plugin_map st) + length segment_plugins)%nat.
Proof.
  induction segment_plugins as [|entry rest IH]; intros seen st Hst; simpl.
  - rewrite orb_false_r. split; [done|lia].
  - destruct (scan_entry_ok original pre_137 seen st entry Hst) as [Hok Hlen].
    destruct (IH _ _ Hok) as [Hok' Hlen']. rewrite orb_assoc.
    split; [done|]. simpl in Hlen'. lia.
Qed.

(** Extra X21.  In the dictionary that [loadorder_scan_log] returns no name
    is there twice, and there is at most one plugin for each entry.  Every
    status comes from the bracket of its entry (two hex digits, or FE and
    three hex digits with the colon removed): the first group of the
    pattern is in both alternatives, so the statuses DLL and ??? are never
    given.  Every name has at least one character before an extension and
    holds no newline.  The two flags are never both set, and neither is set
    unless some entry holds the limit marker. *)
Theorem loadorder_scan_log_facts (segment_plugins : list string)
    (game_version_ version_current : Version) :
  match loadorder_scan_log regex_space Version version_eq version_ge version_lt
          version_1_37_0 game_version game_version_vr game_version_new
          segment_plugins game_version_ version_current with
  | (plugin_map, plugin_limit_triggered, limit_check_disabled) =>
      NoDup plugin_map.*1 ∧
      (length plugin_map <= length segment_plugins)%nat ∧
      Forall (fun item => plugin_file_name item.1 ∧ bracket_status item.2)
        plugin_map ∧
      plugin_limit_triggered && limit_check_disabled = false ∧
      (plugin_limit_triggered || limit_check_disabled = true ->
       existsb (contains "[FF]") segment_plugins = true)
  end.
Proof.
  unfold loadorder_scan_log.
  destruct segment_plugins as [|entry rest] eqn:Hseg.
  { split_and!; [constructor|done|constructor|done|done]. }
  rewrite <- Hseg. clear Hseg entry rest.
  set (original := _ || _). set (pre_137 := _ && _).
  destruct (scan_fold_ok original pre_137 segment_plugins false
              {| plugin_map := []; plugin_limit_triggered := false;
                 limit_check_disabled := false |})
    as [(Hdup & Hall & Htrig & Hdis) Hlen].
  { split_and!; [constructor|constructor|done|done]. }
  simpl in *. split_and!; [done|lia|done| |].
  - destruct (plugin_limit_triggered _) eqn:Ht; [|done].
    destruct (limit_check_disabled _) eqn:Hd; [|done].
    destruct (Htrig eq_refl), (Hdis eq_refl). congruence.
  - intros [Ht|Hd]%orb_true_iff; [by destruct (Htrig Ht)|by destruct (Hdis Hd)].
Qed.

End PluginFacts.


(** ** Plugins of loadorder.txt *)

Section LoadOrderFile.
Import Py Report PluginAnalyzer FormIDAnalyzer Notions MorePlugins MoreFormID.
Variables show_formid_values formid_db_exists : bool.
Variable crashgen_name : string.
Variable regex_space : ascii -> bool.
Variable get_entry : string -> string -> option string.

Local Abbreviation from_file := (fun item : string * string =>
  item.2 = "LO" ∧ item.1 ≠ "" ∧ strip item.1 = item.1).

Lemma loadorder_fold_ok lines : ∀ acc,
  NoDup acc.*1 -> Forall from_file acc ->
  NoDup (fold_left loadorder_entry lines acc).*1 ∧
  Forall from_file (fold_left loadorder_entry lines acc) ∧
  (length (fold_left loadorder_entry lines acc) <= length acc + length lines)%nat.
Proof.
  induction lines as [|line rest IH]; intros acc Hdup Hall; simpl.
  - split_and!; [done|done|lia].
  - unfold loadorder_entry at 2 4 6.
    destruct (negb (String.eqb (strip line) "")
              && negb (in_map (strip line) acc)) eqn:Hnew.
    + apply andb_true_iff in Hnew as [Hne Hfresh].
      apply negb_true_iff in Hne, Hfresh. apply String.eqb_neq in Hne.
      destruct (IH (acc ++ [(strip line, "LO")])) as (Hd & Ha & Hl).
      * rewrite fmap_app. apply NoDup_app.
        split_and!; [done| |apply NoDup_singleton].
        intros x Hx ->%list_elem_of_singleton. by apply in_map_false in Hfresh.
      * apply Forall_app. split; [done|]. apply Forall_singleton.
        split_and!; [done|done|apply strip_idem].
      * split_and!; [done|done|]. rewrite length_app in Hl. simpl in Hl. lia.
    + destruct (IH acc Hdup Hall) as (Hd & Ha & Hl). split_and!; [done|done|lia].
Qed.

(** Extra X22.  The plugins that [loadorder_scan_loadorder_txt] returns
    all have the origin marker LO as status; their names are stripped, not
    empty and pairwise different, and none comes from the first line of
    the file, which is skipped whatever it holds.  The flag tells whether
    there is any plugin.  The report gets the three messages, and one more
    line exactly when the file could not be read.  With such a table
    [formid_match] attributes no FormID of [extract_formids] to a plugin:
    its report is the one for an empty table. *)
Theorem loadorder_txt_plugins (loadorder_file : string + list string)
    (autoscan_report : list string) :
  match loadorder_scan_loadorder_txt loadorder_file autoscan_report with
  | (loadorder_plugins, plugins_loaded, autoscan_report') =>
      NoDup loadorder_plugins.*1 ∧
      Forall (fun item => item.2 = "LO" ∧ item.1 ≠ "" ∧ strip item.1 = item.1)
        loadorder_plugins ∧
      (plugins_loaded = true ↔ loadorder_plugins ≠ []) ∧
      match loadorder_file with
      | inr loadorder_data =>
          autoscan_report' = autoscan_report ++ loadorder_messages ∧
          (length loadorder_plugins <= length loadorder_data - 1)%nat ∧
          ∀ header,
            (loadorder_scan_loadorder_txt (inr (header :: drop 1 loadorder_data))
               autoscan_report).1.1 = loadorder_plugins
      | inl e =>
          autoscan_report' =
            autoscan_report ++ loadorder_messages ++
            ["Error reading loadorder.txt: " +:+ e] ∧
          loadorder_plugins = []
      end ∧
      ∀ segment_callstack report,
        formid_match show_formid_values formid_db_exists crashgen_name get_entry
          (extract_formids regex_space segment_callstack) loadorder_plugins
          report =
        formid_match show_formid_values formid_db_exists crashgen_name get_entry
          (extract_formids regex_space segment_callstack) [] report
  end.
Proof.
  unfold loadorder_scan_loadorder_txt.
  set (plugins := match loadorder_file with
                  | inr loadorder_data =>
                      if (1 <? length loadorder_data)%nat
                      then fold_left loadorder_entry (drop 1 loadorder_data) []
                      else []
                  | inl _ => []
                  end).
  assert (Hplugins : NoDup plugins.*1 ∧ Forall from_file plugins).
  { unfold plugins. destruct loadorder_file as [e|loadorder_data];
      [split; constructor|].
    destruct (1 <? length loadorder_data)%nat; [|split; constructor].
    destruct (loadorder_fold_ok (drop 1 loadorder_data) [])
      as (Hd & Ha & _); [constructor|constructor|done]. }
  destruct Hplugins as [Hdup Hall].
  assert (Hresult :
    (let '(loadorder_plugins, autoscan_report0) :=
       match loadorder_file with
       | inr loadorder_data =>
           (if (1 <? length loadorder_data)%nat
            then fold_left loadorder_entry (drop 1 loadorder_data) []
            else [],
            append_or_extend (Tuple loadorder_messages) autoscan_report)
       | inl e =>
           ([],
            append_or_extend (Str ("Error reading loadorder.txt: " +:+ e))
              (append_or_extend (Tuple loadorder_messages) autoscan_report))
       end in
     (loadorder_plugins,
      match loadorder_plugins with [] => false | _ => true end,
      autoscan_report0)) =
    (plugins, match plugins with [] => false | _ => true end,
     match loadorder_file with
     | inr _ => autoscan_report ++ loadorder_messages
     | inl e => autoscan_report ++ loadorder_messages ++
                ["Error reading loadorder.txt: " +:+ e]
     end)).
  { unfold plugins. destruct loadorder_file as [e|loadorder_data]; simpl.
    - by rewrite <- app_assoc.
    - done. }
  rewrite Hresult. clear Hresult.
  split_and!; [done|done| | |].
  - by destruct plugins.
  - destruct loadorder_file as [e|loadorder_data]; [done|].
    split_and!; [done| |].
    + unfold plugins. destruct (Nat.ltb_spec 1 (length loadorder_data)); [|simpl; lia].
      destruct (loadorder_fold_ok (drop 1 loadorder_data) [])
        as (_ & _ & Hl); [constructor|constructor|].
      rewrite length_drop in Hl. simpl in Hl. lia.
    + intros header. simpl. unfold plugins.
      destruct loadorder_data as [|first [|second rest]]; try done.
  - intros segment_callstack report.
    destruct (extract_formids_values regex_space segment_callstack)
      as [Hvalues _].
    rewrite (formid_match_values show_formid_values formid_db_exists
               crashgen_name get_entry _ plugins report Hvalues).
    replace (filter (fun p => hex_pair p.2 = true) plugins) with
      (@nil (string * string)); [done|].
    clear -Hall. induction plugins as [|[name status] rest IH]; [done|].
    apply Forall_cons in Hall as [(Hlo & _) Hall]. simpl in Hlo. subst status.
    rewrite filter_cons. rewrite decide_False by done. by apply IH.
Qed.

End LoadOrderFile.


(** ** Plugins on the call stack *)

Section PluginMatchFacts.
Import Py Report PluginAnalyzer FormIDAnalyzer Notions MoreCounting MorePlugins.
Variable crashgen_name : string.
Variable lower_plugins_ignore : list string.

Local Abbreviation ignored := (fun plugin : string =>
  existsb (String.eqb plugin) lower_plugins_ignore).

(** *** The order of the listing *)

Lemma leb_le a b : String.leb a b = true ↔ String.le a b.
Proof. unfold String.le. by rewrite Is_true_true. Qed.

Lemma rank_le_spec a b :
  rank_le a b ↔ (b.2 < a.2)%nat ∨ a.2 = b.2 ∧ String.le a.1 b.1.
Proof.
  unfold rank_le, rank_leb.
  rewrite orb_true_iff, andb_true_iff, Nat.ltb_lt, Nat.eqb_eq, leb_le. done.
Qed.

#[local] Instance rank_le_trans : Transitive rank_le.
Proof.
  intros a b c. rewrite !rank_le_spec.
  intros [?|[? Hab]] [?|[? Hbc]]; try (left; lia).
  right. split; [congruence|]. by etrans.
Qed.

#[local] Instance rank_le_total : Total rank_le.
Proof.
  intros a b. rewrite !rank_le_spec.
  destruct (lt_eq_lt_dec a.2 b.2) as [[?|Heq]|?]; [right; by left| |left; by left].
  destruct (total String.le a.1 b.1); [left|right]; right; done.
Qed.

#[local] Instance rank_le_antisymm : AntiSymm eq rank_le.
Proof.
  intros [a n] [b m]. rewrite !rank_le_spec. simpl.
  intros [?|[? Hab]] [?|[? Hba]]; try lia.
  f_equal; [|done]. by apply (anti_symm String.le).
Qed.

(** *** The counter *)

Lemma counter_add_well x c : well_counted c -> well_counted (counter_add x c).
Proof.
  intros [Hdup Hpos]. split.
  - rewrite keys_add. destruct (existsb (String.eqb x) c.*1) eqn:Hx;
      [by rewrite app_nil_r|].
    apply NoDup_app. split_and!; [done| |apply NoDup_singleton].
    intros y Hy ->%list_elem_of_singleton. by apply existsb_eqb_elem in Hx.
  - clear Hdup. induction c as [|[y n] c IH]; simpl.
    + apply Forall_singleton. simpl. lia.
    + apply Forall_cons in Hpos as [Hy Hpos].
      destruct (String.eqb x y); apply Forall_cons; simpl in *.
      * split; [lia|done].
      * split; [done|by apply IH].
Qed.

Lemma match_step_count k line c plugin :
  count_of k (match_step lower_plugins_ignore line c plugin) =
  (count_of k c + hit lower_plugins_ignore k line plugin)%nat.
Proof.
  unfold match_step, hit.
  destruct (ignored plugin); simpl; [lia|].
  destruct (contains plugin line); simpl; [|lia]. apply count_of_add.
Qed.

Lemma match_step_well line c plugin :
  well_counted c -> well_counted (match_step lower_plugins_ignore line c plugin).
Proof.
  intros Hc. unfold match_step.
  destruct (ignored plugin); [done|].
  destruct (contains plugin line); [by apply counter_add_well|done].
Qed.

Lemma inner_fold k line plugins : ∀ c,
  well_counted c ->
  well_counted (fold_left (match_step lower_plugins_ignore line) plugins c) ∧
  count_of k (fold_left (match_step lower_plugins_ignore line) plugins c) =
  (count_of k c + sum_list (map (hit lower_plugins_ignore k line) plugins))%nat.
Proof.
  induction plugins as [|plugin rest IH]; intros c Hc; simpl.
  - split; [done|lia].
  - destruct (IH _ (match_step_well line c plugin Hc)) as [Hwell Hcount].
    split; [done|]. rewrite Hcount, match_step_count. lia.
Qed.

(** With each plugin once in the set, a line counts once for a plugin. *)
Lemma hits_of_set k line plugins :
  NoDup plugins ->
  sum_list (map (hit lower_plugins_ignore k line) plugins) =
  if existsb (String.eqb k) plugins && negb (ignored k) && contains k line
  then 1%nat else 0%nat.
Proof.
  induction 1 as [|plugin rest Hout _ IH]; [done|]. simpl. rewrite IH.
  unfold hit. rewrite (String.eqb_sym k plugin).
  destruct (String.eqb_spec plugin k) as [->|Hne]; simpl.
  - replace (existsb (String.eqb k) rest) with false.
    + simpl. rewrite andb_true_r. destruct (negb (ignored k) && contains k line); lia.
    + symmetry. apply not_true_is_false. intros Hin.
      apply existsb_exists in Hin as (y & Hy & ->%String.eqb_eq).
      by apply list_elem_of_In in Hy.
  - rewrite !andb_false_r. done.
Qed.

Lemma outer_fold k plugins lines : ∀ c,
  NoDup plugins -> well_counted c ->
  let c' := fold_left
              (fun plugins_matches line =>
                 fold_left (match_step lower_plugins_ignore line) plugins
                   plugins_matches)
              lines c in
  well_counted c' ∧
  count_of k c' =
  (count_of k c +
   if existsb (String.eqb k) plugins && negb (ignored k)
   then length (filter (fun line => contains k line = true) lines)
   else 0)%nat.
Proof.
  induction lines as [|line rest IH]; intros c Hdup Hc; simpl.
  - split; [done|]. destruct (_ && _); lia.
  - destruct (inner_fold k line plugins c Hc) as [Hwell Hcount].
    destruct (IH _ Hdup Hwell) as [Hwell' Hcount'].
    split; [done|]. rewrite Hcount', Hcount, (hits_of_set k line plugins Hdup).
    rewrite filter_cons.
    destruct (existsb (String.eqb k) plugins && negb (ignored k)); simpl.
    + destruct (contains k line); simpl; lia.
    + lia.
Qed.

Lemma count_of_missing k c : k ∉ c.*1 -> count_of k c = 0%nat.
Proof.
  induction c as [|[y n] c IH]; [done|]. simpl. intros Hout.
  destruct (String.eqb_spec k y) as [->|_].
  - destruct Hout. apply list_elem_of_here.
  - apply IH. intros ?. apply Hout. by apply list_elem_of_further.
Qed.

Lemma well_counted_elem k n c :
  well_counted c -> (k, n) ∈ c ↔ count_of k c = n ∧ (0 < n)%nat.
Proof.
  intros [Hdup Hpos]. split.
  - intros Hin. split; [by apply count_of_elem|].
    rewrite Forall_forall in Hpos. apply (Hpos _ Hin).
  - intros [<- Hn]. destruct (decide (k ∈ c.*1)) as [Hin|Hout].
    + apply list_elem_of_fmap in Hin as ([k' n'] & -> & Hin). simpl.
      by rewrite (count_of_elem k' n' c Hdup Hin).
    + rewrite (count_of_missing k c Hout) in Hn. lia.
Qed.

Lemma existsb_eqb_true k (l : list string) :
  existsb (String.eqb k) l = true ↔ k ∈ l.
Proof.
  rewrite existsb_exists. split.
  - intros (y & Hy & ->%String.eqb_eq). by apply list_elem_of_In.
  - intros Hk. exists k. split; [by apply list_elem_of_In|apply String.eqb_refl].
Qed.

(** The counter after the two loops. *)
Lemma plugins_matches_spec plugins lines :
  NoDup plugins ->
  let c := fold_left
             (fun plugins_matches line =>
                fold_left (match_step lower_plugins_ignore line) plugins
                  plugins_matches)
             (filter (fun line => contains "modified by:" line = false) lines)
             [] in
  well_counted c ∧
  ∀ k n, (k, n) ∈ c ↔
         k ∈ plugins ∧ (k ∉ lower_plugins_ignore) ∧
         n = mentions k lines ∧ (0 < n)%nat.
Proof.
  intros Hdup c.
  assert (Hempty : well_counted []) by (split; constructor).
  assert (Hwell : well_counted c).
  { by destruct (outer_fold "" plugins
                   (filter (fun line => contains "modified by:" line = false) lines)
                   [] Hdup Hempty). }
  split; [done|]. intros k n.
  destruct (outer_fold k plugins
              (filter (fun line => contains "modified by:" line = false) lines)
              [] Hdup Hempty) as [_ Hcount].
  fold c in Hcount. simpl in Hcount.
  rewrite (well_counted_elem k n c Hwell), Hcount. fold (mentions k lines).
  destruct (existsb (String.eqb k) plugins) eqn:Hin; simpl.
  - apply existsb_eqb_true in Hin.
    destruct (ignored k) eqn:Hign; simpl.
    + apply existsb_eqb_true in Hign. split; [lia|]. by intros (_ & ? & _).
    + assert (k ∉ lower_plugins_ignore).
      { intros ?%existsb_eqb_true. congruence. }
      split; [intros [<- ?]; done|]. by intros (_ & _ & -> & ?).
  - assert (k ∉ plugins).
    { intros ?%existsb_eqb_true. congruence. }
    split; [lia|]. by intros (? & _).
Qed.

Lemma plugin_lines_fold (items : list (string * nat)) : ∀ report,
  fold_left (fun report item => append_or_extend (Str (plugin_line item)) report)
    items report =
  report ++ map plugin_line items.
Proof.
  induction items as [|item items IH]; intros report; simpl.
  - by rewrite app_nil_r.
  - rewrite IH. unfold append_or_extend. by rewrite <- app_assoc.
Qed.

(** Extra X23.  With each plugin once in the set, [plugin_match] lists
    exactly the plugins of the set that are not ignored and are named on
    some line of the call stack without [modified by:], each once, with the
    number of such lines that name it; the listing is by falling count and,
    for equal counts, by rising name.  So the report does not depend on the
    order in which the set is iterated. *)
Theorem plugin_match_ranking
    (segment_callstack_lower crashlog_plugins_lower autoscan_report : list string) :
  NoDup crashlog_plugins_lower ->
  (∃ ranking : list (string * nat),
     plugin_match crashgen_name lower_plugins_ignore segment_callstack_lower
       crashlog_plugins_lower autoscan_report =
     autoscan_report ++
     match ranking with
     | [] => ["* COULDN'T FIND ANY PLUGIN SUSPECTS *" +:+ NL +:+ NL]
     | _ => ["The following PLUGINS were found in the CRASH STACK:" +:+ NL]
            ++ map plugin_line ranking ++ plugin_notes crashgen_name
     end ∧
     StronglySorted rank_le ranking ∧
     NoDup ranking.*1 ∧
     ∀ plugin count,
       (plugin, count) ∈ ranking ↔
       plugin ∈ crashlog_plugins_lower ∧ (plugin ∉ lower_plugins_ignore) ∧
       count = mentions plugin segment_callstack_lower ∧ (0 < count)%nat) ∧
  ∀ reordered,
    reordered ≡ₚ crashlog_plugins_lower ->
    plugin_match crashgen_name lower_plugins_ignore segment_callstack_lower
      reordered autoscan_report =
    plugin_match crashgen_name lower_plugins_ignore segment_callstack_lower
      crashlog_plugins_lower autoscan_report.
Proof.
  intros Hdup.
  assert (Hshape : ∀ plugins,
    plugin_match crashgen_name lower_plugins_ignore segment_callstack_lower
      plugins autoscan_report =
    let c := fold_left
               (fun plugins_matches line =>
                  fold_left (match_step lower_plugins_ignore line) plugins
                    plugins_matches)
               (filter (fun line => contains "modified by:" line = false)
                  segment_callstack_lower) [] in
    autoscan_report ++
    match merge_sort rank_le c with
    | [] => ["* COULDN'T FIND ANY PLUGIN SUSPECTS *" +:+ NL +:+ NL]
    | _ => ["The following PLUGINS were found in the CRASH STACK:" +:+ NL]
           ++ map plugin_line (merge_sort rank_le c) ++ plugin_notes crashgen_name
    end).
  { intros plugins. unfold plugin_match. simpl.
    set (c := fold_left _ _ []).
    pose proof (merge_sort_Permutation rank_le c) as Hperm.
    destruct c as [|item c'] eqn:Hc.
    - reflexivity.
    - rewrite <- Hc in *. rewrite plugin_lines_fold.
      destruct (merge_sort rank_le c) as [|r rs] eqn:Hsorted.
      + symmetry in Hperm. apply Permutation_nil_r in Hperm. congruence.
      + unfold append_or_extend. by rewrite <- !app_assoc. }
  split.
  - destruct (plugins_matches_spec crashlog_plugins_lower
                segment_callstack_lower Hdup) as [[Hkeys Hpos] Hmem].
    eexists. split; [apply Hshape|]. simpl.
    set (c := fold_left _ _ []) in *.
    pose proof (merge_sort_Permutation rank_le c) as Hperm.
    split_and!.
    + apply StronglySorted_merge_sort; apply _.
    + by rewrite Hperm.
    + intros plugin count. by rewrite Hperm.
  - intros reordered Hre. rewrite !Hshape. simpl.
    assert (Hdup' : NoDup reordered) by by rewrite Hre.
    destruct (plugins_matches_spec crashlog_plugins_lower
                segment_callstack_lower Hdup) as [[Hkeys Hpos] Hmem].
    destruct (plugins_matches_spec reordered
                segment_callstack_lower Hdup') as [[Hkeys' Hpos'] Hmem'].
    simpl in *.
    set (c := fold_left _ _ []) in *.
    set (c' := fold_left _ (filter _ segment_callstack_lower) []) in Hkeys', Hpos', Hmem' |- *.
    assert (Hsame : merge_sort rank_le c' = merge_sort rank_le c).
    { apply (StronglySorted_unique rank_le).
      - apply StronglySorted_merge_sort; apply _.
      - apply StronglySorted_merge_sort; apply _.
      - rewrite !merge_sort_Permutation.
        apply NoDup_Permutation.
        + by eapply NoDup_fmap_1.
        + by eapply NoDup_fmap_1.
        + intros [k n]. rewrite Hmem, Hmem'. by rewrite Hre. }
    by rewrite Hsame.
Qed.

End PluginMatchFacts.

Section PluginMatchExample.
Import Py Report PluginAnalyzer FormIDAnalyzer Notions MoreCounting MorePlugins.

Lemma plugin_match_ranking_witness :
  (∃ ranking : list (string * nat),
     plugin_match "Buffout 4" ["fallout4.esm"] sample_stack
       ["weapons.esp"; "armor.esp"; "fallout4.esm"] [] =
     [] ++
     match ranking with
     | [] => ["* COULDN'T FIND ANY PLUGIN SUSPECTS *" +:+ NL +:+ NL]
     | _ => ["The following PLUGINS were found in the CRASH STACK:" +:+ NL]
            ++ map plugin_line ranking ++ plugin_notes "Buffout 4"
     end ∧
     StronglySorted rank_le ranking ∧
     NoDup ranking.*1 ∧
     ∀ plugin count,
       (plugin, count) ∈ ranking ↔
       plugin ∈ ["weapons.esp"; "armor.esp"; "fallout4.esm"] ∧
       (plugin ∉ ["fallout4.esm"]) ∧
       count = mentions plugin sample_stack ∧ (0 < count)%nat) ∧
  ∀ reordered,
    reordered ≡ₚ ["weapons.esp"; "armor.esp"; "fallout4.esm"] ->
    plugin_match "Buffout 4" ["fallout4.esm"] sample_stack reordered [] =
    plugin_match "Buffout 4" ["fallout4.esm"] sample_stack
      ["weapons.esp"; "armor.esp"; "fallout4.esm"] [].
Proof.
  apply (plugin_match_ranking "Buffout 4" ["fallout4.esm"] sample_stack
           ["weapons.esp"; "armor.esp"; "fallout4.esm"] []).
  apply (bool_decide_eq_true_1
           (NoDup ["weapons.esp"; "armor.esp"; "fallout4.esm"])).
  vm_compute. reflexivity.
Defined.

End PluginMatchExample.


(** ** The DLL notice *)

Section DllCrash.
Import Py Report SuspectScanner Notions.

Lemma prefix_map (f : ascii -> ascii) sub : ∀ s,
  String.prefix sub s = true ->
  String.prefix (map_string f sub) (map_string f s) = true.
Proof.
  induction sub as [|a sub IH]; intros s Hs; [by destruct s|].
  destruct s as [|c s]; simpl in *; [done|].
  destruct (ascii_dec a c) as [->|]; [|done].
  destruct (ascii_dec (f c) (f c)); [by apply IH|done].
Qed.

(** What is in a text is in it after any change of letters, changed alike. *)
Lemma contains_map (f : ascii -> ascii) sub s :
  contains sub s = true -> contains (map_string f sub) (map_string f s) = true.
Proof.
  induction s as [|c s IH]; simpl.
  - rewrite orb_false_r. intros Hs. rewrite orb_false_r.
    by apply (prefix_map f sub "").
  - intros [Hs|Hs]%orb_true_iff; apply orb_true_iff.
    + left. by apply (prefix_map f sub (String c s)).
    + right. by apply IH.
Qed.

(** Extra X24.  [check_dll_crash] looks at the main error without regard to
    the case of letters: a main error that holds the library name tbbmalloc
    in any spelling gets no notice, whatever else it names; one that holds
    the extension .dll in any spelling, and tbbmalloc in none, gets the two
    lines of the notice appended. *)
Theorem check_dll_crash_any_case (crashlog_mainerror word : string)
    (autoscan_report : list string) :
  contains word crashlog_mainerror = true ->
  (lower word = "tbbmalloc" ->
   check_dll_crash crashlog_mainerror autoscan_report = autoscan_report) ∧
  (lower word = ".dll" ->
   contains "tbbmalloc" (lower crashlog_mainerror) = false ->
   check_dll_crash crashlog_mainerror autoscan_report =
   autoscan_report ++ dll_notice).
Proof.
  intros Hword. apply (contains_map lower_latin) in Hword.
  fold (lower word) in Hword. fold (lower crashlog_mainerror) in Hword.
  unfold check_dll_crash. split.
  - intros Hlow. rewrite Hlow in Hword. rewrite Hword.
    by rewrite andb_false_r.
  - intros Hlow Hfree. rewrite Hlow in Hword. by rewrite Hword, Hfree.
Qed.

Lemma check_dll_crash_any_case_witness :
  (lower ".DLL" = "tbbmalloc" ->
   check_dll_crash
     "Unhandled exception at 0x7FFA1B2C3D4E nvwgf2umx.DLL+1B2C3D4E" ["# report"]
   = ["# report"]) ∧
  (lower ".DLL" = ".dll" ->
   contains "tbbmalloc"
     (lower "Unhandled exception at 0x7FFA1B2C3D4E nvwgf2umx.DLL+1B2C3D4E")
   = false ->
   check_dll_crash
     "Unhandled exception at 0x7FFA1B2C3D4E nvwgf2umx.DLL+1B2C3D4E" ["# report"]
   = ["# report"] ++ dll_notice).
Proof.
  apply (check_dll_crash_any_case
           "Unhandled exception at 0x7FFA1B2C3D4E nvwgf2umx.DLL+1B2C3D4E" ".DLL").
  vm_compute. reflexivity.
Defined.

End DllCrash.


(** ** The names of the modules *)

Section ModuleNameFacts.
Import Py Report FormIDAnalyzer Notions ModuleNames.

Lemma same_nocase_length a : ∀ b, same_nocase a b -> String.length a = String.length b.
Proof.
  unfold same_nocase. induction a as [|x a IH]; intros [|y b] Heq; simpl in *;
    try done.
  injection Heq as _ Heq. f_equal. by apply IH.
Qed.

Lemma append_empty_r s : s +:+ "" = s.
Proof. induction s as [|c s IH]; [done|]. by rewrite append_cons, IH. Qed.

Lemma str_take_app l r : str_take (String.length l) (l +:+ r) = l.
Proof.
  unfold str_take. induction l as [|c l IH].
  - simpl. by destruct r.
  - rewrite ?append_cons. simpl. by rewrite IH.
Qed.

Lemma dll_prefix_eq s :
  dll_prefix s =
  match match_literal ".dll" s with
  | Some _ => Some (str_take 4 s)
  | None =>
      match s with
      | EmptyString => None
      | String c s' =>
          if PluginAnalyzer.is_dot c then String c <$> dll_prefix s' else None
      end
  end.
Proof. by destruct s. Qed.

(** The group is a part of the text from its start, and ends in the
    extension. *)
Lemma dll_prefix_split s : ∀ g,
  dll_prefix s = Some g ->
  ∃ p l rest, g = p +:+ l ∧ s = g +:+ rest ∧ same_nocase l ".dll".
Proof.
  induction s as [|c s IH]; intros g Hg.
  - done.
  - rewrite dll_prefix_eq in Hg.
    destruct (match_literal ".dll" (String c s)) as [r|] eqn:Hlit.
    + apply match_literal_split in Hlit as (l & Hs & Hl).
      rewrite Hs in Hg. pose proof (same_nocase_length _ _ Hl) as Hlen.
      change 4%nat with (String.length ".dll") in Hg. rewrite <- Hlen in Hg.
      rewrite str_take_app in Hg. simplify_eq.
      exists "", g, r. rewrite append_empty_l. split_and!; done.
    + destruct (PluginAnalyzer.is_dot c); [|done].
      destruct (dll_prefix s) as [g'|] eqn:Hg'; [|done]. simpl in Hg.
      simplify_eq.
      destruct (IH g' eq_refl) as (p & l & rest & -> & Hs & Hl).
      exists (String c p), l, rest. split_and!; [done| |done].
      by rewrite Hs at 1.
Qed.

Lemma match_literal_longer lit : ∀ s rest r,
  match_literal lit s = Some r -> match_literal lit (s +:+ rest) = Some (r +:+ rest).
Proof.
  induction lit as [|a lit IH]; intros s rest r Hs; simpl in *.
  - by simplify_eq.
  - destruct s as [|c s]; [done|]. rewrite append_cons.
    destruct (Ascii.eqb (lower_char a) (lower_char c)); [|done]. by apply IH.
Qed.

(** The group matches again, and gives itself. *)
Lemma dll_prefix_again s : ∀ g, dll_prefix s = Some g -> dll_prefix g = Some g.
Proof.
  induction s as [|c s IH]; intros g Hg; [done|].
  rewrite dll_prefix_eq in Hg.
  destruct (match_literal ".dll" (String c s)) as [r|] eqn:Hlit.
  - apply match_literal_split in Hlit as (l & Hs & Hl).
    rewrite Hs in Hg. pose proof (same_nocase_length _ _ Hl) as Hlen.
    change 4%nat with (String.length ".dll") in Hg. rewrite <- Hlen in Hg.
    rewrite str_take_app in Hg. simplify_eq.
    destruct g as [|g0 g]; [done|]. rewrite dll_prefix_eq.
    assert (Hm : match_literal ".dll" (String g0 g) = Some "").
    { pose proof (match_literal_app ".dll" (String g0 g) "" Hl) as Hm.
      by rewrite append_empty_r in Hm. }
    rewrite Hm. f_equal.
    pose proof (str_take_app (String g0 g) "") as Htake.
    rewrite append_empty_r, Hlen in Htake. exact Htake.
  - destruct (PluginAnalyzer.is_dot c) eqn:Hc; [|done].
    destruct (dll_prefix s) as [g'|] eqn:Hg'; [|done]. simpl in Hg.
    simplify_eq. rewrite dll_prefix_eq.
    destruct (match_literal ".dll" (String c g')) as [r|] eqn:Hlit'.
    + destruct (dll_prefix_split s g' Hg') as (p & l & rest & _ & Hs & _).
      apply (match_literal_longer _ _ rest) in Hlit'.
      rewrite append_cons, <- Hs in Hlit'. congruence.
    + rewrite Hc, (IH g' eq_refl). done.
Qed.

Lemma rstrip_last s : ∀ c,
  isspace c = false ->
  rstrip (s +:+ String c EmptyString) = s +:+ String c EmptyString.
Proof.
  induction s as [|x s IH]; intros c Hc.
  - rewrite append_empty_l. simpl. by rewrite Hc.
  - rewrite append_cons. simpl. rewrite (IH c Hc).
    destruct (s +:+ String c "") eqn:Hs; [|done].
    destruct s; discriminate.
Qed.

Lemma lower_l d : lower_char d = "l"%char -> isspace d = false.
Proof.
  destruct d as [[] [] [] [] [] [] [] []]; vm_compute; intros H;
    first [discriminate | done].
Qed.

(** The group of a stripped text is stripped. *)
Lemma dll_prefix_stripped t g :
  strip t = t -> dll_prefix t = Some g -> strip g = g.
Proof.
  intros Ht Hg.
  destruct (dll_prefix_split t g Hg) as (p & l & rest & Hgl & Hs & Hl).
  assert (Hlast : ∃ q d, g = q +:+ String d "" ∧ isspace d = false).
  { unfold same_nocase in Hl.
    destruct l as [|a [|b [|c [|d [|e l]]]]]; try done.
    injection Hl as _ _ _ Hd. apply lower_l in Hd.
    exists (p +:+ String a (String b (String c ""))), d. split; [|done].
    rewrite Hgl. clear. induction p as [|x p IH]; [done|].
    by rewrite !append_cons, IH. }
  destruct Hlast as (q & d & Hq & Hd).
  assert (Hlead : match t with
                  | EmptyString => True
                  | String c _ => isspace c = false
                  end).
  { rewrite <- Ht. unfold strip. apply rstrip_no_lead, lstrip_no_lead. }
  unfold strip. rewrite (lstrip_id g).
  - rewrite Hq. by apply rstrip_last.
  - destruct g as [|g0 g']; [done|].
    rewrite Hs in Hlead. by rewrite append_cons in Hlead.
Qed.

(** A name is what [module_name] gives for itself. *)
Lemma module_name_fixed text :
  strip (module_name text) = module_name text ∧
  module_name (module_name text) = module_name text.
Proof.
  assert (Hname : module_name text =
                  match dll_prefix (strip text) with
                  | Some group => group
                  | None => strip text
                  end) by done.
  rewrite Hname. clear Hname.
  destruct (dll_prefix (strip text)) as [g|] eqn:Hg.
  - pose proof (dll_prefix_stripped _ _ (strip_idem text) Hg) as Hstrip.
    split; [done|]. unfold module_name.
    by rewrite Hstrip, (dll_prefix_again _ _ Hg).
  - split; [apply strip_idem|]. unfold module_name.
    by rewrite strip_idem, Hg.
Qed.

(** Extra X25.  Every name that [extract_module_names] returns is without
    white space at either end and is cut from the start of one of the texts,
    stripped; a name that holds the extension .dll, in any spelling, ends
    with its first occurrence.  Cleaning the names once more changes
    nothing: the function gives its own result back. *)
Theorem extract_module_names_idempotent (module_texts : gset string) :
  extract_module_names (extract_module_names module_texts) =
    extract_module_names module_texts ∧
  ∀ name, name ∈ extract_module_names module_texts ->
    strip name = name ∧
    (∃ text rest, text ∈ module_texts ∧ strip text = name +:+ rest) ∧
    match dll_prefix name with
    | Some group => group = name
    | None => True
    end.
Proof.
  assert (Hmap : ∀ X : gset string,
            extract_module_names X = set_map module_name X).
  { intros X. unfold extract_module_names.
    destruct (decide (X = ∅)) as [->|]; [|done]. by rewrite set_map_empty. }
  rewrite !Hmap. split.
  - apply set_eq. intros x. rewrite !elem_of_map. split.
    + intros (y & -> & (z & -> & Hz)%elem_of_map). exists z. split; [|done].
      by destruct (module_name_fixed z).
    + intros (z & -> & Hz). exists (module_name z). split.
      * by destruct (module_name_fixed z).
      * apply elem_of_map. by exists z.
  - intros name (text & -> & Htext)%elem_of_map.
    destruct (module_name_fixed text) as [Hstrip Hfixed].
    split_and!; [done| |].
    + exists text. unfold module_name.
      destruct (dll_prefix (strip text)) as [g|] eqn:Hg.
      * destruct (dll_prefix_split _ _ Hg) as (_ & _ & rest & _ & Hs & _).
        by exists rest.
      * exists "". split; [done|]. by rewrite append_empty_r.
    + unfold module_name in *.
      destruct (dll_prefix (strip text)) as [g|] eqn:Hg.
      * by rewrite (dll_prefix_again _ _ Hg).
      * rewrite strip_idem, Hg in Hfixed.
        destruct (dll_prefix (strip text)); done.
Qed.

End ModuleNameFacts.


(** ** Ignored plugins *)

Section IgnoredPlugins.
Import Py Report PluginAnalyzer Notions MorePlugins.

Lemma dict_lookup_set signal key value d :
  dict_lookup signal (dict_set key value d) =
  if String.eqb key signal then Some value else dict_lookup signal d.
Proof.
  induction d as [|[k v] d IH]; simpl; [done|].
  destruct (String.eqb_spec k key) as [->|Hk]; simpl.
  - by destruct (String.eqb key signal).
  - destruct (String.eqb_spec k signal) as [->|Hs].
    + by destruct (String.eqb_spec key signal) as [->|].
    + apply IH.
Qed.

Lemma lower_keys_fold signal (plugins : list (string * string)) : ∀ d,
  dict_lookup signal
    (fold_left (fun d item => dict_set (lower item.1) item.1 d) plugins d) =
  match last (filter (fun k => lower k = signal) plugins.*1) with
  | Some k => Some k
  | None => dict_lookup signal d
  end.
Proof.
  induction plugins as [|[k v] rest IH]; intros d; [done|].
  cbn [fold_left fmap list_fmap fst]. rewrite IH, dict_lookup_set.
  rewrite filter_cons. cbn [fst].
  destruct (String.eqb_spec (lower k) signal) as [Hk|Hk].
  - rewrite decide_True by done.
    destruct (filter _ (rest.*1)) as [|k' ks] eqn:Hf; [done|].
    change (last (k :: k' :: ks)) with (last (k' :: ks)).
    destruct (last_is_Some (k' :: ks)) as [_ [k0 ->]]; done.
  - by rewrite decide_False.
Qed.

(** The key that the lower-case dictionary holds for a name. *)
Lemma lower_keys_lookup signal (plugins : list (string * string)) :
  dict_lookup signal (lower_keys plugins) = original_of plugins signal.
Proof.
  unfold lower_keys, original_of. rewrite lower_keys_fold.
  by destruct (last _).
Qed.

Lemma original_of_elem (plugins : list (string * string)) signal k :
  original_of plugins signal = Some k -> k ∈ plugins.*1 ∧ lower k = signal.
Proof.
  unfold original_of. intros Hlast%last_Some_elem_of.
  by apply list_elem_of_filter in Hlast as [? ?].
Qed.

Lemma filter_all {A} (P : A -> Prop) `{∀ x, Decision (P x)} (l : list A) :
  Forall P l -> filter P l = l.
Proof.
  induction 1 as [|x l Hx _ IH]; [done|].
  rewrite filter_cons, decide_True by done. by rewrite IH.
Qed.

Lemma filter_none {A} (P : A -> Prop) `{∀ x, Decision (P x)} (l : list A) :
  Forall (fun x => ¬ P x) l -> filter P l = [].
Proof.
  induction 1 as [|x l Hx _ IH]; [done|].
  rewrite filter_cons, decide_False by done. by rewrite IH.
Qed.

Lemma filter_agree {A} (P Q : A -> Prop) `{∀ x, Decision (P x)}
    `{∀ x, Decision (Q x)} (l : list A) :
  (∀ x, x ∈ l -> P x ↔ Q x) -> filter P l = filter Q l.
Proof.
  induction l as [|x l IH]; intros Hpq; [done|].
  rewrite !filter_cons.
  assert (Hx : P x ↔ Q x) by apply Hpq, list_elem_of_here.
  rewrite IH by (intros y Hy; by apply Hpq, list_elem_of_further).
  destruct (decide (P x)), (decide (Q x)); tauto || done.
Qed.

Lemma dict_del_spec k (d : list (string * string)) :
  NoDup d.*1 -> k ∈ d.*1 ->
  dict_del k d = Some (filter (fun item => item.1 ≠ k) d).
Proof.
  induction d as [|[k' v] d IH]; intros Hdup Hin; [by apply elem_of_nil in Hin|].
  cbn [fmap list_fmap fst] in *. apply NoDup_cons in Hdup as [Hout Hdup].
  simpl. rewrite filter_cons. cbn [fst].
  destruct (String.eqb_spec k' k) as [->|Hne].
  - rewrite decide_False by (by intros []). f_equal.
    symmetry. apply filter_all. apply Forall_forall. intros [k1 v1] Hitem.
    simpl. intros ->. apply Hout. apply list_elem_of_fmap. by exists (k, v1).
  - rewrite decide_True by done.
    apply elem_of_cons in Hin as [?|Hin]; [done|].
    by rewrite (IH Hdup Hin).
Qed.

(** The loop over the names to ignore, on any part of the dictionary that
    still holds the plugins the names stand for. *)
Lemma ignore_fold (plugins : list (string * string)) signals : ∀ d,
  NoDup signals -> NoDup d.*1 ->
  (∀ signal k, signal ∈ signals -> original_of plugins signal = Some k ->
               k ∈ d.*1) ->
  fold_left (ignore_step (lower_keys plugins)) signals (Some d) =
  Some (filter (fun item => item.1 ∉ omap (original_of plugins) signals) d).
Proof.
  induction signals as [|signal rest IH]; intros d Hsig Hdup Hthere.
  - simpl. f_equal. symmetry. apply filter_all, Forall_forall.
    intros item _. apply not_elem_of_nil.
  - apply NoDup_cons in Hsig as [Hfresh Hsig]. simpl.
    rewrite lower_keys_lookup.
    destruct (original_of plugins signal) as [k|] eqn:Horig.
    + assert (Hk : k ∈ d.*1).
      { apply (Hthere signal); [apply list_elem_of_here|done]. }
      rewrite (dict_del_spec k d Hdup Hk).
      rewrite IH; [| done | |].
      * f_equal. rewrite list_filter_filter. apply filter_agree.
        intros item Hitem. rewrite not_elem_of_cons. tauto.
      * apply (sublist_NoDup _ (d.*1)); [exact Hdup|].
        apply (fmap_sublist fst). apply sublist_filter.
      * intros s k' Hs Hk'.
        assert (Hin : k' ∈ d.*1).
        { apply (Hthere s); [by apply list_elem_of_further|done]. }
        apply list_elem_of_fmap in Hin as ([k1 v1] & -> & Hitem).
        apply list_elem_of_fmap. exists (k1, v1). split; [done|].
        apply list_elem_of_filter. split; [|done]. simpl. intros ->.
        apply original_of_elem in Horig as [_ <-].
        apply original_of_elem in Hk' as [_ <-]. done.
    + apply IH; [done|done|].
      intros s k' Hs. apply Hthere. by apply list_elem_of_further.
Qed.

(** Extra X26.  On a dictionary and a set of names to ignore,
    [filter_ignored_plugins] never fails on its [del]: each name stands for
    at most one plugin, which is still in the dictionary when its turn
    comes.  The plugins that stay keep their order and their status.  A
    plugin goes exactly when its name in lower case is to be ignored and
    no later plugin has the same name in lower case: of plugins that differ
    by the case of letters only, the last one alone is removed. *)
Theorem filter_ignored_plugins_spec
    (ignore_plugins_list : list string)
    (crashlog_plugins : list (string * string)) :
  NoDup ignore_plugins_list -> NoDup crashlog_plugins.*1 ->
  ∃ result,
    filter_ignored_plugins ignore_plugins_list crashlog_plugins = Some result ∧
    sublist result crashlog_plugins ∧
    (∀ item, item ∈ result ↔
             item ∈ crashlog_plugins ∧
             ¬ dropped ignore_plugins_list crashlog_plugins item.1) ∧
    (NoDup (lower <$> crashlog_plugins.*1) ->
     ∀ item, item ∈ result ↔
             item ∈ crashlog_plugins ∧ lower item.1 ∉ ignore_plugins_list).
Proof.
  intros Hsig Hdup.
  assert (Hrun :
    filter_ignored_plugins ignore_plugins_list crashlog_plugins =
    Some (filter (fun item =>
                    item.1 ∉ omap (original_of crashlog_plugins)
                               ignore_plugins_list)
            crashlog_plugins)).
  { unfold filter_ignored_plugins.
    destruct ignore_plugins_list as [|s0 rest] eqn:Hlist.
    - f_equal. symmetry. apply filter_all, Forall_forall.
      intros item _. apply not_elem_of_nil.
    - rewrite <- Hlist in *. apply ignore_fold; [done|done|].
      intros signal k _ Horig. by apply original_of_elem in Horig as [? _]. }
  assert (Hmem : ∀ item : string * string,
    item.1 ∉ omap (original_of crashlog_plugins) ignore_plugins_list ↔
    ¬ dropped ignore_plugins_list crashlog_plugins item.1).
  { intros item. unfold dropped. rewrite list_elem_of_omap. split.
    - intros Hall [Hin Horig]. apply Hall. by eexists.
    - intros Hnot (signal & Hin & Horig). apply Hnot.
      pose proof (original_of_elem _ _ _ Horig) as [_ Hlow].
      by rewrite Hlow. }
  eexists. split; [exact Hrun|]. split_and!.
  - apply sublist_filter.
  - intros item. rewrite list_elem_of_filter, Hmem. tauto.
  - intros Hlower item. rewrite list_elem_of_filter, Hmem.
    split.
    2:{ intros [Hitem Hnot]. split; [|done]. by intros [Hin _]. }
    intros [Hkeep Hitem]. split; [done|].
    + intros Hin. apply Hkeep. split; [done|].
      unfold original_of.
      assert (Hkey : item.1 ∈ crashlog_plugins.*1).
      { apply list_elem_of_fmap. by exists item. }
      clear -Hlower Hkey.
      induction (crashlog_plugins.*1) as [|k ks IH]; [by apply elem_of_nil in Hkey|].
      rewrite fmap_cons in Hlower. apply NoDup_cons in Hlower as [Hout Hlower].
      rewrite filter_cons.
      apply elem_of_cons in Hkey as [<-|Hkey].
      * rewrite decide_True by done.
        rewrite filter_none; [done|].
        apply Forall_forall. intros k' Hk' Heq. apply Hout.
        rewrite <- Heq. by apply list_elem_of_fmap_2.
      * rewrite decide_False.
        { by apply IH. }
        intros Heq. apply Hout. rewrite Heq. by apply list_elem_of_fmap_2.
Qed.

End IgnoredPlugins.

Section IgnoredPluginsExample.
Import Py Report PluginAnalyzer Notions MorePlugins.

Lemma filter_ignored_plugins_spec_witness :
  ∃ result,
    filter_ignored_plugins ["armor.esp"] sample_plugins = Some result ∧
    sublist result sample_plugins ∧
    (∀ item, item ∈ result ↔
             item ∈ sample_plugins ∧
             ¬ dropped ["armor.esp"] sample_plugins item.1) ∧
    (NoDup (lower <$> sample_plugins.*1) ->
     ∀ item, item ∈ result ↔
             item ∈ sample_plugins ∧ lower item.1 ∉ ["armor.esp"]).
Proof.
  apply (filter_ignored_plugins_spec ["armor.esp"] sample_plugins).
  - apply (bool_decide_eq_true_1 (NoDup ["armor.esp"])). vm_compute. reflexivity.
  - apply (bool_decide_eq_true_1 (NoDup sample_plugins.*1)).
    vm_compute. reflexivity.
Defined.

End IgnoredPluginsExample.


(** ** The statistics of a batch *)

Section BatchStats.
Import Py ScanLogs Notions MoreBatch.
Variable replace_existing : bool.
Variable local_dir : string.
Variable scanner_move_unsolved_logs : bool.

Local Abbreviation collect := (collect_result replace_existing local_dir
  scanner_move_unsolved_logs).

Lemma counter_incr_count stats k' v k :
  default 0%Z (counter_incr stats (k', v) !! k) =
  (default 0 (stats !! k) + if String.eqb k' k then v else 0)%Z.
Proof.
  unfold counter_incr. simpl. destruct (String.eqb_spec k' k) as [->|Hne].
  - by rewrite lookup_insert_eq.
  - rewrite lookup_insert_ne by done. lia.
Qed.

Lemma counter_fold_count items k : ∀ stats,
  default 0%Z (fold_left counter_incr items stats !! k) =
  (default 0 (stats !! k) + stat_of k items)%Z.
Proof.
  induction items as [|[k' v] rest IH]; intros stats; simpl; [lia|].
  rewrite IH, counter_incr_count. lia.
Qed.

(** The report is written whenever nothing is to be moved. *)
Lemma write_report_effect_raises fs r e fs' :
  write_report_effect replace_existing local_dir fs (crashlog_file r)
    (autoscan_report r) (trigger_scan_failed r) scanner_move_unsolved_logs
    = (fs', Some e) ->
  trigger_scan_failed r && scanner_move_unsolved_logs = true.
Proof.
  unfold write_report_effect, write_report_to_file.
  destruct (trigger_scan_failed r && scanner_move_unsolved_logs); [done|].
  discriminate.
Qed.

(** What one future does to the count of a key, and to the list. *)
Lemma collect_result_count st f k :
  ∃ write_failed : bool,
    count_for (collect st f) k =
    (count_for st k + total k [f] +
     if String.eqb "failed" k
     then Z.of_nat (raised [f]) + (if write_failed then 1 else 0)
     else 0)%Z ∧
    (write_failed = true ->
     ∃ r, f = inr r ∧
          trigger_scan_failed r && scanner_move_unsolved_logs = true ∧
          scan_failed_list (collect st f) = scan_failed_list st) ∧
    (write_failed = false ->
     scan_failed_list (collect st f) =
     scan_failed_list st ++
     map (fun r => name (crashlog_file r))
       (filter (fun r => trigger_scan_failed r = true) (returned [f]))).
Proof.
  set (b := String.eqb "failed" k).
  assert (Hincr : ∀ stats,
            default 0%Z (counter_incr stats ("failed", 1%Z) !! k) =
            (default 0 (stats !! k) + if b then 1 else 0)%Z).
  { intros stats. apply counter_incr_count. }
  unfold count_for, total, raised, returned. destruct f as [e|r]; simpl.
  - exists false. rewrite Hincr, app_nil_r.
    split_and!; [|done|done]. destruct b; lia.
  - destruct (write_report_effect _ _ _ _ _ _ _) as [fs [e|]] eqn:Hwrite; simpl.
    + exists true. rewrite Hincr, counter_fold_count.
      split_and!; [|intros _|done].
      * destruct b; lia.
      * exists r. split_and!; [done| |done].
        by eapply write_report_effect_raises.
    + exists false. rewrite counter_fold_count.
      split_and!; [|done|intros _].
      * destruct b; lia.
      * rewrite filter_cons. destruct (trigger_scan_failed r); simpl; [done|].
        by rewrite app_nil_r.
Qed.

Lemma total_cons k f rest : total k (f :: rest) = (total k [f] + total k rest)%Z.
Proof.
  unfold total, returned.
  destruct f; simpl;
    change (list_omap (string + scan_result)%type scan_result) with
      (@omap list _ (string + scan_result)%type scan_result); lia.
Qed.

Lemma raised_cons f rest : raised (f :: rest) = (raised [f] + raised rest)%nat.
Proof. unfold raised. simpl. lia. Qed.

Lemma total_perm k l1 l2 : l1 ≡ₚ l2 -> total k l1 = total k l2.
Proof.
  induction 1 as [|f l1 l2 _ IH|f g l|l1 l2 l3 _ IH1 _ IH2]; [done|..].
  - by rewrite (total_cons k f l1), (total_cons k f l2), IH.
  - rewrite (total_cons k g (f :: l)), (total_cons k f l),
      (total_cons k f (g :: l)), (total_cons k g l). lia.
  - congruence.
Qed.

Lemma collect_results_count completed : ∀ st k,
  ∃ write_failures : nat,
    count_for (collect_results replace_existing local_dir
                 scanner_move_unsolved_logs st completed) k =
    (count_for st k + total k completed +
     if String.eqb "failed" k
     then Z.of_nat (raised completed) + Z.of_nat write_failures
     else 0)%Z ∧
    (write_failures
     <= length (filter (fun r => trigger_scan_failed r
                                 && scanner_move_unsolved_logs = true)
                  (returned completed)))%nat.
Proof.
  induction completed as [|f rest IH]; intros st k;
    set (b := String.eqb "failed" k).
  - exists 0%nat. unfold total, raised. simpl.
    split; [destruct b; lia|lia].
  - simpl. destruct (collect_result_count st f k) as (wf & Hcount & Hfailed & _).
    destruct (IH (collect st f) k) as (n & Hrest & Hn).
    change (String.eqb "failed" k) with b in Hcount, Hrest.
    exists ((if wf then 1 else 0) + n)%nat.
    rewrite Hrest, Hcount, (total_cons k f rest), (raised_cons f rest). split.
    + destruct b, wf; lia.
    + unfold returned in *. destruct wf.
      * destruct (Hfailed eq_refl) as (r & -> & Hmove & _). simpl.
        rewrite filter_cons, decide_True by done. simpl. lia.
      * destruct f as [e|r]; simpl; [lia|].
        rewrite filter_cons. case_decide; simpl; lia.
Qed.


End BatchStats.
